(** * A shallow embedding of the futures trading bot

    The development follows the three Python modules of the repository:

    - [time_sync_config.py]  (class [TimeSyncManager])      -> [Module TimeSync]
    - [binance_main.py]      (class [BinanceFuturesTrader]) -> [Module Trader]
    - [binance_take_profit.py] (class [TakeProfitMonitor])  -> [Module Monitor]

    Python [float] is IEEE 754 binary64 and is embedded as Rocq's primitive
    [float], so every arithmetic step below is the one the interpreter
    performs.  Python [int] is [Z].  Dictionaries used as maps are [gmap]s,
    the memo set is a [gset].  Code that talks to the outside world (the
    wall clock, the time endpoints, the exchange API) runs in a state and
    exception monad whose state carries the mutable attributes of the
    objects together with cursors into an environment of scripted answers. *)

From Stdlib Require Import ZArith Floats Lia Bool Ascii String.
From stdpp Require Import gmap strings list.

Set Warnings "-inexact-float".

Local Open Scope Z_scope.

(** ** Python numbers *)

Module PyNum.

(** The exact value of a finite float is [m * 2^e]; [None] stands for the
    infinities and NaN. *)
Definition float_val (x : float) : option (Z * Z) :=
  match Prim2SF x with
  | S754_zero _ => Some (0, 0)
  | S754_finite s m e => Some (if s then Z.neg m else Z.pos m, e)
  | S754_infinity _ | S754_nan => None
  end.

(** The sign bit, which formatting prints even for zero. *)
Definition sign_bit (x : float) : bool :=
  match Prim2SF x with
  | S754_zero s | S754_infinity s | S754_finite s _ _ => s
  | S754_nan => false
  end.

(** [round_half_even n d] is the integer nearest to [n / d] for [0 < d],
    ties going to the even neighbour. *)
Definition round_half_even (n d : Z) : Z :=
  let q := n / d in
  let r := n mod d in
  match 2 * r ?= d with
  | Lt => q
  | Gt => q + 1
  | Eq => if Z.even q then q else q + 1
  end.

(** [int(x)]: truncation towards zero; fails on inf and NaN. *)
Definition py_int (x : float) : option Z :=
  match float_val x with
  | Some (m, e) => Some (if 0 <=? e then m * 2 ^ e else Z.quot m (2 ^ (- e)))
  | None => None
  end.

(** [round(x)]: nearest integer, ties to even; fails on inf and NaN. *)
Definition py_round (x : float) : option Z :=
  match float_val x with
  | Some (m, e) => Some (if 0 <=? e then m * 2 ^ e else round_half_even m (2 ^ (- e)))
  | None => None
  end.

(** [float(n)] for an integer: the nearest binary64 value. *)
Definition float_of_Z (n : Z) : float :=
  SF2Prim (binary_normalize prec emax n 0 false).

(** The binary64 value nearest to [n / d] ([0 <= n], [0 < d]), with the
    given sign.  The quotient is computed with at least 64 significant
    bits and a sticky bit, which [binary_normalize] then rounds to nearest
    even. *)
Definition float_of_ratio (neg : bool) (n d : Z) : float :=
  if n =? 0 then (if neg then (-0)%float else 0%float)
  else
    let k := Z.max 0 (64 + Z.log2 d - Z.log2 n) in
    let q := (n * 2 ^ k) / d in
    let sticky := if (n * 2 ^ k) mod d =? 0 then 0 else 1 in
    let m := 2 * q + sticky in
    SF2Prim (binary_normalize prec emax (if neg then - m else m) (- (k + 1)) neg).

(** The nearest integral float, ties to even, keeping the sign of a zero
    result ([numpy.rint]). *)
Definition rint (x : float) : float :=
  match py_round x with
  | Some n => if n =? 0 then (x * 0)%float else float_of_Z n
  | None => x
  end.

(** [max(a, b)] of the builtin: the first argument unless the second is
    strictly greater. *)
Definition py_max (a b : float) : float :=
  if (a <? b)%float then b else a.

End PyNum.

(** ** Python strings: fixed-point formatting and parsing *)

Module PyStr.
Import PyNum.

Local Open Scope string_scope.
Local Open Scope Z_scope.

Definition digit_char (d : Z) : ascii :=
  Ascii.ascii_of_N (48 + Z.to_N d).

(** Decimal digits of a non-negative integer, least significant digit
    produced last; [fuel] bounds the number of digits. *)
Fixpoint digits_aux (fuel : nat) (n : Z) (acc : string) : string :=
  match fuel with
  | O => acc
  | S fuel' =>
      let acc' := String (digit_char (n mod 10)) acc in
      if n / 10 =? 0 then acc' else digits_aux fuel' (n / 10) acc'
  end.

Definition digits (n : Z) : string :=
  digits_aux (S (Z.to_nat (Z.log2 n))) n "".

Fixpoint zeros (k : nat) : string :=
  match k with
  | O => ""
  | S k' => String "0" (zeros k')
  end.

Fixpoint take (k : nat) (s : string) : string :=
  match k, s with
  | S k', String c s' => String c (take k' s')
  | _, _ => ""
  end.

Fixpoint drop (k : nat) (s : string) : string :=
  match k, s with
  | S k', String _ s' => drop k' s'
  | _, _ => s
  end.

(** [f"{x:.{p}f}"]: the exact value of [x] rounded half-even to [p]
    decimals, as CPython's correctly rounded formatting does. *)
Definition format_f (x : float) (p : nat) : string :=
  match float_val x with
  | None =>
      match Prim2SF x with
      | S754_infinity true => "-inf"
      | S754_infinity false => "inf"
      | _ => "nan"
      end
  | Some (m, e) =>
      let a := Z.abs m in
      let scaled :=
        if 0 <=? e then a * 2 ^ e * 10 ^ Z.of_nat p
        else round_half_even (a * 10 ^ Z.of_nat p) (2 ^ (- e)) in
      let ds := digits scaled in
      let ds := zeros (S p - String.length ds) ++ ds in
      let ilen := (String.length ds - p)%nat in
      let body := if (p =? 0)%nat then ds else take ilen ds ++ "." ++ drop ilen ds in
      if sign_bit x then "-" ++ body else body
  end.

Fixpoint contains_char (c : ascii) (s : string) : bool :=
  match s with
  | EmptyString => false
  | String c' s' => if Ascii.eqb c c' then true else contains_char c s'
  end.

(** [s.rstrip(c)] for a single character [c]. *)
Fixpoint rstrip (c : ascii) (s : string) : string :=
  match s with
  | EmptyString => EmptyString
  | String c' s' =>
      match rstrip c s' with
      | EmptyString => if Ascii.eqb c c' then EmptyString else String c' EmptyString
      | t => String c' t
      end
  end.

(** Value of a run of decimal digits, [None] if another character occurs. *)
Fixpoint digits_value (s : string) (acc : Z) : option Z :=
  match s with
  | EmptyString => Some acc
  | String c s' =>
      let n := Z.of_N (Ascii.N_of_ascii c) in
      if (48 <=? n) && (n <=? 57) then digits_value s' (acc * 10 + (n - 48)) else None
  end.

Fixpoint split_dot (s : string) : string * option string :=
  match s with
  | EmptyString => (EmptyString, None)
  | String c s' =>
      if Ascii.eqb c "." then (EmptyString, Some s')
      else let '(i, f) := split_dot s' in (String c i, f)
  end.

(** [float(s)] on the strings fixed-point formatting produces: an optional
    minus sign, digits, an optional point with digits, or inf / nan.  The
    value is the binary64 number nearest to the decimal.  Anything else is
    a [ValueError] ([None]). *)
Definition py_float (s : string) : option float :=
  let '(neg, body) :=
    match s with
    | String "-" s' => (true, s')
    | _ => (false, s)
    end in
  if String.eqb body "inf" then Some (if neg then neg_infinity else infinity)
  else if String.eqb body "nan" then Some nan
  else
    let '(ip, fp) := split_dot body in
    let fp := match fp with Some f => f | None => "" end in
    if (String.length ip + String.length fp =? 0)%nat then None
    else
      match digits_value (ip ++ fp) 0 with
      | Some n => Some (float_of_ratio neg n (10 ^ Z.of_nat (String.length fp)))
      | None => None
      end.

(** [round(x, ndigits)] of a Python float for [0 <= ndigits]: CPython
    prints the value with [ndigits] decimals, correctly rounded, and reads
    the decimal back. *)
Definition py_round_ndigits (x : float) (ndigits : nat) : option float :=
  py_float (format_f x ndigits).

(** [round(x, ndigits)] of a [numpy.float64] for [0 <= ndigits]: scale by
    the power of ten, round to the nearest integer (ties to even), scale
    back. *)
Definition np_round (x : float) (ndigits : nat) : float :=
  let factor := float_of_Z (10 ^ Z.of_nat ndigits) in
  (rint (x * factor) / factor)%float.

Definition upper_char (c : ascii) : ascii :=
  let n := Ascii.N_of_ascii c in
  if ((97 <=? n) && (n <=? 122))%N then Ascii.ascii_of_N (n - 32) else c.

Definition lower_char (c : ascii) : ascii :=
  let n := Ascii.N_of_ascii c in
  if ((65 <=? n) && (n <=? 90))%N then Ascii.ascii_of_N (n + 32) else c.

Fixpoint map_chars (f : ascii -> ascii) (s : string) : string :=
  match s with
  | EmptyString => EmptyString
  | String c s' => String (f c) (map_chars f s')
  end.

(** [s.upper()] and [s.lower()] on ASCII text. *)
Definition upper : string -> string := map_chars upper_char.
Definition lower : string -> string := map_chars lower_char.

(** [needle in haystack] *)
Fixpoint contains (needle haystack : string) : bool :=
  String.prefix needle haystack ||
  match haystack with
  | EmptyString => false
  | String _ rest => contains needle rest
  end.

End PyStr.

(** ** Exceptions and the state-and-exception monad *)

(** A Python exception: [exc_code] is the [code] attribute when the
    exception has one ([hasattr(e, 'code')]), [exc_msg] is [str(e)]. *)
Record PyExc := mkExc { exc_code : option Z; exc_msg : string }.

Inductive outcome (A : Type) : Type :=
| Returns (a : A)
| Raises (e : PyExc).
Arguments Returns {A} a.
Arguments Raises {A} e.

(** A computation over a mutable state [S].  Mutations made before an
    exception is raised stay in force, as in Python. *)
Definition M (S A : Type) : Type := S -> outcome A * S.

Definition ret {S A} (a : A) : M S A := fun s => (Returns a, s).

Definition bind {S A B} (m : M S A) (f : A -> M S B) : M S B :=
  fun s => match m s with
           | (Returns a, s') => f a s'
           | (Raises e, s') => (Raises e, s')
           end.

Definition raise {S A} (e : PyExc) : M S A := fun s => (Raises e, s).

(** [try: m  except Exception as e: h e] *)
Definition try_catch {S A} (m : M S A) (h : PyExc -> M S A) : M S A :=
  fun s => match m s with
           | (Returns a, s') => (Returns a, s')
           | (Raises e, s') => h e s'
           end.

Definition get_state {S} : M S S := fun s => (Returns s, s).
Definition modify {S} (f : S -> S) : M S unit := fun s => (Returns tt, f s).

(** An operation that fails with the given exception when the underlying
    Python builtin does. *)
Definition of_option {S A} (o : option A) (e : PyExc) : M S A :=
  match o with
  | Some a => ret a
  | None => raise e
  end.

(** A computation keeps a relation between the state it starts in and
    the state it ends in, however it ends. *)
Definition preserves {S A} (R : S -> S -> Prop) (m : M S A) : Prop :=
  forall s r s', m s = (r, s') -> R s s'.

Declare Scope py_scope.
Delimit Scope py_scope with py.
Notation "x <- c1 ;; c2" := (bind c1 (fun x => c2))
  (at level 100, c1 at next level, right associativity) : py_scope.
Notation "c1 ;; c2" := (bind c1 (fun _ => c2))
  (at level 100, right associativity) : py_scope.

(** [hasattr(e, 'code') and e.code == c] *)
Definition has_code (e : PyExc) (c : Z) : bool :=
  match exc_code e with
  | Some c' => (c' =? c)%Z
  | None => false
  end.

Definition ValueError : PyExc := mkExc None "cannot convert float to integer".
Definition ZeroDivisionError : PyExc := mkExc None "float division by zero".
Definition KeyError : PyExc := mkExc None "KeyError".
Definition TypeError : PyExc := mkExc None "TypeError".

(** [a / b] on Python floats. *)
Definition py_div {S} (a b : float) : M S float :=
  if (b =? 0)%float then raise ZeroDivisionError else ret (a / b)%float.

(** * time_sync_config.py *)

Module TimeSync.
Import PyNum.

Local Open Scope string_scope.
Local Open Scope Z_scope.
Local Open Scope py_scope.

(** What one [requests.get(endpoint, timeout=5)] leads to: the call or
    [raise_for_status] raises, or [response.json()] raises, or the body is
    a dictionary that may hold [serverTime]. *)
Inductive http_result : Type :=
| HttpError
| BadJson
| Body (serverTime : option Z).

(** The environment: the successive readings of [time.time()] and the
    answers to the successive GET requests. *)
Record env : Type := mkEnv {
  time_time : nat -> float;
  requests_get : nat -> string -> http_result
}.

(** One completed measurement of the polling loop. *)
Record sample : Type := mkSample {
  endpoint_of : string;
  request_start : Z;
  request_end : Z;
  server_time : Z
}.

Definition network_delay_of (x : sample) : Z := request_end x - request_start x.

(** The attributes of a [TimeSyncManager]. *)
Record TimeSyncManager : Type := mkManager {
  sync_interval : Z;
  max_allowed_offset : Z;
  time_offset : Z;
  last_server_time : Z;
  last_local_time : Z;
  is_synced : bool;
  last_sync_time : float;
  min_sync_interval : Z
}.

(** [TimeSyncManager.__init__] with its default arguments. *)
Definition init : TimeSyncManager :=
  {| sync_interval := 1800; max_allowed_offset := 10000; time_offset := 0;
     last_server_time := 0; last_local_time := 0; is_synced := false;
     last_sync_time := 0%float; min_sync_interval := 5 |}.

(** The state of a run: the object, how many clock readings and GET
    requests have been consumed, and two history variables recording the
    endpoints requested and the measurements completed, oldest first. *)
Record state : Type := mkState {
  self : TimeSyncManager;
  ticks : nat;
  gets : nat;
  queried : list string;
  samples : list sample
}.

Definition fresh : state :=
  {| self := init; ticks := 0; gets := 0; queried := []; samples := [] |}.

Definition with_self (f : TimeSyncManager -> TimeSyncManager) (s : state) : state :=
  {| self := f (self s); ticks := ticks s; gets := gets s;
     queried := queried s; samples := samples s |}.

Definition record_sync (offset server local : Z) (now : float) (m : TimeSyncManager)
  : TimeSyncManager :=
  {| sync_interval := sync_interval m; max_allowed_offset := max_allowed_offset m;
     time_offset := offset; last_server_time := server; last_local_time := local;
     is_synced := true; last_sync_time := now;
     min_sync_interval := min_sync_interval m |}.

Definition mark_unsynced (m : TimeSyncManager) : TimeSyncManager :=
  {| sync_interval := sync_interval m; max_allowed_offset := max_allowed_offset m;
     time_offset := time_offset m; last_server_time := last_server_time m;
     last_local_time := last_local_time m;
     is_synced := false; last_sync_time := last_sync_time m;
     min_sync_interval := min_sync_interval m |}.

Section WithEnv.
Variable E : env.

(** [time.time()] *)
Definition now : M state float :=
  fun s => (Returns (time_time E (ticks s)),
            {| self := self s; ticks := S (ticks s); gets := gets s;
               queried := queried s; samples := samples s |}).

(** [int(t * 1000)] *)
Definition to_ms (t : float) : M state Z :=
  of_option (py_int (t * 1000)%float) ValueError.

(** [int(time.time() * 1000)] *)
Definition now_ms : M state Z := t <- now ;; to_ms t.

(** [requests.get(endpoint, timeout=5)] followed by [raise_for_status()]. *)
Definition http_get (endpoint : string) : M state http_result :=
  fun s =>
    let s' := {| self := self s; ticks := ticks s; gets := S (gets s);
                 queried := queried s ++ [endpoint]; samples := samples s |} in
    match requests_get E (gets s) endpoint with
    | HttpError => (Raises (mkExc None "request failed"), s')
    | r => (Returns r, s')
    end.

Definition log_sample (x : sample) : M state unit :=
  modify (fun s => {| self := self s; ticks := ticks s; gets := gets s;
                      queried := queried s; samples := samples s ++ [x] |}).

Definition endpoints : list string :=
  [ "https://api.binance.com/api/v3/time";
    "https://api1.binance.com/api/v3/time";
    "https://api2.binance.com/api/v3/time";
    "https://api3.binance.com/api/v3/time" ].

(** The body of the inner [try] of the polling loop: one measurement,
    giving the new [(binance_time, network_delay)]. *)
Definition measure (endpoint : string) : M state (Z * Z) :=
  start <- now_ms ;;
  response <- http_get endpoint ;;
  stop <- now_ms ;;
  match response with
  | Body serverTime =>
      let binance_time := default 0 serverTime in
      log_sample (mkSample endpoint start stop binance_time) ;;
      ret (binance_time, stop - start)
  | _ => raise (mkExc None "invalid JSON")
  end.

(** [for endpoint in endpoints: try: ... except: continue] *)
Fixpoint poll (eps : list string) (binance_time network_delay : Z) : M state (Z * Z) :=
  match eps with
  | [] => ret (binance_time, network_delay)
  | endpoint :: rest =>
      r <- try_catch (x <- measure endpoint ;; ret (Some x)) (fun _ => ret None) ;;
      match r with
      | Some (binance_time', network_delay') =>
          if network_delay' <? 500 then ret (binance_time', network_delay')
          else poll rest binance_time' network_delay'
      | None => poll rest binance_time network_delay
      end
  end.

Definition all_unreachable : PyExc := mkExc None "所有币安API端点都无法访问".

(** The outer [try] block of [sync_time]. *)
Definition sync_time_try (current_time : float) : M state bool :=
  local_request_time <- to_ms current_time ;;
  polled <- poll endpoints 0 1000 ;;
  let '(binance_time, network_delay) := polled in
  if binance_time =? 0 then raise all_unreachable
  else
    local_response_time <- now_ms ;;
    let estimated_server_time_at_request := local_request_time + network_delay / 2 in
    modify (with_self (record_sync (binance_time - estimated_server_time_at_request)
                                   binance_time local_response_time current_time)) ;;
    ret true.

(** [sync_time(force)]: [None] when the call is skipped, [Some true] on
    success, [Some false] when either [except] clause ran. *)
Definition sync_time (force : bool) : M state (option bool) :=
  current_time <- now ;;
  s <- get_state ;;
  if negb force &&
     (current_time - last_sync_time (self s) <? float_of_Z (min_sync_interval (self s)))%float
  then ret None
  else
    try_catch (b <- sync_time_try current_time ;; ret (Some b))
              (fun _ => modify (with_self mark_unsynced) ;; ret (Some false)).

(** [get_synced_timestamp()] *)
Definition get_synced_timestamp : M state Z :=
  s <- get_state ;;
  (if negb (is_synced (self s)) then _ <- sync_time false ;; ret tt else ret tt) ;;
  current_local_time <- now_ms ;;
  s <- get_state ;;
  current_local_time <-
    (if sync_interval (self s) * 1000 <? current_local_time - last_local_time (self s)
     then _ <- sync_time false ;; now_ms
     else ret current_local_time) ;;
  s <- get_state ;;
  if 0 <? last_server_time (self s)
  then
    let time_since_last_sync := current_local_time - last_local_time (self s) in
    ret (last_server_time (self s) + time_since_last_sync)
  else ret (current_local_time + time_offset (self s)).

(** [int(time.time() * 1000)] as the [k]-th reading of the clock gives it. *)
Definition reading (k : nat) : option Z := py_int (time_time E k * 1000)%float.

End WithEnv.

(** *** The selection and the offset as the specification words them *)

Definition fast (x : sample) : bool := network_delay_of x <? 500.

(** The sample of lowest delay, the earliest one among equals. *)
Fixpoint best (xs : list sample) : option sample :=
  match xs with
  | [] => None
  | x :: rest =>
      match best rest with
      | Some y => if network_delay_of y <? network_delay_of x then Some y else Some x
      | None => Some x
      end
  end.

(** "accepts the first sample with delay below the threshold, else keeps
    the best sample found after exhausting the endpoint list" *)
Definition spec_choice (xs : list sample) : option sample :=
  match List.find fast xs with
  | Some x => Some x
  | None => best xs
  end.

(** "estimatedRemoteAtSend = sendTime + networkDelay/2;
     offset = remoteTime - estimatedRemoteAtSend" *)
Definition spec_offset (x : sample) : Z :=
  server_time x - (request_start x + network_delay_of x / 2).

(** The sentence of the specification about [sync_time], for a run that
    starts in state [s]: the run having succeeded, the sample the stored
    values come from is the one [spec_choice] names among the samples of
    the run, and the stored offset is its [spec_offset]. *)
Definition claimed_sync (E : env) (force : bool) (s : state) : Prop :=
  forall s', sync_time E force s = (Returns (Some true), s') ->
    exists new kept,
      samples s' = (samples s ++ new)%list /\ spec_choice new = Some kept /\
      last_server_time (self s') = server_time kept /\
      time_offset (self s') = spec_offset kept.

(** The offset and the extrapolation base agree: adding the offset to the
    clock and extrapolating from the last sync give the same number
    whenever no positive server time is stored. *)
Definition consistent (m : TimeSyncManager) : Prop :=
  0 < last_server_time m \/ time_offset m = last_server_time m - last_local_time m.

(** Every server time the endpoints report is positive. *)
Definition positive_server_times (E : env) : Prop :=
  forall k endpoint t, requests_get E k endpoint = Body (Some t) -> 0 < t.

(** No endpoint can be reached. *)
Definition unreachable (E : env) : Prop :=
  forall k endpoint, requests_get E k endpoint = HttpError.

(** The call is not skipped by the minimum-interval gate. *)
Definition proceeds (E : env) (force : bool) (s : state) : Prop :=
  negb force &&
  (time_time E (ticks s) - last_sync_time (self s)
     <? float_of_Z (min_sync_interval (self s)))%float = false.

(** *** Predicates on runs *)

(** Every reading of the clock is a finite number, so that
    [int(time.time() * 1000)] has a value. *)
Definition readable (E : env) : Prop := forall k, is_Some (reading E k).

(** A measurement reports what some endpoint answered. *)
Definition from_env (E : env) (x : sample) : Prop :=
  exists k body, requests_get E k (endpoint_of x) = Body body /\
                 server_time x = default 0 body.

Definition slow (x : sample) : Prop := 500 <= network_delay_of x.

(** What a successful run of the outer [try] block leaves behind: the
    last measurement [kept], the slower ones before it, and the attributes
    computed from [kept] and from the reading [lrt] taken on entry. *)
Definition synced_from (E : env) (ct : float) (s s' : state) : Prop :=
  exists lrt older kept llt qs,
    py_int (ct * 1000)%float = Some lrt /\
    samples s' = (samples s ++ older ++ [kept])%list /\
    Forall slow older /\ Forall (from_env E) (older ++ [kept])%list /\
    server_time kept <> 0 /\
    queried s' = (queried s ++ qs)%list /\ sublist qs endpoints /\
    reading E (pred (ticks s')) = Some llt /\
    self s' = record_sync (server_time kept - (lrt + network_delay_of kept / 2))
                          (server_time kept) llt ct (self s).

(** *** Scripted environments *)

(** A clock that gives the listed readings and then stays at [final]. *)
Definition clock (readings : list float) (final : float) : nat -> float :=
  fun k => nth k readings final.

(** The first endpoint times out after five seconds, the second answers
    within 125 ms. *)
Definition env_retry : env :=
  {| time_time := clock [1762250000; 1762250000; 1762250005; 1762250005.125;
                         1762250005.25; 1762250005.5; 1762250006]%float
                        1762250006.5%float;
     requests_get := fun k _ =>
       match k with
       | O => HttpError
       | _ => Body (Some 1762250005100)
       end |}.

(** Two endpoints answer, after 625 ms and after 875 ms; the others fail. *)
Definition env_slow : env :=
  {| time_time := clock [1762250000; 1762250000; 1762250000.625; 1762250000.625]%float
                        1762250001.5%float;
     requests_get := fun k _ =>
       match k with
       | 0%nat => Body (Some 1762250000400)
       | 1%nat => Body (Some 1762250001200)
       | _ => HttpError
       end |}.

(** The first endpoint answers within 125 ms, and the request to it is
    sent in the millisecond of the reading [sync_time] takes on entry. *)
Definition env_prompt : env :=
  {| time_time := clock [1762250000; 1762250000; 1762250000.125; 1762250000.25]%float
                        1762250000.5%float;
     requests_get := fun _ _ => Body (Some 1762250000100) |}.

(** Nothing answers. *)
Definition env_down : env :=
  {| time_time := clock [1762250100; 1762250100.5; 1762250105.5; 1762250110.5]%float
                        1762250115.5%float;
     requests_get := fun _ _ => HttpError |}.

(** A manager that synchronised a hundred seconds before [env_down]'s
    clock starts. *)
Definition synced_state : state :=
  {| self := record_sync 38 1762250000100 1762250000125 1762250000%float init;
     ticks := 0; gets := 0; queried := []; samples := [] |}.

(** The states after a first and a second [get_synced_timestamp] in
    [env_retry], starting from a new manager. *)
Definition after_first : state := snd (get_synced_timestamp env_retry fresh).
Definition after_second : state := snd (get_synced_timestamp env_retry after_first).

End TimeSync.

(** * The exchange client (python-binance), as the two programs use it *)

Module Binance.

Local Open Scope string_scope.

(** One element of [futures_position_information()].  [entryPrice] and
    [markPrice] are the parsed values of the keys when present. *)
Record Position : Type := mkPosition {
  pos_symbol : string;
  positionAmt : float;
  entryPrice : option float;
  markPrice : option float
}.

(** One element of [symbol_info['filters']]. *)
Record Filter : Type := mkFilter {
  filterType : string;
  stepSize : float;
  minQty : float
}.

(** One element of [futures_exchange_info()['symbols']]. *)
Record SymbolInfo : Type := mkSymbolInfo {
  info_symbol : string;
  info_status : string;
  pricePrecision : nat;
  quantityPrecision : option nat;
  filters : list Filter
}.

(** An order as the exchange reports it. *)
Record Order : Type := mkOrder {
  orderId : Z;
  order_type : string;
  reduceOnly : bool;
  order_status : string
}.

(** One candle of [futures_klines]. *)
Record RawKline : Type := mkRawKline {
  raw_open : float;
  raw_high : float;
  raw_low : float;
  raw_close : float
}.

(** The keyword arguments of [futures_create_order]. *)
Record OrderParams : Type := mkOrderParams {
  param_symbol : string;
  param_side : string;
  param_type : string;
  param_quantity : option float;
  param_stopPrice : option float;
  param_closePosition : bool;
  param_reduceOnly : bool
}.

Definition SIDE_BUY := "BUY".
Definition SIDE_SELL := "SELL".
Definition FUTURE_ORDER_TYPE_MARKET := "MARKET".
Definition FUTURE_ORDER_TYPE_STOP_MARKET := "STOP_MARKET".

(** A bound method of the client together with its arguments; the index
    is the type of what the call returns. *)
Inductive request : Type -> Type :=
| futures_position_information : request (list Position)
| futures_exchange_info : request (list SymbolInfo)
| futures_symbol_ticker (symbol : string) : request float
| futures_klines (symbol interval : string) (limit : Z) : request (list RawKline)
| futures_get_open_orders (symbol : string) : request (list Order)
| futures_cancel_order (symbol : string) (orderId : Z) : request unit
| futures_create_order (params : OrderParams) : request Order
| futures_get_order (symbol : string) (orderId : Z) : request Order.

Definition order_params {A} (r : request A) : list OrderParams :=
  match r with
  | futures_create_order params => [params]
  | _ => []
  end.

(** The exchange: what the [k]-th call made by the process leads to. *)
Definition exchange : Type := forall A, nat -> request A -> outcome A.

(** What a process that talks to the exchange carries: the module-level
    [time_sync_manager], the number of calls made so far, the seconds
    slept, and the orders submitted (a history variable, oldest first). *)
Record process : Type := mkProcess {
  clock : TimeSync.state;
  calls : nat;
  slept : Z;
  submitted : list OrderParams
}.

Definition new_process : process :=
  {| clock := TimeSync.fresh; calls := 0; slept := 0; submitted := [] |}.

Section WithExchange.
Variable T : TimeSync.env.
Variable X : exchange.

(** The call of [request_func] on its arguments. *)
Definition call {A} (r : request A) : M process A :=
  fun p => (X A (calls p) r,
            {| clock := clock p; calls := S (calls p); slept := slept p;
               submitted := submitted p ++ order_params r |}).

(** [time.sleep(seconds)] *)
Definition sleep (seconds : Z) : M process unit :=
  modify (fun p => {| clock := clock p; calls := calls p;
                      slept := (slept p + seconds)%Z; submitted := submitted p |}).

(** A method of [time_sync_manager] run from the process. *)
Definition on_clock {A} (m : M TimeSync.state A) : M process A :=
  fun p => let '(r, c) := m (clock p) in
           (r, {| clock := c; calls := calls p; slept := slept p;
                  submitted := submitted p |}).

End WithExchange.

(** [next((x for x in xs if x[key] == value), None)] *)
Definition lookup_by {A} (key : A -> string) (value : string) (xs : list A) : option A :=
  List.find (fun x => String.eqb (key x) value) xs.

End Binance.

(** * binance_main.py *)

Module Trader.
Import PyNum PyStr Binance.

Local Open Scope string_scope.
Local Open Scope Z_scope.
Local Open Scope py_scope.

(** The row [get_klines_data] returns: the last candle with its two
    moving averages, all [numpy.float64]. *)
Record Kline : Type := mkKline {
  open : float;
  high : float;
  low : float;
  close : float;
  ma_20 : float;
  ma_60 : float
}.

(** The dictionary [get_current_hour_klines] builds. *)
Record HourKline : Type := mkHourKline {
  hour_open : float;
  hour_high : float;
  hour_low : float;
  hour_close : float;
  price_change_pct : float
}.

(** The attributes of a [BinanceFuturesTrader] the modelled methods use,
    and the process it runs in. *)
Record state : Type := mkState {
  proc : process;
  max_retries : Z;
  retry_delay : Z;
  order_relations : gmap string (gmap string Z)
}.

(** The attributes as [__init__] sets them. *)
Definition init : state :=
  {| proc := new_process; max_retries := 3; retry_delay := 1; order_relations := ∅ |}.

Definition with_relations (f : gmap string (gmap string Z) -> gmap string (gmap string Z))
  (s : state) : state :=
  {| proc := proc s; max_retries := max_retries s; retry_delay := retry_delay s;
     order_relations := f (order_relations s) |}.

(** A step of the process, run from the trader. *)
Definition on_process {A} (m : M process A) : M state A :=
  fun s => let '(r, p) := m (proc s) in
           (r, {| proc := p; max_retries := max_retries s; retry_delay := retry_delay s;
                  order_relations := order_relations s |}).

Definition unknown_request_error : PyExc := mkExc None "未知请求错误".

Section WithWorld.
Variable T : TimeSync.env.
Variable X : exchange.

(** The [for attempt in range(self.max_retries)] loop of [safe_request]
    with [n] attempts left, and the [raise] after it. *)
Fixpoint attempts {A} (n : nat) (request_func : request A) (last_exception : option PyExc)
  : M state A :=
  match n with
  | O => raise (default unknown_request_error last_exception)
  | S n' =>
      try_catch (on_process (call X request_func))
        (fun e =>
           if has_code e (-4059) then raise e
           else if has_code e 1021 then
             on_process (on_clock (TimeSync.sync_time T false)) ;;
             s <- get_state ;;
             on_process (sleep (retry_delay s)) ;;
             attempts n' request_func last_exception
           else
             s <- get_state ;;
             on_process (sleep (retry_delay s)) ;;
             attempts n' request_func (Some e))
  end.

(** [safe_request(request_func, *args, **kwargs)] *)
Definition safe_request {A} (request_func : request A) : M state A :=
  s <- get_state ;;
  attempts (Z.to_nat (max_retries s)) request_func None.

(** [s.rstrip('0').rstrip('.') if '.' in s else s] *)
Definition trim (s : string) : string :=
  if contains_char "." s then rstrip "." (rstrip "0" s) else s.

(** [calculate_quantity(symbol, usdt_amount, leverage)].  The margin and
    the leverage come from [config.py]; they are taken as floats here, to
    which Python converts them in the division by the price. *)
Definition calculate_quantity (symbol : string) (usdt_amount leverage : float)
  : M state (option float) :=
  try_catch
    (price <- safe_request (futures_symbol_ticker symbol) ;;
     raw_quantity <- py_div (usdt_amount * leverage)%float price ;;
     exchange_info <- safe_request futures_exchange_info ;;
     match lookup_by info_symbol symbol exchange_info with
     | None => ret None
     | Some symbol_info =>
         match lookup_by filterType "LOT_SIZE" (filters symbol_info) with
         | None => ret None
         | Some lot_size_filter =>
             let step_size := stepSize lot_size_filter in
             let min_qty := minQty lot_size_filter in
             ratio <- py_div raw_quantity step_size ;;
             n <- of_option (py_round ratio) ValueError ;;
             let quantity := (float_of_Z n * step_size)%float in
             if (quantity <? min_qty)%float then ret None
             else
               quantity <-
                 try_catch
                   (precision <- of_option (quantityPrecision symbol_info) KeyError ;;
                    of_option (py_float (trim (format_f quantity precision))) ValueError)
                   (fun _ =>
                      of_option
                        (py_float (if contains_char "." (format_f quantity 8)
                                   then rstrip "." (rstrip "0" (format_f quantity 8))
                                   else format_f quantity 0))
                        ValueError) ;;
               ret (Some quantity)
         end
     end)
    (fun _ => ret None).

(** [check_open_long_signal(kline)] *)
Definition check_open_long_signal (kline : option Kline) : bool :=
  match kline with
  | None => false
  | Some kline =>
      let price_change := ((close kline - open kline) / open kline * 100)%float in
      let open_low_change := ((open kline - low kline) / open kline * 100)%float in
      let max_ma := py_max (ma_20 kline) (ma_60 kline) in
      let above_ma_change := ((close kline - max_ma) / max_ma * 100)%float in
      (1 <=? price_change)%float && (price_change <? 4)%float &&
      (ma_60 kline <? close kline)%float && (ma_20 kline <? close kline)%float &&
      (abs open_low_change <? 4)%float &&
      (0 <? above_ma_change)%float && (above_ma_change <? 11)%float
  end.

(** [get_position(symbol)] *)
Definition get_position (symbol : string) : M state (option Position) :=
  try_catch
    (positions <- safe_request futures_position_information ;;
     ret (List.find
            (fun pos => String.eqb (pos_symbol pos) symbol &&
                        (0 <? positionAmt pos)%float &&
                        (bool_decide (is_Some (entryPrice pos)) &&
                         bool_decide (is_Some (markPrice pos))))
            positions))
    (fun _ => ret None).

(** The cancellations of the [for order in open_orders] loop. *)
Fixpoint cancel_each (symbol : string) (open_orders : list Order) : M state unit :=
  match open_orders with
  | [] => ret tt
  | order :: rest =>
      (if String.eqb (upper (order_type order)) "STOP_MARKET" || reduceOnly order
       then try_catch (safe_request (futures_cancel_order symbol (orderId order)))
                      (fun _ => ret tt)
       else ret tt) ;;
      cancel_each symbol rest
  end.

(** [cancel_associated_orders(symbol)] *)
Definition cancel_associated_orders (symbol : string) : M state unit :=
  try_catch
    (open_orders <- safe_request (futures_get_open_orders symbol) ;;
     cancel_each symbol open_orders ;;
     modify (with_relations (delete symbol)))
    (fun _ => ret tt).

(** [if symbol not in self.order_relations: self.order_relations[symbol] = {}]
    followed by [self.order_relations[symbol]['stop_loss'] = order_id]. *)
Definition track_stop_loss (symbol : string) (order_id : Z)
  (relations : gmap string (gmap string Z)) : gmap string (gmap string Z) :=
  <[symbol := <["stop_loss" := order_id]> (default ∅ (relations !! symbol))]> relations.

Definition stop_order (symbol : string) (stop_price : float) : OrderParams :=
  {| param_symbol := symbol; param_side := SIDE_SELL;
     param_type := FUTURE_ORDER_TYPE_STOP_MARKET; param_quantity := None;
     param_stopPrice := Some stop_price; param_closePosition := true;
     param_reduceOnly := false |}.

(** [set_stop_loss(symbol, entry_price, kline)] *)
Definition set_stop_loss (symbol : string) (entry_price : float) (kline : option Kline)
  : M state (option Order) :=
  position <- get_position symbol ;;
  match position with
  | None => ret None
  | Some position =>
      if (positionAmt position =? 0)%float then ret None
      else
        exchange_info <- safe_request futures_exchange_info ;;
        match lookup_by info_symbol symbol exchange_info with
        | None => ret None
        | Some symbol_info =>
            let price_precision := pricePrecision symbol_info in
            kline <- of_option kline TypeError ;;
            let stop_price := np_round (low kline * 0.999)%float price_precision in
            cancel_associated_orders symbol ;;
            try_catch
              (order <- safe_request (futures_create_order (stop_order symbol stop_price)) ;;
               modify (with_relations (track_stop_loss symbol (orderId order))) ;;
               ret (Some order))
              (fun _ => ret None)
        end
  end.

(** [_get_raw_klines(symbol, interval, limit)] *)
Definition _get_raw_klines (symbol interval : string) (limit : Z)
  : M state (option (list RawKline)) :=
  try_catch
    (klines <- safe_request (futures_klines symbol interval limit) ;;
     match klines with
     | [] => ret None
     | _ => ret (Some klines)
     end)
    (fun _ => ret None).

(** [get_current_hour_klines(symbol)] *)
Definition get_current_hour_klines (symbol : string) : M state (option HourKline) :=
  try_catch
    (klines <- _get_raw_klines symbol "1h" 1 ;;
     match klines with
     | None | Some [] => ret None
     | Some (k :: _) =>
         change <- py_div (raw_close k - raw_open k)%float (raw_open k) ;;
         ret (Some {| hour_open := raw_open k; hour_high := raw_high k;
                      hour_low := raw_low k; hour_close := raw_close k;
                      price_change_pct := (change * 100)%float |})
     end)
    (fun _ => ret None).

(** [update_stop_loss(symbol, entry_price)] *)
Definition update_stop_loss (symbol : string) (entry_price : float)
  : M state (option Order) :=
  try_catch
    (position <- get_position symbol ;;
     match position with
     | None => ret None
     | Some position =>
         if (positionAmt position =? 0)%float then ret None
         else
           hour_kline <- get_current_hour_klines symbol ;;
           match hour_kline with
           | None => ret None
           | Some hour_kline =>
               let price_change := price_change_pct hour_kline in
               if (1 <=? price_change)%float then
                 exchange_info <- safe_request futures_exchange_info ;;
                 match lookup_by info_symbol symbol exchange_info with
                 | None => ret None
                 | Some symbol_info =>
                     let price_precision := pricePrecision symbol_info in
                     new_stop_price <-
                       of_option (py_round_ndigits (hour_low hour_kline * 0.999)%float
                                                   price_precision) ValueError ;;
                     cancel_associated_orders symbol ;;
                     try_catch
                       (order <- safe_request
                                   (futures_create_order (stop_order symbol new_stop_price)) ;;
                        let order_id := orderId order in
                        verified_order <- safe_request (futures_get_order symbol order_id) ;;
                        if String.eqb (order_status verified_order) "NEW"
                        then
                          modify (with_relations (track_stop_loss symbol order_id)) ;;
                          ret (Some order)
                        else ret None)
                       (fun _ => ret None)
                 end
               else ret None
           end
     end)
    (fun _ => ret None).

End WithWorld.

(** The stop-loss order ids [order_relations] holds for a symbol. *)
Definition stop_loss_ids (relations : gmap string (gmap string Z)) (symbol : string)
  : list Z :=
  match relations !! symbol with
  | Some record =>
      match record !! "stop_loss" with
      | Some order_id => [order_id]
      | None => []
      end
  | None => []
  end.

(** *** The entry signal as the specification words it *)

Definition priceChangePct (k : Kline) : float := ((close k - open k) / open k * 100)%float.
Definition openLowPct (k : Kline) : float := ((open k - low k) / open k * 100)%float.

(** "max(ma20, ma60)": the moving average that is not below the other. *)
Definition maxMA (k : Kline) : float :=
  if (ma_60 k <=? ma_20 k)%float then ma_20 k else ma_60 k.

Definition aboveMAPct (k : Kline) : float := ((close k - maxMA k) / maxMA k * 100)%float.

(** The four conjuncts. *)
Definition fire (k : Kline) : Prop :=
  ((1 <=? priceChangePct k)%float = true /\ (priceChangePct k <? 4)%float = true) /\
  ((ma_20 k <? close k)%float = true /\ (ma_60 k <? close k)%float = true) /\
  (abs (openLowPct k) <? 4)%float = true /\
  ((0 <? aboveMAPct k)%float = true /\ (aboveMAPct k <? 11)%float = true).

(** "populated ma20 and ma60": both moving averages are numbers, not the
    NaN of a window that is not full yet. *)
Definition populated (k : Kline) : Prop :=
  (ma_20 k =? ma_20 k)%float = true /\ (ma_60 k =? ma_60 k)%float = true.

(** How far, in percent, the close is above a given moving average. *)
Definition abovePct (k : Kline) (ma : float) : float := ((close k - ma) / ma * 100)%float.

(** The candle of the specification's example, and the same candle with
    its close at 112. *)
Definition example_candle : Kline :=
  {| open := 100; high := 103; low := 97; close := 102; ma_20 := 99; ma_60 := 98 |}.
Definition example_candle_112 : Kline :=
  {| open := 100; high := 113; low := 97; close := 112; ma_20 := 99; ma_60 := 98 |}.

(** The same candle with the moving averages far apart: the close is one
    percent above the larger and twelve percent above the smaller.  In the
    first the larger is [ma_60], in the second [ma_20]. *)
Definition candle_ma60_leads : Kline :=
  {| open := 100; high := 103; low := 97; close := 102; ma_20 := 91; ma_60 := 101 |}.
Definition candle_ma20_leads : Kline :=
  {| open := 100; high := 103; low := 97; close := 102; ma_20 := 101; ma_60 := 91 |}.

(** "after setStopLoss/updateStopLoss, exactly one protective order record
    exists" for the symbol, whatever the completed call returned. *)
Definition claimed_one_record (run : M state (option Order)) (symbol : string) (s : state)
  : Prop :=
  forall o s', run s = (Returns o, s') ->
               length (stop_loss_ids (order_relations s') symbol) = 1%nat.

(** *** Predicates on runs *)

(** The trader's own attributes are the same in both states. *)
Definition same_attrs (s s' : state) : Prop :=
  order_relations s' = order_relations s /\
  max_retries s' = max_retries s /\ retry_delay s' = retry_delay s.

(** An error is transient when it is neither the permanent rejection nor
    the clock-skew signal. *)
Definition transient (e : PyExc) : Prop :=
  has_code e (-4059) = false /\ has_code e 1021 = false.

Definition clock_skew (e : PyExc) : Prop := has_code e 1021 = true.

(** How [calculate_quantity] turns the checked quantity into its
    result: formatted to the instrument's precision and read back, or, when
    that fails, formatted to eight decimals. *)
Definition formatted (quantity : float) (precision : option nat) (q : float) : Prop :=
  (exists p, precision = Some p /\ py_float (trim (format_f quantity p)) = Some q) \/
  py_float (if contains_char "." (format_f quantity 8)
            then rstrip "." (rstrip "0" (format_f quantity 8))
            else format_f quantity 0) = Some q.

(** *** Scripted exchanges *)

Definition position_side_error : PyExc :=
  mkExc (Some (-4059)) "APIError(code=-4059): No need to change position side.".
Definition internal_error : PyExc :=
  mkExc (Some (-1001)) "APIError(code=-1001): Internal error; unable to process your request.".
Definition recv_window_error : PyExc :=
  mkExc (Some 1021) "APIError(code=1021): Timestamp for this request is outside of the recvWindow.".
Definition would_trigger_error : PyExc :=
  mkExc (Some (-2021)) "APIError(code=-2021): Order would immediately trigger.".

(** An exchange that answers every call with the same error. *)
Definition failing (e : PyExc) : exchange := fun _ _ _ => Raises e.

Definition btc_position : Position :=
  {| pos_symbol := "BTCUSDT"; positionAmt := 0.5%float;
     entryPrice := Some 100%float; markPrice := Some 101%float |}.

Definition btc_info (step min : float) (precision : nat) : SymbolInfo :=
  {| info_symbol := "BTCUSDT"; info_status := "TRADING"; pricePrecision := 2;
     quantityPrecision := Some precision;
     filters := [ {| filterType := "PRICE_FILTER"; stepSize := 0; minQty := 0 |};
                  {| filterType := "LOT_SIZE"; stepSize := step; minQty := min |} ] |}.

(** An exchange with one open BTCUSDT position and no open order, where
    the last hourly candle is [candle], the price is [price], and an order
    is answered by [on_order]. *)
Definition btc_exchange (info : SymbolInfo) (price : float) (candle : RawKline)
    (on_order : OrderParams -> outcome Order) : exchange :=
  fun A _ r =>
    match r in request R return outcome R with
    | futures_position_information => Returns [btc_position]
    | futures_exchange_info => Returns [info]
    | futures_symbol_ticker _ => Returns price
    | futures_klines _ _ _ => Returns [candle]
    | futures_get_open_orders _ => Returns []
    | futures_cancel_order _ _ => Returns tt
    | futures_create_order params => on_order params
    | futures_get_order _ order_id =>
        Returns {| orderId := order_id; order_type := "STOP_MARKET"; reduceOnly := false;
                   order_status := "NEW" |}
    end.

Definition accept_order (params : OrderParams) : outcome Order :=
  Returns {| orderId := 7001; order_type := param_type params;
             reduceOnly := param_reduceOnly params; order_status := "NEW" |}.

Definition rising_candle : RawKline :=
  {| raw_open := 100; raw_high := 103; raw_low := 99; raw_close := 102 |}.
Definition flat_candle : RawKline :=
  {| raw_open := 100; raw_high := 101; raw_low := 99; raw_close := 100.5 |}.

(** Lots of a quarter with quantities quoted to one decimal. *)
Definition quarter_lots : exchange :=
  btc_exchange (btc_info 0.25 0.25 1) 1 rising_candle accept_order.

(** Lots of a thousandth, quoted to three decimals, at a price of 64000. *)
Definition milli_lots : exchange :=
  btc_exchange (btc_info 0.001 0.001 3) 64000 rising_candle accept_order.

(** Lots of a quarter with quantities quoted to two decimals. *)
Definition quarter_lots_fine : exchange :=
  btc_exchange (btc_info 0.25 0.25 2) 1 rising_candle accept_order.

(** The stop order is refused. *)
Definition refusing_stops : exchange :=
  btc_exchange (btc_info 0.001 0.001 3) 101 rising_candle (fun _ => Raises would_trigger_error).

(** The last hourly candle gained half a percent. *)
Definition quiet_hour : exchange :=
  btc_exchange (btc_info 0.001 0.001 3) 101 flat_candle accept_order.

End Trader.

(** * binance_take_profit.py *)

Module Monitor.
Import PyNum PyStr Binance.

Local Open Scope string_scope.
Local Open Scope Z_scope.
Local Open Scope py_scope.

(** The attributes of a [TakeProfitMonitor] and the process it runs in. *)
Record state : Type := mkState {
  proc : process;
  check_interval : Z;
  profit_threshold : float;
  take_profit_executed : gset string
}.

(** [TakeProfitMonitor(api_key, api_secret)] with the default interval and
    threshold. *)
Definition init : state :=
  {| proc := new_process; check_interval := 60; profit_threshold := 1.3%float;
     take_profit_executed := ∅ |}.

Definition with_executed (f : gset string -> gset string) (s : state) : state :=
  {| proc := proc s; check_interval := check_interval s;
     profit_threshold := profit_threshold s;
     take_profit_executed := f (take_profit_executed s) |}.

Definition on_process {A} (m : M process A) : M state A :=
  fun s => let '(r, p) := m (proc s) in
           (r, {| proc := p; check_interval := check_interval s;
                  profit_threshold := profit_threshold s;
                  take_profit_executed := take_profit_executed s |}).

Section WithWorld.
Variable T : TimeSync.env.
Variable X : exchange.

(** The [try] block of [safe_request]: check the synced timestamp
    against the local clock, then make the call. *)
Definition try_request {A} (request_func : request A) : M state A :=
  timestamp <- on_process (on_clock (TimeSync.get_synced_timestamp T)) ;;
  current_local_time <- on_process (on_clock (TimeSync.now_ms T)) ;;
  (if 10000 <? Z.abs (timestamp - current_local_time)
   then on_process (on_clock (TimeSync.sync_time T false)) ;;
        on_process (on_clock (TimeSync.get_synced_timestamp T))
   else ret timestamp) ;;
  on_process (call X request_func).

(** The retry loop of this module's [safe_request] with [n] attempts
    left, and the [raise last_exception] after it, which is a [TypeError]
    when nothing was recorded. *)
Fixpoint attempts {A} (n : nat) (request_func : request A) (last_exception : option PyExc)
  : M state A :=
  match n with
  | O => raise (default TypeError last_exception)
  | S n' =>
      try_catch (try_request request_func)
        (fun e =>
           if has_code e 1021 then
             let error_msg := exc_msg e in
             (if contains "ahead" (lower error_msg) then ret tt
              else if contains "behind" (lower error_msg)
                   then on_process (on_clock (TimeSync.sync_time T false)) ;; ret tt
                   else ret tt) ;;
             on_process (sleep 1) ;;
             attempts n' request_func last_exception
           else if contains "Timestamp" (exc_msg e) || contains "time" (lower (exc_msg e))
           then
             on_process (on_clock (TimeSync.sync_time T false)) ;;
             on_process (sleep 1) ;;
             attempts n' request_func last_exception
           else
             on_process (sleep 1) ;;
             attempts n' request_func (Some e))
  end.

(** [safe_request(request_func, ...)] with its [max_retries = 3]. *)
Definition safe_request {A} (request_func : request A) : M state A :=
  attempts 3 request_func None.

(** [get_positions()] *)
Definition get_positions : M state (list Position) :=
  try_catch
    (positions <- safe_request futures_position_information ;;
     ret (List.filter (fun pos => negb (positionAmt pos =? 0)%float) positions))
    (fun _ => ret []).

(** [get_current_price(symbol)] *)
Definition get_current_price (symbol : string) : M state (option float) :=
  try_catch (price <- safe_request (futures_symbol_ticker symbol) ;; ret (Some price))
            (fun _ => ret None).

Definition close_order (symbol side : string) (quantity : float) : OrderParams :=
  {| param_symbol := symbol; param_side := side;
     param_type := FUTURE_ORDER_TYPE_MARKET; param_quantity := Some quantity;
     param_stopPrice := None; param_closePosition := false;
     param_reduceOnly := true |}.

(** [take_profit_half_position(symbol, position)] *)
Definition take_profit_half_position (symbol : string) (position : Position) : M state bool :=
  try_catch
    (let position_amt := positionAmt position in
     entry_price <- of_option (entryPrice position) KeyError ;;
     current_price <- get_current_price symbol ;;
     match current_price with
     | None => ret false
     | Some current_price =>
         let half_quantity := (abs position_amt / 2)%float in
         exchange_info <- safe_request futures_exchange_info ;;
         match lookup_by info_symbol symbol exchange_info with
         | None => ret false
         | Some symbol_info =>
             checked <-
               match lookup_by filterType "LOT_SIZE" (filters symbol_info) with
               | Some lot_size_filter =>
                   let step_size := stepSize lot_size_filter in
                   let min_qty := minQty lot_size_filter in
                   ratio <- py_div half_quantity step_size ;;
                   n <- of_option (py_round ratio) ValueError ;;
                   let half_quantity := (float_of_Z n * step_size)%float in
                   if (half_quantity <? min_qty)%float then ret None
                   else ret (Some half_quantity)
               | None => ret (Some half_quantity)
               end ;;
             match checked with
             | None => ret false
             | Some half_quantity =>
                 let side := if (0 <? position_amt)%float then SIDE_SELL else SIDE_BUY in
                 order <- safe_request
                            (futures_create_order (close_order symbol side half_quantity)) ;;
                 profit_percent <-
                   (if (0 <? position_amt)%float
                    then x <- py_div (current_price - entry_price)%float entry_price ;;
                         ret (x * 100)%float
                    else x <- py_div (entry_price - current_price)%float entry_price ;;
                         ret (x * 100)%float) ;;
                 modify (with_executed (fun done => done ∪ {[symbol]})) ;;
                 ret true
             end
         end
     end)
    (fun _ => ret false).

(** The [for position in positions] loop of
    [check_and_execute_take_profit]. *)
Fixpoint check_each (positions : list Position) : M state unit :=
  match positions with
  | [] => ret tt
  | position :: rest =>
      let symbol := pos_symbol position in
      let position_amt := positionAmt position in
      entry_price <- of_option (entryPrice position) KeyError ;;
      s <- get_state ;;
      (if bool_decide (symbol ∈ take_profit_executed s) then ret tt
       else
         current_price <- get_current_price symbol ;;
         match current_price with
         | None => ret tt
         | Some current_price =>
             price_ratio <-
               (if (0 <? position_amt)%float then py_div current_price entry_price
                else py_div entry_price current_price) ;;
             if (profit_threshold s <=? price_ratio)%float
             then _ <- take_profit_half_position symbol position ;; ret tt
             else ret tt
         end) ;;
      check_each rest
  end.

(** [check_and_execute_take_profit()] *)
Definition check_and_execute_take_profit : M state unit :=
  try_catch
    (positions <- get_positions ;;
     match positions with
     | [] => ret tt
     | _ =>
         let current_position_symbols : gset string :=
           list_to_set (List.map pos_symbol positions) in
         modify (with_executed (fun done => filter (fun symbol => symbol ∈ current_position_symbols) done)) ;;
         check_each positions
     end)
    (fun _ => ret tt).

End WithWorld.

(** The side that closes a position: sell a long, buy back a short. *)
Definition closing_side (position : Position) : string :=
  if (0 <? positionAmt position)%float then SIDE_SELL else SIDE_BUY.

(** *** The half-close size as the specification words it *)

(** [math.floor(x)] *)
Definition py_floor (x : float) : option Z :=
  match float_val x with
  | Some (m, e) => Some (if 0 <=? e then m * 2 ^ e else m / 2 ^ (- e))
  | None => None
  end.

(** "half the position, rounded down to the nearest lot step" *)
Definition spec_half_quantity (position_amt step : float) : option float :=
  match py_floor (abs position_amt / 2 / step)%float with
  | Some n => Some (float_of_Z n * step)%float
  | None => None
  end.

(** Every order the half-close submits has the size the specification
    names. *)
Definition claimed_half_close (T : TimeSync.env) (X : exchange)
    (symbol : string) (position : Position) (step : float) (s : state) : Prop :=
  forall r s' params,
    take_profit_half_position T X symbol position s = (r, s') ->
    params ∈ submitted (proc s') ->
    param_quantity params = spec_half_quantity (positionAmt position) step.

(** *** Predicates on runs *)

(** The monitor's own attributes are the same in both states. *)
Definition same_monitor (s s' : state) : Prop :=
  take_profit_executed s' = take_profit_executed s /\
  profit_threshold s' = profit_threshold s /\
  check_interval s' = check_interval s.

(** Nothing was submitted between the two states. *)
Definition quiet (s s' : state) : Prop :=
  same_monitor s s' /\ submitted (proc s') = submitted (proc s).

(** Only copies of [params] were submitted between the two states. *)
Definition submits (params : list OrderParams) (s s' : state) : Prop :=
  same_monitor s s' /\
  exists k, submitted (proc s') = (submitted (proc s) ++ concat (replicate k params))%list.

(** The size the half-close arrives at for a position of which [half] is
    half the absolute amount: adjusted to the LOT_SIZE filter when the
    instrument has one, and then not below its minimum quantity. *)
Definition sized (half : float) (lot : option Filter) (q : float) : Prop :=
  match lot with
  | None => q = half
  | Some f =>
      exists n, py_round (half / stepSize f)%float = Some n /\
                q = (float_of_Z n * stepSize f)%float /\
                (q <? minQty f)%float = false
  end.

(** What a run of [take_profit_half_position] has done when it ends
    having got as far as submitting the order. *)
Definition ordered (X : exchange) (symbol : string) (position : Position)
    (s s' : state) (j : nat) : Prop :=
  exists infos symbol_info q k,
    X (list SymbolInfo) k futures_exchange_info = Returns infos /\
    lookup_by info_symbol symbol infos = Some symbol_info /\
    sized (abs (positionAmt position) / 2)%float
          (lookup_by filterType "LOT_SIZE" (filters symbol_info)) q /\
    submitted (proc s') =
      (submitted (proc s) ++ replicate j (close_order symbol (closing_side position) q))%list.

(** Between the two states no order was submitted for [symbol], and the
    symbol did not leave the memo. *)
Definition no_order_for (symbol : string) (s s' : state) : Prop :=
  (symbol ∈ take_profit_executed s -> symbol ∈ take_profit_executed s') /\
  exists new, submitted (proc s') = (submitted (proc s) ++ new)%list /\
              Forall (fun params => param_symbol params <> symbol) new.

(** What a completed [take_profit_half_position] has done.  Either it
    returned False having submitted nothing and left the memo alone; or it
    read the instrument's filters, arrived at the size [q] ([sized]: half
    the absolute amount, adjusted to the nearest multiple of the step size,
    ties to the even multiple, and not below the minimum quantity), and
    every order it submitted is the reduce-only market order [close_order]
    for [q] on the closing side; when it returned True there is at least
    one such order and the symbol is in the memo.  And when the exchange's
    filter puts the adjusted size below the minimum quantity, it returned
    False and submitted nothing. *)
Definition half_close_report (X : exchange) (symbol : string) (position : Position)
    (s : state) (r : outcome bool) (s' : state) : Prop :=
  exists b, r = Returns b /\
    ((b = false /\ submitted (proc s') = submitted (proc s) /\
      take_profit_executed s' = take_profit_executed s) \/
     (exists infos symbol_info q k j,
        X (list SymbolInfo) k futures_exchange_info = Returns infos /\
        lookup_by info_symbol symbol infos = Some symbol_info /\
        sized (abs (positionAmt position) / 2)%float
              (lookup_by filterType "LOT_SIZE" (filters symbol_info)) q /\
        submitted (proc s') =
          (submitted (proc s) ++ replicate j (close_order symbol (closing_side position) q))%list /\
        param_type (close_order symbol (closing_side position) q) = FUTURE_ORDER_TYPE_MARKET /\
        param_reduceOnly (close_order symbol (closing_side position) q) = true /\
        (b = true -> (1 <= j)%nat /\ symbol ∈ take_profit_executed s'))) /\
    (forall infos symbol_info f n,
       (forall k, X (list SymbolInfo) k futures_exchange_info = Returns infos) ->
       lookup_by info_symbol symbol infos = Some symbol_info ->
       lookup_by filterType "LOT_SIZE" (filters symbol_info) = Some f ->
       py_round (abs (positionAmt position) / 2 / stepSize f)%float = Some n ->
       (float_of_Z n * stepSize f <? minQty f)%float = true ->
       b = false /\ submitted (proc s') = submitted (proc s)).

(** *** Scripted exchanges *)

Definition long_position (amount : float) : Position :=
  {| pos_symbol := "BTCUSDT"; positionAmt := amount;
     entryPrice := Some 100%float; markPrice := Some 200%float |}.

Definition lot_info (step min : float) : SymbolInfo :=
  {| info_symbol := "BTCUSDT"; info_status := "TRADING"; pricePrecision := 2;
     quantityPrecision := Some 3%nat;
     filters := [ {| filterType := "LOT_SIZE"; stepSize := step; minQty := min |} ] |}.

Definition filled (params : OrderParams) : Order :=
  {| orderId := 9001; order_type := param_type params;
     reduceOnly := param_reduceOnly params; order_status := "FILLED" |}.

(** An exchange that quotes BTCUSDT at 200 with the given lot size and
    fills every order; [positions k] is the position list at call [k]. *)
Definition market (positions : nat -> list Position) (step min : float) : exchange :=
  fun A k r =>
    match r in request R return outcome R with
    | futures_position_information => Returns (positions k)
    | futures_exchange_info => Returns [lot_info step min]
    | futures_symbol_ticker _ => Returns 200%float
    | futures_klines _ _ _ => Returns []
    | futures_get_open_orders _ => Returns []
    | futures_cancel_order _ _ => Returns tt
    | futures_create_order params => Returns (filled params)
    | futures_get_order _ order_id =>
        Returns {| orderId := order_id; order_type := "MARKET"; reduceOnly := true;
                   order_status := "FILLED" |}
    end.

(** Whole lots, a position of 3.5. *)
Definition whole_lots : exchange := market (fun _ => [long_position 3.5]) 1 1.

(** Lots of a thousandth; the position is too small to halve. *)
Definition dust : exchange := market (fun _ => [long_position 0.0004]) 0.001 0.001.

(** The first listing shows no position at all; afterwards a new long
    BTCUSDT position is open, at twice its entry price. *)
Definition reopened : exchange :=
  market (fun k => match k with O => [] | _ => [long_position 0.5] end) 0.001 0.001.

(** A well-behaved clock: one millisecond per reading, the time endpoints
    answering at once. *)
Definition steady : TimeSync.env :=
  {| TimeSync.time_time := fun k =>
       (1762250000 + of_uint63 (Uint63.of_Z (Z.of_nat k)) / 1024)%float;
     TimeSync.requests_get := fun _ _ => TimeSync.Body (Some 1762250000000) |}.

(** A monitor that has already taken profit on BTCUSDT. *)
Definition after_take_profit : state :=
  {| proc := new_process; check_interval := 60; profit_threshold := 1.3%float;
     take_profit_executed := {[ "BTCUSDT" ]} |}.

End Monitor.

(** * time_sync_config.py: the remaining accessors *)

Module TimeSyncMore.
Import PyNum TimeSync.

Local Open Scope string_scope.
Local Open Scope Z_scope.
Local Open Scope py_scope.

Section WithEnv.
Variable E : env.

(** [get_synced_timestamp_without_correction()] *)
Definition get_synced_timestamp_without_correction : M state Z :=
  s <- get_state ;;
  (if negb (is_synced (self s)) then _ <- sync_time E false ;; ret tt else ret tt) ;;
  current_local_time <- now_ms E ;;
  s <- get_state ;;
  let time_since_last_sync := current_local_time - last_local_time (self s) in
  ret (last_server_time (self s) + time_since_last_sync).

(** [force_sync()] *)
Definition force_sync : M state (option bool) := sync_time E true.

End WithEnv.

(** *** Predicates on runs *)

(** The values a synchronisation stores are the same in both objects. *)
Definition untouched (m m' : TimeSyncManager) : Prop :=
  time_offset m' = time_offset m /\
  last_server_time m' = last_server_time m /\
  last_local_time m' = last_local_time m /\
  last_sync_time m' = last_sync_time m.

(** The three settings no method assigns after [__init__]. *)
Definition same_settings (m m' : TimeSyncManager) : Prop :=
  sync_interval m' = sync_interval m /\
  max_allowed_offset m' = max_allowed_offset m /\
  min_sync_interval m' = min_sync_interval m.

(** The call consumed one clock reading and sent no request. *)
Definition one_reading (s s' : state) : Prop :=
  self s' = self s /\ ticks s' = S (ticks s) /\ gets s' = gets s /\
  queried s' = queried s /\ samples s' = samples s.

(** The last synchronisation is recent enough for [get_synced_timestamp]
    not to repeat it at the reading [now]. *)
Definition recent (m : TimeSyncManager) (now : Z) : Prop :=
  now - last_local_time m <= sync_interval m * 1000.

(** *** Scripted environments *)

(** The first endpoint answers with a server time after 625 ms, the second
    answers after 875 ms with a body that has no [serverTime]; the others
    fail. *)
Definition env_keyless : env :=
  {| time_time := clock [1762250000; 1762250000; 1762250000.625; 1762250000.625]%float
                        1762250001.5%float;
     requests_get := fun k _ =>
       match k with
       | 0%nat => Body (Some 1762250000400)
       | 1%nat => Body None
       | _ => HttpError
       end |}.

(** The state [env_slow] leaves after one synchronisation of a new manager. *)
Definition after_slow_sync : state := snd (sync_time env_slow false fresh).

(** A clock that never moves, with nothing reachable: ten seconds after
    [synced_state] synchronised. *)
Definition env_still : env :=
  {| time_time := fun _ => 1762250010%float;
     requests_get := fun _ _ => HttpError |}.

End TimeSyncMore.

(** * binance_main.py: the position checks *)

Module TraderMore.
Import PyNum PyStr Binance Trader.

Local Open Scope string_scope.
Local Open Scope Z_scope.
Local Open Scope py_scope.

Section WithWorld.
Variable T : TimeSync.env.
Variable X : exchange.

(** [validate_symbol(symbol)] *)
Definition validate_symbol (symbol : string) : M state bool :=
  try_catch
    (info <- safe_request T X futures_exchange_info ;;
     ret (existsb (fun s => String.eqb (info_symbol s) symbol &&
                            String.eqb (info_status s) "TRADING") info))
    (fun _ => ret false).

(** [get_positions()]: the long positions only. *)
Definition get_positions : M state (list Position) :=
  try_catch
    (positions <- safe_request T X futures_position_information ;;
     ret (List.filter (fun pos => (0 <? positionAmt pos)%float) positions))
    (fun _ => ret []).

(** [handle_existing_position(symbol)] *)
Definition handle_existing_position (symbol : string) : M state bool :=
  position <- get_position T X symbol ;;
  match position with
  | None => ret true
  | Some position =>
      if (positionAmt position =? 0)%float then ret true
      else if (0 <? positionAmt position)%float then ret false
      else ret false
  end.

(** The [for symbol in list(self.order_relations.keys())] loop of
    [check_order_execution], over the listed keys. *)
Fixpoint settle_each (position_symbols symbols : list string) : M state unit :=
  match symbols with
  | [] => ret tt
  | symbol :: rest =>
      (if negb (bool_decide (symbol ∈ position_symbols))
       then cancel_associated_orders T X symbol
       else ret tt) ;;
      settle_each position_symbols rest
  end.

(** [check_order_execution()].  A Python dictionary lists its keys in the
    order of their insertion, which the map does not record: [keys] stands
    for [list(self.order_relations.keys())]. *)
Definition check_order_execution
    (keys : gmap string (gmap string Z) -> list string) : M state unit :=
  try_catch
    (positions <- get_positions ;;
     let position_symbols := List.map pos_symbol positions in
     s <- get_state ;;
     settle_each position_symbols (keys (order_relations s)))
    (fun _ => ret tt).

End WithWorld.

(** *** Predicates on runs *)

(** The records of the symbols other than [symbol] are the same. *)
Definition elsewhere (symbol : string) (s s' : state) : Prop :=
  forall other, other <> symbol -> order_relations s' !! other = order_relations s !! other.

(** No order was submitted. *)
Definition placed_nothing (s s' : state) : Prop :=
  submitted (proc s') = submitted (proc s).

(** Neither the attributes nor the orders submitted have changed. *)
Definition idle (s s' : state) : Prop := same_attrs s s' /\ placed_nothing s s'.

(** [keys] lists every key of the dictionary. *)
Definition lists_keys (keys : gmap string (gmap string Z) -> list string) : Prop :=
  forall relations symbol, is_Some (relations !! symbol) -> symbol ∈ keys relations.

(** The exchange never answers the request. *)
Definition never_answers {A} (X : exchange) (request_func : request A) : Prop :=
  forall k, exists e, X A k request_func = Raises e.

(** The long positions among those listed. *)
Definition longs (listing : list Position) : list Position :=
  List.filter (fun pos => (0 <? positionAmt pos)%float) listing.

(** *** Scripted exchanges *)

(** The first [n] calls fail with [e]; from then on [X] answers. *)
Definition flaky (n : nat) (e : PyExc) (X : exchange) : exchange :=
  fun A k r => if (k <? n)%nat then Raises e else X A k r.

Definition unknown_order_error : PyExc :=
  mkExc (Some (-2011)) "APIError(code=-2011): Unknown order sent.".

Definition resting_stop : Order :=
  {| orderId := 7001; order_type := "STOP_MARKET"; reduceOnly := false;
     order_status := "NEW" |}.

(** A resting stop order is listed, and no cancellation gets through. *)
Definition stuck_stop : exchange :=
  fun A _ r =>
    match r in request R return outcome R with
    | futures_get_open_orders _ => Returns [resting_stop]
    | futures_cancel_order _ _ => Raises unknown_order_error
    | futures_position_information => Raises internal_error
    | futures_exchange_info => Raises internal_error
    | futures_symbol_ticker _ => Raises internal_error
    | futures_klines _ _ _ => Raises internal_error
    | futures_create_order _ => Raises internal_error
    | futures_get_order _ _ => Raises internal_error
    end.

(** A trader that tracks the stop order 7001 for BTCUSDT and the stop
    order 7002 for ETHUSDT. *)
Definition tracking : state :=
  with_relations (track_stop_loss "ETHUSDT" 7002)
    (with_relations (track_stop_loss "BTCUSDT" 7001) init).

(** The keys of the dictionary in the order the map enumerates them. *)
Definition sorted_keys (relations : gmap string (gmap string Z)) : list string :=
  List.map fst (map_to_list relations).

(** The price is quoted as zero. *)
Definition zero_price : exchange :=
  btc_exchange (btc_info 0.001 0.001 3) 0 rising_candle accept_order.

End TraderMore.

(** * binance_take_profit.py: the monitoring loop *)

Module MonitorMore.
Import PyNum PyStr Binance Monitor.

Local Open Scope string_scope.
Local Open Scope Z_scope.
Local Open Scope py_scope.

Section WithWorld.
Variable T : TimeSync.env.
Variable X : exchange.

(** [for _ in range(self.check_interval): time.sleep(1)], the monitor
    still running. *)
Fixpoint sleeps (k : nat) : M state unit :=
  match k with
  | O => ret tt
  | S k' => on_process (sleep 1) ;; sleeps k'
  end.

(** The first [n] rounds of the [while self.running] loop of [start],
    [stop()] not being called meanwhile. *)
Fixpoint rounds (n : nat) : M state unit :=
  match n with
  | O => ret tt
  | S n' =>
      check_and_execute_take_profit T X ;;
      s <- get_state ;;
      sleeps (Z.to_nat (check_interval s)) ;;
      rounds n'
  end.

(** The symbol has a position in the listing of each of the next [n]
    rounds. *)
Fixpoint listed_throughout (symbol : string) (n : nat) (s : state) : Prop :=
  match n with
  | O => True
  | S n' =>
      (exists positions, fst (get_positions T X s) = Returns positions /\
                         symbol ∈ List.map pos_symbol positions) /\
      listed_throughout symbol n' (snd (rounds 1 s))
  end.

End WithWorld.

(** *** Predicates on runs *)

(** Nothing was submitted and no call was made between the two states. *)
Definition still (s s' : state) : Prop :=
  quiet s s' /\ calls (proc s') = calls (proc s).

(** Exactly [k] calls were made between the two states, each of them
    submitting [params]. *)
Definition called (params : list OrderParams) (k : nat) (s s' : state) : Prop :=
  same_monitor s s' /\ calls (proc s') = (calls (proc s) + k)%nat /\
  submitted (proc s') = (submitted (proc s) ++ concat (replicate k params))%list.

(** The errors the retry loop takes for clock trouble and never records:
    code 1021, or a message that mentions the time. *)
Definition timing (e : PyExc) : Prop :=
  has_code e 1021 = true \/
  contains "Timestamp" (exc_msg e) || contains "time" (lower (exc_msg e)) = true.

(** Every reading of the clock is a finite number. *)
Definition finite_clock (T : TimeSync.env) : Prop :=
  forall k, is_Some (TimeSync.reading T k).

(** The order closes part of one of the listed positions: a reduce-only
    market order on the closing side. *)
Definition closes (positions : list Position) (params : OrderParams) : Prop :=
  exists position q,
    position ∈ positions /\
    params = close_order (pos_symbol position) (closing_side position) q.

(** Every order submitted between the two states satisfies [P]. *)
Definition only (P : OrderParams -> Prop) (s s' : state) : Prop :=
  exists new, submitted (proc s') = (submitted (proc s) ++ new)%list /\ Forall P new.

(** *** Scripted exchanges *)

Definition timeout_error : PyExc :=
  mkExc None "HTTPSConnectionPool(host='fapi.binance.com', port=443): Read timed out.".

(** Every request times out. *)
Definition timing_out : exchange := fun _ _ _ => Raises timeout_error.

End MonitorMore.

(** * binance_main.py: symbol selection, account and entry orders *)

Module TraderApi.
Import PyNum PyStr Binance Trader TraderMore.

Local Open Scope string_scope.
Local Open Scope Z_scope.
Local Open Scope py_scope.

(** One element of [futures_ticker_24hr()].  The two numbers are what
    [float(ticker.get(key, 0))] gives; [None] stands for a value on which
    [float] raises ValueError or TypeError. *)
Record Ticker : Type := mkTicker {
  ticker_symbol : string;
  priceChangePercent : option float;
  quoteVolume : option float
}.

(** One element of [futures_account_balance()]; [None] stands for a
    balance on which [float] raises. *)
Record Asset : Type := mkAsset {
  asset : string;
  balance : option float
}.

(** The methods of the client this part of the trader calls, besides
    those of [request]. *)
Inductive request2 : Type -> Type :=
| legacy {A : Type} (r : request A) : request2 A
| futures_ticker_24hr : request2 (list Ticker)
| futures_get_position_mode : request2 bool
| futures_change_position_mode (dualSidePosition : bool) : request2 unit
| futures_account_balance : request2 (list Asset)
| futures_change_leverage (symbol : string) (leverage : Z) : request2 unit.

Definition order_params2 {A} (r : request2 A) : list OrderParams :=
  match r with
  | legacy r => order_params r
  | _ => []
  end.

(** The whole client: what its [k]-th call leads to. *)
Definition client : Type := forall A, nat -> request2 A -> outcome A.

(** The client seen through the methods of [request] alone. *)
Definition exchange_of (C : client) : exchange := fun A k r => C A k (legacy r).

(** The trader with the attributes the methods below use besides those of
    [Trader.state]: the monitored symbols and the leverage from
    [config.py]. *)
Record trader : Type := mkTrader {
  core : state;
  symbols : list string;
  long_leverage : Z
}.

Definition on_core {A} (m : M state A) : M trader A :=
  fun t => let '(r, s) := m (core t) in
           (r, {| core := s; symbols := symbols t; long_leverage := long_leverage t |}).

Definition with_symbols (new_symbols : list string) (t : trader) : trader :=
  {| core := core t; symbols := new_symbols; long_leverage := long_leverage t |}.

(** An element of [qualified_symbols]. *)
Record Qualified : Type := mkQualified {
  q_symbol : string;
  q_change : float;
  q_volume : float
}.

(** [s.endswith(suffix)] *)
Definition endswith (suffix s : string) : bool :=
  let n := String.length s in
  let m := String.length suffix in
  (m <=? n)%nat && String.eqb (String.substring (n - m) m s) suffix.

(** [qualified_symbols.sort(key=lambda x: x['price_change_percent'],
    reverse=True)].  The sort is stable: of the arrangements in descending
    order of the key it gives the one that keeps items of equal key in
    their original order, which is what inserting each item, from the last
    to the first, in front of the first item that is not above it gives. *)
Fixpoint insert_desc (x : Qualified) (sorted : list Qualified) : list Qualified :=
  match sorted with
  | [] => [x]
  | y :: rest =>
      if (q_change x <? q_change y)%float then y :: insert_desc x rest
      else x :: y :: rest
  end.

Definition sort_desc (items : list Qualified) : list Qualified :=
  List.fold_right insert_desc [] items.

Section WithClient.
Variable T : TimeSync.env.
Variable C : client.

(** The call of a method of the client on its arguments. *)
Definition call_client {A} (r : request2 A) : M process A :=
  fun p => (C A (calls p) r,
            {| clock := clock p; calls := S (calls p); slept := slept p;
               submitted := submitted p ++ order_params2 r |}).

(** The retry loop of [safe_request] around any call. *)
Fixpoint attempts_of {A} (n : nat) (request_call : M state A) (last_exception : option PyExc)
  : M state A :=
  match n with
  | O => raise (default unknown_request_error last_exception)
  | S n' =>
      try_catch request_call
        (fun e =>
           if has_code e (-4059) then raise e
           else if has_code e 1021 then
             on_process (on_clock (TimeSync.sync_time T false)) ;;
             s <- get_state ;;
             on_process (sleep (retry_delay s)) ;;
             attempts_of n' request_call last_exception
           else
             s <- get_state ;;
             on_process (sleep (retry_delay s)) ;;
             attempts_of n' request_call (Some e))
  end.

(** [safe_request(request_func, ...)] for a method of the whole client. *)
Definition safe_request_of {A} (request_func : request2 A) : M state A :=
  s <- get_state ;;
  attempts_of (Z.to_nat (max_retries s)) (on_process (call_client request_func)) None.

(** The [for ticker in tickers] loop of [get_qualified_symbols]. *)
Fixpoint collect (tickers : list Ticker) (qualified_symbols : list Qualified)
  : M state (list Qualified) :=
  match tickers with
  | [] => ret qualified_symbols
  | ticker :: rest =>
      let symbol := ticker_symbol ticker in
      if negb (endswith "USDT" symbol) then collect rest qualified_symbols
      else
        match priceChangePercent ticker, quoteVolume ticker with
        | Some price_change_percent, Some quote_volume =>
            if (10 <=? price_change_percent)%float && (100000000 <? quote_volume)%float
            then
              valid <- validate_symbol T (exchange_of C) symbol ;;
              if valid
              then collect rest
                     (qualified_symbols ++
                      [ {| q_symbol := symbol; q_change := price_change_percent;
                           q_volume := quote_volume |} ])
              else collect rest qualified_symbols
            else collect rest qualified_symbols
        | _, _ => collect rest qualified_symbols
        end
  end.

(** [get_qualified_symbols()] *)
Definition get_qualified_symbols : M state (list string) :=
  try_catch
    (tickers <- safe_request_of futures_ticker_24hr ;;
     qualified_symbols <- collect tickers [] ;;
     match qualified_symbols with
     | [] => ret []
     | _ => ret (List.map q_symbol (sort_desc qualified_symbols))
     end)
    (fun _ => ret []).

(** [update_symbols()] *)
Definition update_symbols : M trader unit :=
  try_catch
    (new_symbols <- on_core get_qualified_symbols ;;
     match new_symbols with
     | [] => ret tt
     | _ => modify (with_symbols new_symbols)
     end)
    (fun _ => ret tt).

(** [refresh_symbol_list()] *)
Definition refresh_symbol_list : M trader unit :=
  new_symbols <- on_core get_qualified_symbols ;;
  modify (with_symbols new_symbols).

(** [setup_account()] *)
Definition setup_account : M state unit :=
  try_catch
    (dualSidePosition <- safe_request_of futures_get_position_mode ;;
     if negb dualSidePosition then ret tt
     else
       try_catch (safe_request_of (futures_change_position_mode false))
                 (fun _ => ret tt))
    (fun _ => ret tt).

(** [get_account_balance()] *)
Fixpoint first_usdt (assets : list Asset) : M state float :=
  match assets with
  | [] => ret 0%float
  | a :: rest =>
      if String.eqb (asset a) "USDT" then of_option (balance a) ValueError
      else first_usdt rest
  end.

Definition get_account_balance : M state float :=
  try_catch (assets <- safe_request_of futures_account_balance ;; first_usdt assets)
            (fun _ => ret 0%float).

(** [adjust_leverage(symbol)] *)
Definition adjust_leverage (symbol : string) : M trader bool :=
  t <- get_state ;;
  let leverage := long_leverage t in
  try_catch
    (on_core (safe_request_of (futures_change_leverage symbol leverage)) ;; ret true)
    (fun _ => ret false).

Definition market_order (symbol side : string) (quantity : float) : OrderParams :=
  {| param_symbol := symbol; param_side := side;
     param_type := FUTURE_ORDER_TYPE_MARKET; param_quantity := Some quantity;
     param_stopPrice := None; param_closePosition := false;
     param_reduceOnly := false |}.

(** [place_order(symbol, side, quantity)] *)
Definition place_order (symbol side : string) (quantity : float) : M trader (option Order) :=
  adjusted <- adjust_leverage symbol ;;
  if negb adjusted then ret None
  else
    try_catch
      (order <- on_core (safe_request_of
                           (legacy (futures_create_order (market_order symbol side quantity)))) ;;
       ret (Some order))
      (fun _ => ret None).

End WithClient.

(** *** Predicates on runs *)

(** No item is directly followed by one of a larger change. *)
Fixpoint descending (items : list Qualified) : Prop :=
  match items with
  | a :: rest =>
      match rest with
      | b :: _ => (q_change a <? q_change b)%float = false
      | [] => True
      end /\ descending rest
  | [] => True
  end.

(** The client never answers the request. *)
Definition unanswered {A} (C : client) (request_func : request2 A) : Prop :=
  forall k, exists e, C A k request_func = Raises e.

(** The ticker passes the filter of [get_qualified_symbols]: a USDT pair
    that gained ten percent or more on a quote volume above a hundred
    million. *)
Definition qualifies (ticker : Ticker) : Prop :=
  endswith "USDT" (ticker_symbol ticker) = true /\
  exists price_change_percent quote_volume,
    priceChangePercent ticker = Some price_change_percent /\
    quoteVolume ticker = Some quote_volume /\
    (10 <=? price_change_percent)%float = true /\
    (100000000 <? quote_volume)%float = true.

(** The exchange information lists the symbol as trading. *)
Definition trading (C : client) (symbol : string) : Prop :=
  exists k infos info,
    C _ k (legacy futures_exchange_info) = Returns infos /\ info ∈ infos /\
    info_symbol info = symbol /\ info_status info = "TRADING".

(** Only copies of [params] were submitted, and the attributes of the
    trader are as they were. *)
Definition sent (params : list OrderParams) (s s' : state) : Prop :=
  same_attrs s s' /\
  exists k, submitted (proc s') = (submitted (proc s) ++ concat (replicate k params))%list.

(** The list and the leverage are as they were. *)
Definition same_list (t t' : trader) : Prop :=
  symbols t' = symbols t /\ long_leverage t' = long_leverage t.

(** *** Scripted clients *)

Definition teller_assets : list Asset :=
  [ {| asset := "BNB"; balance := Some 1.5%float |};
    {| asset := "USDT"; balance := Some 250.5%float |};
    {| asset := "USDT"; balance := Some 7%float |} ].

(** A client that answers the balance request with [teller_assets] and
    fails every other call. *)
Definition teller : client :=
  fun A k r =>
    match r in request2 A return outcome A with
    | futures_account_balance => Returns teller_assets
    | _ => Raises internal_error
    end.

End TraderApi.

(** * Reasoning about computations *)

Section MonadFacts.
Context {S A B : Type}.

Lemma bind_inv (m : M S A) (f : A -> M S B) s r s' :
  bind m f s = (r, s') ->
  (exists a s1, m s = (Returns a, s1) /\ f a s1 = (r, s')) \/
  (exists e, m s = (Raises e, s') /\ r = Raises e).
Proof.
  unfold bind. destruct (m s) as [[a|e] s1]; intros H.
  - left. eauto.
  - right. inversion H; subst. eauto.
Qed.

Lemma try_catch_inv (m : M S A) (h : PyExc -> M S A) s r s' :
  try_catch m h s = (r, s') ->
  (exists a, m s = (Returns a, s') /\ r = Returns a) \/
  (exists e s1, m s = (Raises e, s1) /\ h e s1 = (r, s')).
Proof.
  unfold try_catch. destruct (m s) as [[a|e] s1]; intros H.
  - left. inversion H; subst. eauto.
  - right. eauto.
Qed.

Lemma bind_returns (m : M S A) (f : A -> M S B) s a s1 :
  m s = (Returns a, s1) -> bind m f s = f a s1.
Proof. unfold bind. now intros ->. Qed.

Lemma bind_raises (m : M S A) (f : A -> M S B) s e s1 :
  m s = (Raises e, s1) -> bind m f s = (Raises e, s1).
Proof. unfold bind. now intros ->. Qed.

Lemma bind_returns_inv (m : M S A) (f : A -> M S B) s b s' :
  bind m f s = (Returns b, s') ->
  exists a s1, m s = (Returns a, s1) /\ f a s1 = (Returns b, s').
Proof.
  intros H. apply bind_inv in H as [H | (e & _ & H)]; [assumption | discriminate].
Qed.

End MonadFacts.

Lemma ret_inv {S A} (a : A) (s : S) r s' :
  ret a s = (r, s') -> r = Returns a /\ s' = s.
Proof. unfold ret. intros H; inversion H; auto. Qed.

Lemma raise_inv {S A} (e : PyExc) (s : S) (r : outcome A) s' :
  raise e s = (r, s') -> r = Raises e /\ s' = s.
Proof. unfold raise. intros H; inversion H; auto. Qed.

Lemma of_option_inv {S A} (o : option A) e (s : S) r s' :
  of_option o e s = (r, s') ->
  s' = s /\ ((exists a, o = Some a /\ r = Returns a) \/ (o = None /\ r = Raises e)).
Proof.
  destruct o; cbn; intros H; inversion H; subst; split; eauto.
Qed.

Section Preserves.
Context {S : Type} (R : S -> S -> Prop).
Hypothesis R_refl : forall s, R s s.
Hypothesis R_trans : forall s1 s2 s3, R s1 s2 -> R s2 s3 -> R s1 s3.

Lemma preserves_ret {A} (a : A) : preserves R (ret a).
Proof. intros s r s' H. apply ret_inv in H as [_ ->]. apply R_refl. Qed.

Lemma preserves_raise {A} e : preserves R (@raise S A e).
Proof. intros s r s' H. apply raise_inv in H as [_ ->]. apply R_refl. Qed.

Lemma preserves_of_option {A} (o : option A) e : preserves R (of_option o e).
Proof. destruct o; [apply preserves_ret | apply preserves_raise]. Qed.

Lemma preserves_py_div a b : preserves R (py_div a b).
Proof. unfold py_div. destruct (_ =? _)%float; [apply preserves_raise | apply preserves_ret]. Qed.

Lemma preserves_get_state : preserves R get_state.
Proof. intros s r s' H. inversion H; subst. apply R_refl. Qed.

Lemma preserves_bind {A B} (m : M S A) (f : A -> M S B) :
  preserves R m -> (forall a, preserves R (f a)) -> preserves R (bind m f).
Proof.
  intros Hm Hf s r s' H.
  apply bind_inv in H as [(a & s1 & H1 & H2) | (e & H1 & _)].
  - eapply R_trans; [eapply Hm | eapply Hf]; eassumption.
  - eapply Hm; eassumption.
Qed.

Lemma preserves_try_catch {A} (m : M S A) (h : PyExc -> M S A) :
  preserves R m -> (forall e, preserves R (h e)) -> preserves R (try_catch m h).
Proof.
  intros Hm Hh s r s' H.
  apply try_catch_inv in H as [(a & H1 & _) | (e & s1 & H1 & H2)].
  - eapply Hm; eassumption.
  - eapply R_trans; [eapply Hm | eapply Hh]; eassumption.
Qed.

End Preserves.

(** [try: x = m  except: x = None] never raises. *)
Lemma attempt_inv {S A} (m : M S A) (s : S) r s' :
  try_catch (bind m (fun x => ret (Some x))) (fun _ => ret None) s = (r, s') ->
  (exists a, m s = (Returns a, s') /\ r = Returns (Some a)) \/
  (exists e, m s = (Raises e, s') /\ r = Returns None).
Proof.
  unfold try_catch, bind, ret. destruct (m s) as [[a|e] s1]; intros H;
    inversion H; subst; eauto.
Qed.

Lemma py_div_inv {S} (a b : float) (s : S) r s' :
  py_div a b s = (Returns r, s') -> r = (a / b)%float /\ s' = s.
Proof.
  unfold py_div. destruct (b =? 0)%float; intros H.
  - apply raise_inv in H as [H _]. discriminate.
  - apply ret_inv in H as [H ->]. injection H as <-. auto.
Qed.

Lemma of_option_returns_inv {S A} (o : option A) e (s : S) a s' :
  of_option o e s = (Returns a, s') -> o = Some a /\ s' = s.
Proof.
  intros H. apply of_option_inv in H as [-> [(a' & -> & H) | [_ H]]];
    [injection H as <-; auto | discriminate].
Qed.

Lemma bind_get_state {S B} (f : S -> M S B) (s : S) :
  bind get_state f s = f s s.
Proof. reflexivity. Qed.

(** Clear away the steps that cannot fail. *)
Ltac msimpl :=
  repeat match goal with
  | H : bind get_state _ _ = _ |- _ => rewrite bind_get_state in H
  | H : get_state _ = (_, _) |- _ => inversion H; subst; clear H
  | H : ret _ _ = (_, _) |- _ => apply ret_inv in H as [? ?]; subst
  | H : raise _ _ = (_, _) |- _ => apply raise_inv in H as [? ?]; subst
  | H : modify _ _ = (_, _) |- _ => inversion H; subst; clear H
  | H : Returns _ = Returns _ |- _ => inversion H; subst; clear H
  | H : Returns _ = Raises _ |- _ => discriminate H
  | H : Raises _ = Returns _ |- _ => discriminate H
  end.

(** Take a hypothesis about a computation apart, one monadic step at a time. *)
Ltac minv H :=
  lazymatch type of H with
  | bind _ _ _ = _ =>
      let a := fresh "a" in let s1 := fresh "s" in
      let e := fresh "e" in let H1 := fresh "Hm" in let H2 := fresh "Hk" in
      apply bind_inv in H as [(a & s1 & H1 & H2) | (e & H1 & H2)]
  | try_catch _ _ _ = _ =>
      let a := fresh "a" in let s1 := fresh "s" in
      let e := fresh "e" in let H1 := fresh "Hm" in let H2 := fresh "Hh" in
      apply try_catch_inv in H as [(a & H1 & H2) | (e & s1 & H1 & H2)]
  | ret _ _ = _ => apply ret_inv in H as [? ?]
  | raise _ _ = _ => apply raise_inv in H as [? ?]
  | get_state _ = _ => inversion H; clear H
  | modify _ _ = _ => inversion H; clear H
  end.

(** * Facts about time_sync_config.py *)

Module TimeSyncFacts.
Import PyNum TimeSync.

Local Open Scope Z_scope.

Section WithEnv.
Variable E : env.

Lemma now_inv s r s' :
  now E s = (r, s') ->
  r = Returns (time_time E (ticks s)) /\ self s' = self s /\ ticks s' = Datatypes.S (ticks s) /\
  queried s' = queried s /\ samples s' = samples s /\ gets s' = gets s.
Proof. unfold now. intros H; inversion H; subst; cbn; auto 10. Qed.

Lemma now_ms_inv s r s' :
  now_ms E s = (r, s') ->
  self s' = self s /\ ticks s' = Datatypes.S (ticks s) /\
  queried s' = queried s /\ samples s' = samples s /\ gets s' = gets s /\
  ((exists z, reading E (ticks s) = Some z /\ r = Returns z) \/
   (reading E (ticks s) = None /\ r = Raises ValueError)).
Proof.
  unfold now_ms, to_ms. intros H. minv H.
  - apply now_inv in Hm as (Ha & ? & ? & ? & ? & ?). inversion Ha; subst a.
    apply of_option_inv in Hk as [-> Hk]. unfold reading. auto 10.
  - apply now_inv in Hm as (Ha & _). discriminate.
Qed.

Lemma http_get_inv ep s r s' :
  http_get E ep s = (r, s') ->
  self s' = self s /\ ticks s' = ticks s /\ samples s' = samples s /\
  queried s' = queried s ++ [ep] /\ gets s' = Datatypes.S (gets s) /\
  ((exists b, r = Returns b /\ requests_get E (gets s) ep = b /\ b <> HttpError) \/
   (requests_get E (gets s) ep = HttpError /\ exists e, r = Raises e)).
Proof.
  unfold http_get. intros H.
  destruct (requests_get E (gets s) ep) eqn:Hr; inversion H; subst; cbn;
    repeat split; eauto; left; eexists; repeat split; eauto; discriminate.
Qed.

Lemma measure_inv ep s r s' :
  measure E ep s = (r, s') ->
  self s' = self s /\
  (exists qs, queried s' = queried s ++ qs /\ sublist qs [ep]) /\
  ((exists x, r = Returns (server_time x, network_delay_of x) /\
              samples s' = samples s ++ [x] /\ from_env E x /\ endpoint_of x = ep) \/
   (exists e, r = Raises e /\ samples s' = samples s)).
Proof.
  unfold measure. intros H. minv H.
  - apply now_ms_inv in Hm as (Hs0 & _ & Hq0 & Hx0 & Hg0 & _).
    minv Hk.
    + apply http_get_inv in Hm as (Hs1 & _ & Hx1 & Hq1 & _ & Hr).
      destruct Hr as [(b & Hb & Hreq & _) | (_ & e & He)]; [|discriminate].
      inversion Hb; subst a0. rewrite Hg0 in Hreq.
      minv Hk0.
      * apply now_ms_inv in Hm as (Hs2 & _ & Hq2 & Hx2 & _ & _).
        destruct b as [| |body].
        -- minv Hk; subst. split; [congruence|]. split.
           { exists [ep]. split; [congruence | reflexivity]. }
           right. eexists; split; eauto. congruence.
        -- minv Hk; subst. split; [congruence|]. split.
           { exists [ep]. split; [congruence | reflexivity]. }
           right. eexists; split; eauto. congruence.
        -- minv Hk; [|inversion Hm].
           inversion Hm; subst. minv Hk0; subst. cbn.
           split; [congruence|]. split.
           { exists [ep]. split; [congruence | reflexivity]. }
           left.
           eexists (mkSample ep a a0 (default 0 body)). cbn.
           repeat split; auto.
           ++ rewrite Hx2, Hx1, Hx0. reflexivity.
           ++ exists (gets s), body. cbn. auto.
      * apply now_ms_inv in Hm as (Hs2 & _ & Hq2 & Hx2 & _ & _).
        split; [congruence|]. split.
        { exists [ep]. split; [congruence | reflexivity]. }
        right. eexists; split; eauto. congruence.
    + apply http_get_inv in Hm as (Hs1 & _ & Hx1 & Hq1 & _ & _).
      split; [congruence|]. split.
      { exists [ep]. split; [congruence | reflexivity]. }
      right. eexists; split; eauto. congruence.
  - apply now_ms_inv in Hm as (Hs0 & _ & Hq0 & Hx0 & _ & _).
    split; [congruence|]. split.
    { exists []. split; [rewrite app_nil_r; congruence | apply sublist_nil_l]. }
    right. eexists; split; eauto.
Qed.

(** The polling loop never raises.  It keeps the last measurement it
    completed, every earlier one having been too slow to stop at. *)
Lemma poll_inv eps : forall bt nd s r s',
  poll E eps bt nd s = (r, s') ->
  self s' = self s /\
  exists new qs,
    samples s' = samples s ++ new /\ queried s' = queried s ++ qs /\
    sublist qs eps /\ Forall (from_env E) new /\
    ((new = [] /\ r = Returns (bt, nd)) \/
     (exists older kept, new = older ++ [kept] /\ Forall slow older /\
        r = Returns (server_time kept, network_delay_of kept))).
Proof.
  induction eps as [|ep rest IH]; intros bt nd s r s' H; cbn in H.
  - minv H; subst. split; [reflexivity|]. exists [], [].
    rewrite !app_nil_r. repeat split; auto.
  - minv H.
    + apply attempt_inv in Hm as [(y & Hm & Ha) | (e & Hm & Ha)];
        inversion Ha; subst a; clear Ha.
      * (* the measurement completed *)
        apply measure_inv in Hm
          as (Hs & (qs0 & Hq & Hsub) & [(x & Hr & Hx & Hfrom & _) | (e & Hr & _)]);
          [|discriminate].
        inversion Hr; subst y; clear Hr.
        destruct (network_delay_of x <? 500) eqn:Hfast.
        -- minv Hk; subst. split; [assumption|].
           exists [x], qs0. repeat split; auto.
           ++ change (ep :: rest) with ([ep] ++ rest). apply sublist_inserts_r. assumption.
           ++ right. exists [], x. auto.
        -- apply IH in Hk as (Hs' & new & qs & Hx' & Hq' & Hsub' & Hfrom' & Hcases).
           split; [congruence|].
           exists (x :: new), (qs0 ++ qs). repeat split.
           ++ rewrite Hx', Hx, <- app_assoc. reflexivity.
           ++ rewrite Hq', Hq, <- app_assoc. reflexivity.
           ++ change (ep :: rest) with ([ep] ++ rest). apply sublist_app; assumption.
           ++ constructor; assumption.
           ++ right. destruct Hcases as [[-> ->] | (older & kept & -> & Hslow & ->)].
              ** exists [], x. auto.
              ** exists (x :: older), kept. repeat split; auto.
                 constructor; [|assumption]. unfold slow. lia.
      * (* the measurement raised: continue *)
        apply measure_inv in Hm
          as (Hs & (qs0 & Hq & Hsub) & [(x & Hr & _) | (e' & _ & Hx)]);
          [discriminate|].
        apply IH in Hk as (Hs' & new & qs & Hx' & Hq' & Hsub' & Hfrom' & Hcases).
        split; [congruence|].
        exists new, (qs0 ++ qs). repeat split; auto.
        -- congruence.
        -- rewrite Hq', Hq, <- app_assoc. reflexivity.
        -- change (ep :: rest) with ([ep] ++ rest). apply sublist_app; assumption.
    + apply attempt_inv in Hm as [(y & _ & Ha) | (e' & _ & Ha)]; discriminate.
Qed.

(** A measurement asks its endpoint, once, unless the clock fails it
    before the request is sent. *)
Lemma measure_queried ep s r s' :
  measure E ep s = (r, s') ->
  queried s' = queried s ++ [ep] \/
  (queried s' = queried s /\ reading E (ticks s) = None /\ exists e, r = Raises e).
Proof.
  unfold measure. intros H. minv H.
  - left. apply now_ms_inv in Hm as (_ & _ & Hq0 & _).
    minv Hk.
    + apply http_get_inv in Hm as (_ & _ & _ & Hq1 & _).
      minv Hk0.
      * apply now_ms_inv in Hm as (_ & _ & Hq2 & _).
        destruct a0 as [| |body].
        -- minv Hk; subst. congruence.
        -- minv Hk; subst. congruence.
        -- minv Hk; [|inversion Hm].
           inversion Hm; subst. minv Hk0; subst. cbn. congruence.
      * apply now_ms_inv in Hm as (_ & _ & Hq2 & _). congruence.
    + apply http_get_inv in Hm as (_ & _ & _ & Hq1 & _). congruence.
  - right. apply now_ms_inv in Hm as (_ & _ & Hq0 & _ & _ & [(z & _ & Hz) | [Hnone _]]);
      [discriminate|]. eauto.
Qed.

(** The order of the polling loop.  The endpoints it asks are asked in
    the order of the list, each before the measurement of the next is
    taken; it stops after the endpoint of a measurement below 500 ms; and
    with a clock that reads, it starts at the head of the list, skips
    nothing, and asks every endpoint unless it stops that way. *)
Lemma poll_order eps : forall bt nd s r s',
  poll E eps bt nd s = (r, s') ->
  exists qs new,
    queried s' = queried s ++ qs /\ samples s' = samples s ++ new /\
    sublist (List.map endpoint_of new) qs /\
    (forall kept, last new = Some kept -> fast kept = true ->
                  last qs = Some (endpoint_of kept)) /\
    (readable E ->
     qs `prefix_of` eps /\
     (forall kept, last new = Some kept -> fast kept = false -> qs = eps) /\
     (new = [] -> qs = eps)).
Proof.
  induction eps as [|ep rest IH]; intros bt nd s r s' H; cbn in H.
  - minv H; subst. exists [], []. rewrite !app_nil_r.
    repeat split; auto; discriminate.
  - minv H.
    2:{ apply attempt_inv in Hm as [(y & _ & Ha) | (e' & _ & Ha)]; discriminate. }
    apply attempt_inv in Hm as [(y & Hm & Ha) | (e & Hm & Ha)];
      inversion Ha; subst a; clear Ha.
    + (* the measurement completed *)
      pose proof (measure_queried _ _ _ _ Hm) as [Hq | (_ & _ & e & He)];
        [|discriminate].
      apply measure_inv in Hm
        as (_ & _ & [(x & Hr & Hx & _ & Hep) | (e & Hr & _)]); [|discriminate].
      inversion Hr; subst y; clear Hr. subst ep.
      destruct (network_delay_of x <? 500) eqn:Hfast.
      * minv Hk; subst. exists [endpoint_of x], [x]. cbn.
        repeat split; auto.
        -- intros kept Hkept _. injection Hkept as <-. reflexivity.
        -- exists rest. reflexivity.
        -- intros kept Hkept Hslow. injection Hkept as <-.
           unfold fast in Hslow. congruence.
        -- discriminate.
      * apply IH in Hk as (qs & new & Hq' & Hx' & Hsub & Hstop & Hread).
        exists (endpoint_of x :: qs), (x :: new). cbn [List.map].
        split; [rewrite Hq', Hq, <- app_assoc; reflexivity|].
        split; [rewrite Hx', Hx, <- app_assoc; reflexivity|].
        split; [apply sublist_skip; assumption|].
        split.
        -- intros kept Hkept Hf. rewrite last_cons in Hkept.
           destruct (last new) as [y|] eqn:Hlast.
           ++ injection Hkept as <-. rewrite last_cons, (Hstop y eq_refl Hf). reflexivity.
           ++ injection Hkept as <-. unfold fast in Hf. congruence.
        -- intros HE. destruct (Hread HE) as (Hpre & Hslow & Hnil).
           split; [apply prefix_cons; assumption|]. split; [|discriminate].
           intros kept Hkept Hf. rewrite last_cons in Hkept.
           destruct (last new) as [y|] eqn:Hlast.
           ++ injection Hkept as <-. rewrite (Hslow y eq_refl Hf). reflexivity.
           ++ apply last_None in Hlast. rewrite (Hnil Hlast). reflexivity.
    + (* the measurement raised: continue *)
      pose proof (measure_queried _ _ _ _ Hm) as Hq.
      apply measure_inv in Hm as (_ & _ & [(x & Hr & _) | (e' & _ & Hx)]);
        [discriminate|].
      apply IH in Hk as (qs & new & Hq' & Hx' & Hsub & Hstop & Hread).
      assert (Hqs : exists qs0, queried s0 = queried s ++ qs0 /\
                                (qs0 = [ep] \/ qs0 = [] /\ ~ readable E)).
      { destruct Hq as [Hq | (Hq & Hnone & _)].
        - exists [ep]. auto.
        - exists []. rewrite app_nil_r. split; [assumption|]. right.
          split; [reflexivity|]. intros HE. destruct (HE (ticks s)) as [z Hz].
          congruence. }
      destruct Hqs as (qs0 & Hq0 & Hcases).
      exists (qs0 ++ qs), new.
      split; [rewrite Hq', Hq0, <- app_assoc; reflexivity|].
      split; [congruence|].
      split; [apply sublist_inserts_l; assumption|].
      split.
      * intros kept Hkept Hf. rewrite last_app, (Hstop kept Hkept Hf). reflexivity.
      * intros HE. destruct Hcases as [-> | [_ Hno]]; [|contradiction].
        destruct (Hread HE) as (Hpre & Hslow & Hnil).
        split; [apply prefix_cons; assumption|].
        split.
        -- intros kept Hkept Hf. rewrite (Hslow kept Hkept Hf). reflexivity.
        -- intros Hnew. rewrite (Hnil Hnew). reflexivity.
Qed.

Lemma sync_time_try_inv ct s r s' :
  sync_time_try E ct s = (r, s') ->
  (r = Returns true /\ synced_from E ct s s') \/
  (exists e, r = Raises e /\ self s' = self s /\
             (unreachable E -> samples s' = samples s)).
Proof.
  unfold sync_time_try. intros H. minv H.
  - unfold to_ms in Hm. apply of_option_inv in Hm as [-> [(lrt & Hlrt & Ha) | [_ Ha]]];
      [|discriminate].
    inversion Ha; subst a; clear Ha.
    minv Hk.
    + destruct a as [bt nd].
      apply poll_inv in Hm as (Hs & new & qs & Hx & Hq & Hsub & Hfrom & Hcases).
      destruct Hcases as [[-> Hr] | (older & kept & -> & Hslow & Hr)];
        inversion Hr; subst bt nd; clear Hr.
      * cbn in Hk0. minv Hk0; subst. right. eexists. repeat split; eauto.
        rewrite Hx, app_nil_r. reflexivity.
      * destruct (server_time kept =? 0) eqn:Hz.
        -- minv Hk0; subst. right. eexists. repeat split; eauto.
           intros Hun. apply Forall_app in Hfrom as [_ Hkept].
           inversion Hkept as [|? ? (k & body & Hbody & _) _]; subst.
           rewrite Hun in Hbody. discriminate.
        -- apply Z.eqb_neq in Hz. minv Hk0.
           ++ apply now_ms_inv in Hm as (Hs1 & Ht1 & Hq1 & Hx1 & _ & Hread).
              destruct Hread as [(llt & Hllt & Ha) | [_ Ha]]; [|discriminate].
              inversion Ha; subst a; clear Ha.
              minv Hk. inversion Hm; subst; clear Hm. minv Hk0; subst.
              left. split; [reflexivity|].
              exists lrt, older, kept, llt, qs. cbn.
              rewrite Ht1. cbn.
              repeat split; auto; try congruence.
              inversion Hm.
           ++ apply now_ms_inv in Hm as (Hs1 & Ht1 & Hq1 & Hx1 & _ & Hread).
              right. eexists. repeat split; eauto; try congruence.
              intros Hun. apply Forall_app in Hfrom as [_ Hkept].
              inversion Hkept as [|? ? (k & body & Hbody & _) _]; subst.
              rewrite Hun in Hbody. discriminate.
    + apply poll_inv in Hm as (_ & _ & _ & _ & _ & _ & _ & [[_ Hr] | (? & ? & _ & _ & Hr)]);
        discriminate.
  - unfold to_ms in Hm. apply of_option_inv in Hm as [-> _]. subst r.
    right. eexists. repeat split; eauto.
Qed.

(** The endpoints asked and the measurements taken in a run of the
    [try] block that does not raise are those of its polling loop. *)
Lemma sync_time_try_polls ct s b s' :
  sync_time_try E ct s = (Returns b, s') ->
  exists r s1,
    poll E endpoints 0 1000 s = (r, s1) /\
    samples s' = samples s1 /\ queried s' = queried s1.
Proof.
  unfold sync_time_try. intros H. minv H; [|discriminate].
  unfold to_ms in Hm. apply of_option_inv in Hm as [-> _].
  minv Hk; [|discriminate].
  exists (Returns a0), s0. split; [assumption|]. clear Hm.
  destruct a0 as [bt nd]. cbn in Hk0.
  destruct (bt =? 0); [minv Hk0; discriminate|].
  minv Hk0; [|discriminate].
  apply now_ms_inv in Hm as (_ & _ & Hq & Hx & _).
  minv Hk; [|inversion Hm].
  inversion Hm; subst. minv Hk0; subst. cbn. split; congruence.
Qed.

Lemma sync_time_polls force s s' :
  sync_time E force s = (Returns (Some true), s') ->
  exists s0 r s1,
    poll E endpoints 0 1000 s0 = (r, s1) /\
    samples s0 = samples s /\ queried s0 = queried s /\
    samples s' = samples s1 /\ queried s' = queried s1.
Proof.
  unfold sync_time. intros H. minv H; [|discriminate].
  apply now_inv in Hm as (Ha & _ & _ & Hq0 & Hx0 & _).
  inversion Ha; subst a; clear Ha.
  minv Hk; [|inversion Hm]. inversion Hm; subst a s1; clear Hm.
  destruct (negb force && _) in Hk0; [minv Hk0; discriminate|].
  apply try_catch_inv in Hk0 as [(a & Hbody & Ha) | (e & s1 & Hbody & Hhandler)].
  - apply bind_returns_inv in Hbody as (b & s2 & Htry & Hret).
    apply ret_inv in Hret as [_ ->].
    apply sync_time_try_polls in Htry as (r & s3 & Hpoll & Hx & Hq).
    exists s0, r, s3. auto.
  - apply bind_inv in Hhandler as [(u & s3 & Hmod & Hret) | (e1 & Hmod & _)];
      [|inversion Hmod].
    apply ret_inv in Hret as [Hret _]. discriminate.
Qed.

(** [sync_time] never raises, and ends in one of three ways. *)
Lemma sync_time_inv force s r s' :
  sync_time E force s = (r, s') ->
  (r = Returns None /\ self s' = self s /\ ~ proceeds E force s) \/
  (r = Returns (Some false) /\ self s' = mark_unsynced (self s) /\
     proceeds E force s /\ (unreachable E -> samples s' = samples s)) \/
  (r = Returns (Some true) /\ proceeds E force s /\
     synced_from E (time_time E (ticks s)) s s').
Proof.
  unfold sync_time. intros H. minv H; [|apply now_inv in Hm as [Hm _]; discriminate].
  apply now_inv in Hm as (Ha & Hs0 & Ht0 & Hq0 & Hx0 & _).
  inversion Ha; subst a; clear Ha.
  minv Hk; [|inversion Hm]. inversion Hm; subst a s1; clear Hm.
  rewrite Hs0 in Hk0.
  destruct (negb force && _) eqn:Hgate in Hk0.
  - minv Hk0; subst. left. repeat split; auto.
    unfold proceeds. rewrite Hgate. discriminate.
  - right.
    apply try_catch_inv in Hk0 as [(a & Hbody & ->) | (e & s1 & Hbody & Hhandler)];
      apply bind_inv in Hbody as [(b & s2 & Htry & Hret) | (e' & Htry & He)].
    + apply sync_time_try_inv in Htry as [[Hr Hsync] | (e & Hr & _)]; [|discriminate].
      inversion Hr; subst b; clear Hr. apply ret_inv in Hret as [Ha ->].
      inversion Ha; subst a; clear Ha.
      right. repeat split; auto.
      destruct Hsync as (lrt & older & kept & llt & qs & H1 & H2 & H3 & H4 & H5 & H6 & H7 & H8 & H9).
      exists lrt, older, kept, llt, qs. rewrite <- Hx0, <- Hq0, <- Hs0. auto 10.
    + discriminate.
    + apply ret_inv in Hret as [Ha _]. discriminate.
    + apply sync_time_try_inv in Htry as [[Hr _] | (e0 & _ & Hs1 & Hun)]; [discriminate|].
      apply bind_inv in Hhandler as [(u & s3 & Hmod & Hret) | (e1 & Hmod & _)];
        [|inversion Hmod].
      inversion Hmod; subst u s3; clear Hmod. apply ret_inv in Hret as [-> ->].
      left. cbn. repeat split; auto; try congruence.
      intros Hu. rewrite (Hun Hu). assumption.
Qed.

(** With every endpoint unreachable the [try] block ends in the "all
    endpoints unreachable" exception. *)
Lemma sync_time_try_unreachable ct s :
  unreachable E -> is_Some (py_int (ct * 1000)%float) ->
  fst (sync_time_try E ct s) = Raises all_unreachable.
Proof.
  intros Hun [lrt Hlrt]. unfold sync_time_try, to_ms. rewrite Hlrt.
  cbn [of_option]. unfold bind at 1, ret at 1.
  destruct (poll E endpoints 0 1000 s) as [r s1] eqn:Hpoll.
  pose proof Hpoll as Hinv.
  apply poll_inv in Hinv as (_ & new & qs & _ & _ & _ & Hfrom & Hcases).
  destruct Hcases as [[_ ->] | (older & kept & -> & _ & _)].
  - unfold bind. rewrite Hpoll. reflexivity.
  - apply Forall_app in Hfrom as [_ Hkept].
    inversion Hkept as [|? ? (k & body & Hbody & _) _]; subst.
    rewrite Hun in Hbody. discriminate.
Qed.

(** The stored offset after a successful run, exactly as computed: the
    reading taken on entry stands in for the send time. *)
Lemma sync_time_offset force s s' :
  sync_time E force s = (Returns (Some true), s') ->
  exists lrt kept,
    reading E (ticks s) = Some lrt /\ last (samples s') = Some kept /\
    time_offset (self s') = server_time kept - (lrt + network_delay_of kept / 2) /\
    last_server_time (self s') = server_time kept.
Proof.
  intros H. apply sync_time_inv in H as [(Hr & _) | [(Hr & _) | (_ & _ & Hsync)]];
    try discriminate.
  destruct Hsync as (lrt & older & kept & llt & qs & H1 & H2 & _ & _ & _ & _ & _ & _ & H9).
  exists lrt, kept. rewrite H9, H2. cbn. repeat split; auto.
  rewrite !app_assoc. apply last_snoc.
Qed.

Lemma sync_time_consistent force s r s' :
  positive_server_times E -> consistent (self s) ->
  sync_time E force s = (r, s') -> consistent (self s').
Proof.
  intros Hpos Hc H.
  apply sync_time_inv in H as [(_ & -> & _) | [(_ & -> & _) | (_ & _ & Hsync)]]; auto.
  destruct Hsync as (lrt & older & kept & llt & qs & _ & _ & _ & Hfrom & Hnz & _ & _ & _ & ->).
  left. cbn. apply Forall_app in Hfrom as [_ Hkept].
  inversion Hkept as [|? ? (k & body & Hbody & Hval) _]; subst.
  destruct body as [t|]; cbn in Hval; [|congruence].
  rewrite Hval. eapply Hpos; eauto.
Qed.

(** The value [get_synced_timestamp] returns, in terms of the attributes
    it leaves and of the last clock reading it took. *)
Lemma get_synced_timestamp_inv s r s' :
  get_synced_timestamp E s = (Returns r, s') ->
  exists now,
    reading E (pred (ticks s')) = Some now /\
    r = if 0 <? last_server_time (self s')
        then last_server_time (self s') + (now - last_local_time (self s'))
        else now + time_offset (self s').
Proof.
  unfold get_synced_timestamp. intros H. msimpl.
  apply bind_inv in H as [(u & s1 & _ & H) | (e & _ & He)]; [|discriminate].
  apply bind_inv in H as [(t1 & s2 & Hnow1 & H) | (e & _ & He)]; [|discriminate].
  apply now_ms_inv in Hnow1 as (_ & Ht2 & _ & _ & _ & Hread).
  destruct Hread as [(z & Hz & Ha) | [_ Ha]]; msimpl.
  apply bind_inv in H as [(t2 & s3 & Hnow2 & H) | (e & _ & He)]; [|discriminate].
  assert (Hnow : reading E (pred (ticks s3)) = Some t2).
  { destruct (_ <? _) in Hnow2.
    - apply bind_inv in Hnow2 as [(o & s4 & _ & Hnow2) | (e & _ & He)]; [|discriminate].
      apply now_ms_inv in Hnow2 as (_ & Ht & _ & _ & _ & [(z' & Hz' & Ha) | [_ Ha]]);
        msimpl.
      rewrite Ht. assumption.
    - msimpl. rewrite Ht2. assumption. }
  msimpl. exists t2.
  destruct (0 <? last_server_time (self s3)) eqn:Hsrv; msimpl; rewrite Hsrv; auto.
Qed.

Lemma get_synced_timestamp_consistent s r s' :
  positive_server_times E -> consistent (self s) ->
  get_synced_timestamp E s = (r, s') -> consistent (self s').
Proof.
  intros Hpos Hc. unfold get_synced_timestamp. intros H. msimpl.
  assert (Hstep1 : forall (u : outcome unit) s1,
    (if negb (is_synced (self s))
     then bind (sync_time E false) (fun _ => ret tt) else ret tt) s = (u, s1) ->
    consistent (self s1)).
  { intros u s1 Hu. destruct (negb _).
    - apply bind_inv in Hu as [(o & s2 & Hsync & Hu) | (e & Hsync & _)]; msimpl;
        eapply sync_time_consistent; eauto.
    - msimpl; assumption. }
  apply bind_inv in H as [(u & s1 & H1 & H) | (e & H1 & _)]; [|eapply Hstep1; eauto].
  apply Hstep1 in H1.
  apply bind_inv in H as [(t1 & s2 & Hnow1 & H) | (e & Hnow1 & _)];
    apply now_ms_inv in Hnow1 as (Hs2 & _); [|congruence].
  rewrite <- Hs2 in H1. msimpl.
  assert (Hstep2 : forall (u : outcome Z) s4,
    (if sync_interval (self s2) * 1000 <? t1 - last_local_time (self s2)
     then bind (sync_time E false) (fun _ => now_ms E) else ret t1) s2 = (u, s4) ->
    consistent (self s4)).
  { intros v s4 Hv. destruct (_ <? _).
    - apply bind_inv in Hv as [(o & s5 & Hsync & Hv) | (e & Hsync & _)].
      + apply now_ms_inv in Hv as (Hs4 & _). rewrite Hs4.
        eapply sync_time_consistent; eauto.
      + eapply sync_time_consistent; eauto.
    - msimpl; assumption. }
  apply bind_inv in H as [(t2 & s3 & H2 & H) | (e & H2 & _)]; [|eapply Hstep2; eauto].
  apply Hstep2 in H2. msimpl.
  destruct (0 <? _); msimpl; assumption.
Qed.

End WithEnv.

(** The clocks of the scripted environments read. *)
Lemma clock_readable readings final requests :
  Forall (fun t => is_Some (py_int (t * 1000)%float)) readings ->
  is_Some (py_int (final * 1000)%float) ->
  readable {| time_time := clock readings final; requests_get := requests |}.
Proof.
  intros Hall Hfinal k. unfold reading, clock. cbn. revert k.
  induction Hall as [|t rest Ht _ IH]; intros [|k]; cbn; auto.
Qed.

(** C4, as the code has it.  A successful [sync_time] asks the endpoints
    in the order of the list, from its head and without skipping any when
    the clock reads.  The measurements of the run are [older ++ [kept]],
    each taken from an endpoint it asked, in that order, every one of
    [older] at 500 ms or more: polling stops after the endpoint of the
    first measurement below 500 ms, and otherwise runs to the end of the
    list and keeps the LAST measurement, not the one of lowest delay.  The
    stored server time is the non-zero one [kept] reports, and when the
    reading taken on entry is the send time of [kept] the stored offset is
    remoteTime - (sendTime + networkDelay // 2). *)
Theorem sync_time_keeps_last_sample (E : env) (force : bool) (s s' : state) :
  sync_time E force s = (Returns (Some true), s') ->
  exists older kept qs,
    samples s' = samples s ++ older ++ [kept] /\
    Forall slow older /\ Forall (from_env E) (older ++ [kept]) /\
    queried s' = queried s ++ qs /\ sublist qs endpoints /\
    sublist (List.map endpoint_of (older ++ [kept])) qs /\
    (fast kept = true -> last qs = Some (endpoint_of kept)) /\
    (readable E ->
     qs `prefix_of` endpoints /\ (fast kept = false -> qs = endpoints)) /\
    server_time kept <> 0 /\
    last_server_time (self s') = server_time kept /\
    is_synced (self s') = true /\
    (reading E (ticks s) = Some (request_start kept) ->
     time_offset (self s') = spec_offset kept).
Proof.
  intros H.
  pose proof (sync_time_polls _ _ _ _ H) as (s0 & r & s1 & Hpoll & Hx0 & Hq0 & Hx1 & Hq1).
  apply poll_order in Hpoll as (qs' & new & Hq' & Hx' & Hsub' & Hstop & Hread).
  apply sync_time_inv in H as [(Hr & _) | [(Hr & _) | (_ & _ & Hsync)]];
    try discriminate.
  destruct Hsync as (lrt & older & kept & llt & qs & H1 & H2 & H3 & H4 & H5 & H6 & H7 & _ & H9).
  assert (Hqs : qs' = qs).
  { apply (app_inv_head (queried s)). congruence. }
  assert (Hnew : new = older ++ [kept]).
  { apply (app_inv_head (samples s)). congruence. }
  subst qs' new.
  exists older, kept, qs. rewrite H9. cbn.
  split; [assumption|]. split; [assumption|]. split; [assumption|].
  split; [assumption|]. split; [assumption|]. split; [assumption|].
  split; [apply Hstop, last_snoc|].
  split.
  { intros HE. destruct (Hread HE) as (Hpre & Hslow & _).
    split; [assumption | apply Hslow, last_snoc]. }
  repeat split; auto.
  unfold reading. rewrite H1. intros Heq. inversion Heq; subst lrt.
  reflexivity.
Qed.

(** In [env_slow] two endpoints answer, neither below 500 ms: all four
    endpoints are asked and the second measurement is kept.  In
    [env_prompt] the first endpoint answers within 125 ms: polling stops
    there, and the request having been sent in the millisecond of the
    reading taken on entry, the stored offset is
    remoteTime - (sendTime + networkDelay // 2), 38 ms. *)
Lemma sync_time_keeps_last_sample_witness :
  (exists older kept,
     samples (snd (sync_time env_slow false fresh)) = older ++ [kept] /\
     length older = 1%nat /\ Forall slow older /\ fast kept = false /\
     queried (snd (sync_time env_slow false fresh)) = endpoints /\
     last_server_time (self (snd (sync_time env_slow false fresh))) = server_time kept) /\
  (exists kept,
     samples (snd (sync_time env_prompt false fresh)) = [kept] /\
     fast kept = true /\
     last (queried (snd (sync_time env_prompt false fresh))) = Some (endpoint_of kept) /\
     reading env_prompt (ticks fresh) = Some (request_start kept) /\
     time_offset (self (snd (sync_time env_prompt false fresh))) = spec_offset kept /\
     spec_offset kept = 38).
Proof.
  split.
  - destruct (sync_time_keeps_last_sample env_slow false fresh
                (snd (sync_time env_slow false fresh)))
      as (older & kept & qs & Hs & Hslow & _ & Hq & _ & _ & _ & Hread & _ & Hsrv & _);
      [vm_compute; reflexivity|].
    change (samples fresh) with (@nil sample) in Hs.
    change (queried fresh) with (@nil string) in Hq.
    rewrite app_nil_l in Hs, Hq.
    assert (Hlast : last (samples (snd (sync_time env_slow false fresh))) = Some kept)
      by (rewrite Hs; apply last_snoc).
    assert (Hlen : length (samples (snd (sync_time env_slow false fresh))) = 2%nat)
      by (vm_compute; reflexivity).
    rewrite Hs, length_app in Hlen. cbn [length] in Hlen.
    vm_compute in Hlast. injection Hlast as <-.
    exists older. eexists. split; [exact Hs|].
    split; [lia|]. split; [assumption|]. split; [reflexivity|].
    split; [|exact Hsrv].
    rewrite Hq. apply Hread; [|reflexivity].
    apply clock_readable; [repeat constructor; vm_compute; eauto | vm_compute; eauto].
  - destruct (sync_time_keeps_last_sample env_prompt false fresh
                (snd (sync_time env_prompt false fresh)))
      as (older & kept & qs & Hs & _ & _ & Hq & _ & _ & Hfast & _ & _ & _ & _ & Hoff);
      [vm_compute; reflexivity|].
    change (samples fresh) with (@nil sample) in Hs.
    change (queried fresh) with (@nil string) in Hq.
    rewrite app_nil_l in Hs, Hq.
    assert (Hlast : last (samples (snd (sync_time env_prompt false fresh))) = Some kept)
      by (rewrite Hs; apply last_snoc).
    assert (Hlen : length (samples (snd (sync_time env_prompt false fresh))) = 1%nat)
      by (vm_compute; reflexivity).
    rewrite Hs, length_app in Hlen. cbn [length] in Hlen.
    vm_compute in Hlast. injection Hlast as <-.
    destruct older as [|x older]; [|cbn in Hlen; lia].
    eexists. split; [exact Hs|]. split; [reflexivity|].
    split; [rewrite Hq; apply Hfast; reflexivity|].
    split; [vm_compute; reflexivity|].
    split; [apply Hoff; vm_compute; reflexivity | reflexivity].
Defined.

(** C4, as stated, fails twice.  In [env_slow] no sample is below 500 ms
    and the code keeps the second one (875 ms) although the first (625 ms)
    is the best.  In [env_retry] the accepted sample was sent five seconds
    after the reading the offset is computed from. *)
Lemma sync_time_not_best_sample :
  ~ claimed_sync env_slow false fresh /\ ~ claimed_sync env_retry false fresh.
Proof.
  split; intros Hclaim.
  - destruct (Hclaim (snd (sync_time env_slow false fresh)))
      as (new & kept & Hnew & Hchoice & Hsrv & _); [vm_compute; reflexivity|].
    vm_compute in Hnew. subst new.
    vm_compute in Hchoice. inversion Hchoice; subst kept.
    vm_compute in Hsrv. discriminate.
  - destruct (Hclaim (snd (sync_time env_retry false fresh)))
      as (new & kept & Hnew & Hchoice & _ & Hoff); [vm_compute; reflexivity|].
    vm_compute in Hnew. subst new.
    vm_compute in Hchoice. inversion Hchoice; subst kept.
    vm_compute in Hoff. discriminate.
Qed.

(** C8.  When no endpoint can be reached, a run of [sync_time] that is not
    skipped by the minimum-interval gate fails (returns False), leaves the
    stored offset, server time and local time as they were, and marks the
    manager unsynced; the failure inside is the "all endpoints
    unreachable" exception. *)
Theorem sync_time_all_unreachable (E : env) (force : bool) (s : state) :
  unreachable E -> proceeds E force s ->
  exists s',
    sync_time E force s = (Returns (Some false), s') /\
    time_offset (self s') = time_offset (self s) /\
    last_server_time (self s') = last_server_time (self s) /\
    last_local_time (self s') = last_local_time (self s) /\
    last_sync_time (self s') = last_sync_time (self s) /\
    is_synced (self s') = false /\
    samples s' = samples s /\
    (is_Some (reading E (ticks s)) ->
     fst (sync_time_try E (time_time E (ticks s)) (snd (now E s))) = Raises all_unreachable).
Proof.
  intros Hun Hgo. destruct (sync_time E force s) as [r s'] eqn:H.
  exists s'. apply sync_time_inv in H as [(_ & _ & Hskip) | [(-> & -> & _ & Hx) | (_ & _ & Hsync)]].
  - contradiction.
  - cbn. repeat split; auto. intros Hread. apply sync_time_try_unreachable; assumption.
  - destruct Hsync as (lrt & older & kept & llt & qs & _ & _ & _ & Hfrom & _).
    apply Forall_app in Hfrom as [_ Hkept].
    inversion Hkept as [|? ? (k & body & Hbody & _) _]; subst.
    rewrite Hun in Hbody. discriminate.
Qed.

Lemma sync_time_all_unreachable_witness :
  exists s',
    sync_time env_down true synced_state = (Returns (Some false), s') /\
    time_offset (self s') = time_offset (self synced_state) /\
    last_server_time (self s') = last_server_time (self synced_state) /\
    last_local_time (self s') = last_local_time (self synced_state) /\
    last_sync_time (self s') = last_sync_time (self synced_state) /\
    is_synced (self s') = false /\
    samples s' = samples synced_state /\
    (is_Some (reading env_down (ticks synced_state)) ->
     fst (sync_time_try env_down (time_time env_down (ticks synced_state))
            (snd (now env_down synced_state))) = Raises all_unreachable).
Proof.
  apply (sync_time_all_unreachable env_down true synced_state).
  - intros k endpoint. reflexivity.
  - reflexivity.
Defined.

(** C9.  From a manager whose offset and extrapolation base agree (the
    constructor's does, and every sync against positive server times keeps
    it so), two consecutive calls of [get_synced_timestamp] with the stored
    [last_server_time] and [last_local_time] unchanged by the second both
    return [last_server_time + (nowLocal - last_local_time)], [nowLocal]
    being the last clock reading of the call; so the second result is at
    least the first when the clock did not go back. *)
Theorem get_synced_timestamp_monotone (E : env) (s s1 s2 : state) (r1 r2 : Z) :
  positive_server_times E -> consistent (self s) ->
  get_synced_timestamp E s = (Returns r1, s1) ->
  get_synced_timestamp E s1 = (Returns r2, s2) ->
  last_server_time (self s2) = last_server_time (self s1) ->
  last_local_time (self s2) = last_local_time (self s1) ->
  exists now1 now2,
    reading E (pred (ticks s1)) = Some now1 /\
    reading E (pred (ticks s2)) = Some now2 /\
    r1 = last_server_time (self s1) + (now1 - last_local_time (self s1)) /\
    r2 = last_server_time (self s1) + (now2 - last_local_time (self s1)) /\
    (now1 <= now2 -> r1 <= r2).
Proof.
  intros Hpos Hc H1 H2 Hsrv Hloc.
  pose proof (get_synced_timestamp_consistent E _ _ _ Hpos Hc H1) as Hc1.
  pose proof (get_synced_timestamp_consistent E _ _ _ Hpos Hc1 H2) as Hc2.
  apply get_synced_timestamp_inv in H1 as (now1 & Hn1 & Hr1).
  apply get_synced_timestamp_inv in H2 as (now2 & Hn2 & Hr2).
  assert (Hform : forall m now,
    consistent m ->
    (if 0 <? last_server_time m
     then last_server_time m + (now - last_local_time m)
     else now + time_offset m) = last_server_time m + (now - last_local_time m)).
  { intros m now [Hp | Heq].
    - apply Z.ltb_lt in Hp. rewrite Hp. reflexivity.
    - destruct (0 <? last_server_time m); lia. }
  rewrite Hform in Hr1, Hr2 by assumption.
  rewrite Hsrv, Hloc in Hr2.
  exists now1, now2. repeat split; auto. lia.
Qed.

Lemma get_synced_timestamp_monotone_witness :
  exists now1 now2,
    reading env_retry (pred (ticks after_first)) = Some now1 /\
    reading env_retry (pred (ticks after_second)) = Some now2 /\
    1762250005350 =
      last_server_time (self after_first) + (now1 - last_local_time (self after_first)) /\
    1762250005850 =
      last_server_time (self after_first) + (now2 - last_local_time (self after_first)) /\
    (now1 <= now2 -> 1762250005350 <= 1762250005850).
Proof.
  apply (get_synced_timestamp_monotone env_retry fresh after_first after_second).
  - intros k endpoint t H. destruct k; inversion H. lia.
  - right. reflexivity.
  - vm_compute. reflexivity.
  - vm_compute. reflexivity.
  - vm_compute. reflexivity.
  - vm_compute. reflexivity.
Defined.

End TimeSyncFacts.

(** * Facts about binance_main.py *)

Module TraderFacts.
Import PyNum PyStr Binance Trader.

Local Open Scope Z_scope.

Lemma same_attrs_refl s : same_attrs s s.
Proof. repeat split. Qed.

Lemma same_attrs_trans s1 s2 s3 :
  same_attrs s1 s2 -> same_attrs s2 s3 -> same_attrs s1 s3.
Proof. unfold same_attrs. intuition congruence. Qed.

Lemma on_process_inv {A} (m : M process A) s r s' :
  on_process m s = (r, s') ->
  m (proc s) = (r, proc s') /\ same_attrs s s'.
Proof.
  unfold on_process. destruct (m (proc s)) as [r0 p] eqn:Hm.
  intros H; inversion H; subst. cbn. repeat split.
Qed.

Section WithWorld.
Variable T : TimeSync.env.
Variable X : exchange.

(** Resynchronising never raises and does not count as a call. *)
Lemma resync_inv force s r s' :
  on_process (on_clock (TimeSync.sync_time T force)) s = (r, s') ->
  (exists o, r = Returns o) /\ same_attrs s s' /\
  calls (proc s') = calls (proc s) /\ submitted (proc s') = submitted (proc s).
Proof.
  intros H. apply on_process_inv in H as [H Hattrs].
  unfold on_clock in H.
  destruct (TimeSync.sync_time T force (clock (proc s))) as [o c] eqn:Hsync.
  injection H as Hr Hp. rewrite <- Hp. cbn.
  apply TimeSyncFacts.sync_time_inv in Hsync
    as [(-> & _) | [(-> & _) | (-> & _)]]; eauto.
Qed.

Lemma sleep_inv seconds s r s' :
  on_process (sleep seconds) s = (r, s') ->
  r = Returns tt /\ same_attrs s s' /\
  calls (proc s') = calls (proc s) /\ submitted (proc s') = submitted (proc s).
Proof.
  intros H. apply on_process_inv in H as [H Hattrs].
  injection H as Hr Hp. rewrite <- Hp. cbn. auto.
Qed.

Lemma call_inv {A} (request_func : request A) s r s' :
  on_process (call X request_func) s = (r, s') ->
  r = X A (calls (proc s)) request_func /\ same_attrs s s' /\
  calls (proc s') = S (calls (proc s)) /\
  submitted (proc s') = submitted (proc s) ++ order_params request_func.
Proof.
  intros H. apply on_process_inv in H as [H Hattrs].
  injection H as Hr Hp. rewrite <- Hp. cbn. auto.
Qed.

Lemma clock_skew_not_permanent e : clock_skew e -> has_code e (-4059) = false.
Proof.
  unfold clock_skew, has_code. destruct (exc_code e) as [c|]; [|discriminate].
  intros H. apply Z.eqb_eq in H. subst c. reflexivity.
Qed.

(** One round of the retry loop, by the kind of failure. *)
Lemma attempts_success {A} n (request_func : request A) last s a :
  X A (calls (proc s)) request_func = Returns a ->
  attempts T X (S n) request_func last s =
    (Returns a, snd (on_process (call X request_func) s)).
Proof. intros H. cbn. unfold try_catch, on_process, call. cbn. rewrite H. reflexivity. Qed.

Lemma attempts_permanent {A} n (request_func : request A) last s e :
  X A (calls (proc s)) request_func = Raises e -> has_code e (-4059) = true ->
  attempts T X (S n) request_func last s =
    (Raises e, snd (on_process (call X request_func) s)).
Proof.
  intros H Hc. cbn. unfold try_catch, on_process, call. cbn. rewrite H, Hc. reflexivity.
Qed.

Lemma attempts_transient {A} n (request_func : request A) last s e :
  X A (calls (proc s)) request_func = Raises e -> transient e ->
  exists s1,
    attempts T X (S n) request_func last s = attempts T X n request_func (Some e) s1 /\
    same_attrs s s1 /\ calls (proc s1) = S (calls (proc s)) /\
    submitted (proc s1) = submitted (proc s) ++ order_params request_func.
Proof.
  intros H [Hp Hk]. cbn [attempts]. unfold try_catch at 1.
  destruct (on_process (call X request_func) s) as [r s0] eqn:Hcall.
  apply call_inv in Hcall as (-> & Ha0 & Hc0 & Hs0). rewrite H, Hp, Hk.
  rewrite bind_get_state.
  destruct (on_process (sleep (retry_delay s0)) s0) as [r1 s1] eqn:Hsleep.
  pose proof Hsleep as Hsleep'.
  apply sleep_inv in Hsleep' as (-> & Ha1 & Hc1 & Hs1).
  exists s1. split.
  - erewrite bind_returns by eassumption. reflexivity.
  - split; [eapply same_attrs_trans; eauto | split; congruence].
Qed.

Lemma attempts_clock_skew {A} n (request_func : request A) last s e :
  X A (calls (proc s)) request_func = Raises e -> clock_skew e ->
  exists s1,
    attempts T X (S n) request_func last s = attempts T X n request_func last s1 /\
    same_attrs s s1 /\ calls (proc s1) = S (calls (proc s)) /\
    submitted (proc s1) = submitted (proc s) ++ order_params request_func.
Proof.
  intros H Hk. pose proof (clock_skew_not_permanent e Hk) as Hp.
  cbn [attempts]. unfold try_catch at 1.
  destruct (on_process (call X request_func) s) as [r s0] eqn:Hcall.
  apply call_inv in Hcall as (-> & Ha0 & Hc0 & Hs0). rewrite H, Hp, Hk.
  destruct (on_process (on_clock (TimeSync.sync_time T false)) s0) as [r1 s1] eqn:Hsync.
  pose proof Hsync as Hsync'.
  apply resync_inv in Hsync' as ([o ->] & Ha1 & Hc1 & Hs1).
  erewrite bind_returns by eassumption. rewrite bind_get_state.
  destruct (on_process (sleep (retry_delay s1)) s1) as [r2 s2] eqn:Hsleep.
  pose proof Hsleep as Hsleep'.
  apply sleep_inv in Hsleep' as (-> & Ha2 & Hc2 & Hs2).
  exists s2. split.
  - erewrite bind_returns by eassumption. reflexivity.
  - split; [|split; congruence].
    eapply same_attrs_trans; [|eassumption]. eapply same_attrs_trans; eauto.
Qed.

(** Whatever the exchange does, the retry loop leaves the trader's
    attributes alone, only ever submits the order it was asked to submit,
    and a value it returns is one the exchange gave. *)
Lemma attempts_inv {A} (request_func : request A) n : forall last s r s',
  attempts T X n request_func last s = (r, s') ->
  same_attrs s s' /\
  (exists k, submitted (proc s') =
             submitted (proc s) ++ concat (replicate k (order_params request_func))) /\
  (forall a, r = Returns a -> exists k, X A k request_func = Returns a).
Proof.
  induction n as [|n IH]; intros last s r s' H.
  - cbn in H. apply raise_inv in H as [-> ->].
    split; [apply same_attrs_refl|]. split; [|discriminate].
    exists 0%nat. cbn. rewrite app_nil_r. reflexivity.
  - destruct (X A (calls (proc s)) request_func) as [a|e] eqn:Hx.
    + rewrite (attempts_success _ _ _ _ _ Hx) in H.
      destruct (on_process (call X request_func) s) as [r0 s0] eqn:Hcall.
      apply call_inv in Hcall as (_ & Ha0 & _ & Hs0).
      cbn in H. injection H as <- <-.
      split; [assumption|]. split.
      * exists 1%nat. cbn. rewrite app_nil_r. assumption.
      * intros a' Ha'. injection Ha' as <-. eauto.
    + destruct (has_code e (-4059)) eqn:Hp.
      * rewrite (attempts_permanent _ _ _ _ _ Hx Hp) in H.
        destruct (on_process (call X request_func) s) as [r0 s0] eqn:Hcall.
        apply call_inv in Hcall as (_ & Ha0 & _ & Hs0).
        cbn in H. injection H as <- <-.
        split; [assumption|]. split; [|discriminate].
        exists 1%nat. cbn. rewrite app_nil_r. assumption.
      * assert (Hnext : exists last' s1,
                  attempts T X (S n) request_func last s =
                    attempts T X n request_func last' s1 /\
                  same_attrs s s1 /\
                  submitted (proc s1) = submitted (proc s) ++ order_params request_func).
        { destruct (has_code e 1021) eqn:Hk.
          - destruct (attempts_clock_skew n request_func last s e Hx Hk)
              as (s1 & Heq & Ha & _ & Hs). eauto 6.
          - destruct (attempts_transient n request_func last s e Hx (conj Hp Hk))
              as (s1 & Heq & Ha & _ & Hs). eauto 6. }
        destruct Hnext as (last' & s1 & Heq & Ha1 & Hs1).
        rewrite Heq in H. apply IH in H as (Ha & [k Hs] & Hret).
        split; [eapply same_attrs_trans; eauto|]. split; [|assumption].
        exists (S k). rewrite Hs, Hs1. cbn. rewrite app_assoc. reflexivity.
Qed.

Lemma safe_request_inv {A} (request_func : request A) s r s' :
  safe_request T X request_func s = (r, s') ->
  same_attrs s s' /\
  (exists k, submitted (proc s') =
             submitted (proc s) ++ concat (replicate k (order_params request_func))) /\
  (forall a, r = Returns a -> exists k, X A k request_func = Returns a).
Proof.
  unfold safe_request. rewrite bind_get_state. apply attempts_inv.
Qed.

Lemma get_position_inv symbol s r s' :
  get_position T X symbol s = (r, s') ->
  (exists o, r = Returns o) /\ same_attrs s s'.
Proof.
  unfold get_position. intros H.
  apply try_catch_inv in H as [(o & H & ->) | (e & s1 & H & Hh)].
  - split; [eauto|].
    apply bind_returns_inv in H as (positions & s1 & Hreq & H).
    apply ret_inv in H as [_ ->]. apply safe_request_inv in Hreq as (Ha & _). assumption.
  - apply ret_inv in Hh as [-> ->]. split; [eauto|].
    apply bind_inv in H as [(positions & s2 & Hreq & H) | (e' & Hreq & _)].
    + apply ret_inv in H as [H _]. discriminate.
    + apply safe_request_inv in Hreq as (Ha & _). assumption.
Qed.

Lemma cancel_each_inv symbol open_orders : forall s r s',
  cancel_each T X symbol open_orders s = (r, s') ->
  r = Returns tt /\ same_attrs s s'.
Proof.
  induction open_orders as [|order rest IH]; intros s r s' H; cbn [cancel_each] in H.
  - apply ret_inv in H as [-> ->]. split; [reflexivity | apply same_attrs_refl].
  - assert (Hone : forall u s1,
      (if String.eqb (upper (order_type order)) "STOP_MARKET" || reduceOnly order
       then try_catch (safe_request T X (futures_cancel_order symbol (orderId order)))
                      (fun _ => ret tt)
       else ret tt) s = (u, s1) -> u = Returns tt /\ same_attrs s s1).
    { intros u s1 Hu. destruct (_ || _).
      - apply try_catch_inv in Hu as [([] & Hreq & ->) | (e & s2 & Hreq & Hh)].
        + apply safe_request_inv in Hreq as (Ha & _). auto.
        + apply ret_inv in Hh as [-> ->].
          apply safe_request_inv in Hreq as (Ha & _). auto.
      - apply ret_inv in Hu as [-> ->]. split; [reflexivity | apply same_attrs_refl]. }
    apply bind_inv in H as [(u & s1 & H1 & H) | (e & H1 & _)].
    + apply Hone in H1 as [_ Ha1]. apply IH in H as [-> Ha].
      split; [reflexivity | eapply same_attrs_trans; eauto].
    + apply Hone in H1 as [H1 _]. discriminate.
Qed.

(** Cancelling never raises; the record of the symbol is dropped when the
    open orders could be listed, and kept otherwise. *)
Lemma cancel_associated_orders_inv symbol s r s' :
  cancel_associated_orders T X symbol s = (r, s') ->
  r = Returns tt /\
  max_retries s' = max_retries s /\ retry_delay s' = retry_delay s /\
  (order_relations s' = order_relations s \/
   order_relations s' = delete symbol (order_relations s)).
Proof.
  unfold cancel_associated_orders. intros H.
  apply try_catch_inv in H as [([] & H & ->) | (e & s1 & H & Hh)].
  - split; [reflexivity|].
    apply bind_returns_inv in H as (orders & s1 & Hreq & H).
    apply safe_request_inv in Hreq as ((Hr1 & Hm1 & Hd1) & _).
    apply bind_returns_inv in H as (u & s2 & Hcancel & H).
    apply cancel_each_inv in Hcancel as (_ & Hr2 & Hm2 & Hd2).
    inversion H; subst; clear H. cbn.
    repeat split; try congruence. right. congruence.
  - apply ret_inv in Hh as [-> ->]. split; [reflexivity|].
    apply bind_inv in H as [(orders & s2 & Hreq & H) | (e' & Hreq & _)].
    + apply safe_request_inv in Hreq as ((Hr1 & Hm1 & Hd1) & _).
      apply bind_inv in H as [(u & s3 & Hcancel & H) | (e' & Hcancel & _)].
      * inversion H.
      * apply cancel_each_inv in Hcancel as (Hc & _). discriminate.
    + apply safe_request_inv in Hreq as ((Hr1 & Hm1 & Hd1) & _). auto.
Qed.

Lemma stop_loss_ids_track symbol order_id relations :
  stop_loss_ids (track_stop_loss symbol order_id relations) symbol = [order_id].
Proof.
  unfold stop_loss_ids, track_stop_loss.
  rewrite lookup_insert_eq, lookup_insert_eq. reflexivity.
Qed.

Lemma stop_loss_ids_at_most_one (relations : gmap string (gmap string Z)) symbol :
  (length (stop_loss_ids relations symbol) <= 1)%nat.
Proof.
  unfold stop_loss_ids. destruct (relations !! symbol) as [record|]; cbn; [|lia].
  destruct (record !! "stop_loss"); cbn; lia.
Qed.

(** The last steps of both stop-loss methods: place the order and, when
    it is returned, record its id. *)
Lemma set_stop_loss_inv symbol entry_price kline s order s' :
  set_stop_loss T X symbol entry_price kline s = (Returns (Some order), s') ->
  exists relations, order_relations s' = track_stop_loss symbol (orderId order) relations.
Proof.
  unfold set_stop_loss. intros H.
  apply bind_returns_inv in H as (position & s1 & _ & H).
  destruct position as [position|]; [|apply ret_inv in H as [H _]; discriminate].
  destruct (positionAmt position =? 0)%float; [apply ret_inv in H as [H _]; discriminate|].
  apply bind_returns_inv in H as (infos & s2 & _ & H).
  destruct (lookup_by info_symbol symbol infos) as [symbol_info|];
    [|apply ret_inv in H as [H _]; discriminate].
  apply bind_returns_inv in H as (k & s3 & _ & H).
  apply bind_returns_inv in H as (u & s4 & _ & H).
  apply try_catch_inv in H as [(o & H & Ho) | (e & s5 & _ & Hh)];
    [|apply ret_inv in Hh as [Hh _]; discriminate].
  injection Ho as <-.
  apply bind_returns_inv in H as (order' & s5 & Hreq & H).
  apply safe_request_inv in Hreq as ((Hr & _) & _).
  apply bind_returns_inv in H as (u' & s6 & Hmod & H).
  inversion Hmod; subst; clear Hmod.
  apply ret_inv in H as [H ->]. injection H as <-.
  cbn. eauto.
Qed.

Lemma update_stop_loss_inv symbol entry_price s order s' :
  update_stop_loss T X symbol entry_price s = (Returns (Some order), s') ->
  exists relations, order_relations s' = track_stop_loss symbol (orderId order) relations.
Proof.
  unfold update_stop_loss. intros H.
  apply try_catch_inv in H as [(o & H & Ho) | (e & s0 & _ & Hh)];
    [|apply ret_inv in Hh as [Hh _]; discriminate].
  injection Ho as <-.
  apply bind_returns_inv in H as (position & s1 & _ & H).
  destruct position as [position|]; [|apply ret_inv in H as [H _]; discriminate].
  destruct (positionAmt position =? 0)%float; [apply ret_inv in H as [H _]; discriminate|].
  apply bind_returns_inv in H as (hour_kline & s2 & _ & H).
  destruct hour_kline as [hour_kline|]; [|apply ret_inv in H as [H _]; discriminate].
  destruct (1 <=? price_change_pct hour_kline)%float;
    [|apply ret_inv in H as [H _]; discriminate].
  apply bind_returns_inv in H as (infos & s3 & _ & H).
  destruct (lookup_by info_symbol symbol infos) as [symbol_info|];
    [|apply ret_inv in H as [H _]; discriminate].
  apply bind_returns_inv in H as (price & s4 & _ & H).
  apply bind_returns_inv in H as (u & s5 & _ & H).
  apply try_catch_inv in H as [(o & H & Ho) | (e & s6 & _ & Hh)];
    [|apply ret_inv in Hh as [Hh _]; discriminate].
  injection Ho as <-.
  apply bind_returns_inv in H as (order' & s6 & _ & H).
  apply bind_returns_inv in H as (verified & s7 & _ & H).
  destruct (String.eqb (order_status verified) "NEW");
    [|apply ret_inv in H as [H _]; discriminate].
  apply bind_returns_inv in H as (u' & s8 & Hmod & H).
  inversion Hmod; subst; clear Hmod.
  apply ret_inv in H as [H ->]. injection H as <-.
  cbn. eauto.
Qed.

End WithWorld.

(** C3.  Whatever the attempt, a failure with error code -4059 is raised
    again at once, without a further call.  With [max_retries = 3],
    [safe_request] therefore makes exactly one call when the first attempt
    is rejected for good, and exactly three calls when three consecutive
    attempts fail with transient errors, after which it raises the error
    of the third attempt. *)
Theorem safe_request_attempt_count
    (T : TimeSync.env) (X : exchange) (A : Type) (request_func : request A) :
  (forall n last s e,
     X A (calls (proc s)) request_func = Raises e -> has_code e (-4059) = true ->
     exists s', attempts T X (S n) request_func last s = (Raises e, s') /\
                calls (proc s') = S (calls (proc s))) /\
  (forall s e,
     max_retries s = 3 ->
     X A (calls (proc s)) request_func = Raises e -> has_code e (-4059) = true ->
     exists s', safe_request T X request_func s = (Raises e, s') /\
                calls (proc s') = S (calls (proc s))) /\
  (forall s e1 e2 e3,
     max_retries s = 3 ->
     X A (calls (proc s)) request_func = Raises e1 ->
     X A (S (calls (proc s))) request_func = Raises e2 ->
     X A (S (S (calls (proc s)))) request_func = Raises e3 ->
     transient e1 -> transient e2 -> transient e3 ->
     exists s', safe_request T X request_func s = (Raises e3, s') /\
                calls (proc s') = S (S (S (calls (proc s))))).
Proof.
  assert (Hperm : forall n last s e,
     X A (calls (proc s)) request_func = Raises e -> has_code e (-4059) = true ->
     exists s', attempts T X (S n) request_func last s = (Raises e, s') /\
                calls (proc s') = S (calls (proc s))).
  { intros n last s e Hx Hp. rewrite (attempts_permanent T X n request_func last s e Hx Hp).
    eexists. split; [reflexivity|]. reflexivity. }
  split; [exact Hperm|]. split.
  - intros s e Hmax Hx Hp. unfold safe_request. rewrite bind_get_state, Hmax.
    change (Z.to_nat 3) with 3%nat. apply Hperm; assumption.
  - intros s e1 e2 e3 Hmax H1 H2 H3 Ht1 Ht2 Ht3.
    unfold safe_request. rewrite bind_get_state, Hmax. change (Z.to_nat 3) with 3%nat.
    destruct (attempts_transient T X 2 request_func None s e1 H1 Ht1)
      as (s1 & -> & _ & Hc1 & _).
    rewrite <- Hc1 in H2.
    destruct (attempts_transient T X 1 request_func (Some e1) s1 e2 H2 Ht2)
      as (s2 & -> & _ & Hc2 & _).
    rewrite <- Hc1, <- Hc2 in H3.
    destruct (attempts_transient T X 0 request_func (Some e2) s2 e3 H3 Ht3)
      as (s3 & -> & _ & Hc3 & _).
    exists s3. split; [reflexivity | congruence].
Qed.

Lemma safe_request_attempt_count_witness :
  (exists s', attempts TimeSync.env_down (failing position_side_error) 1
                futures_position_information None init = (Raises position_side_error, s') /\
              calls (proc s') = 1%nat) /\
  (exists s', safe_request TimeSync.env_down (failing position_side_error)
                futures_position_information init = (Raises position_side_error, s') /\
              calls (proc s') = 1%nat) /\
  (exists s', safe_request TimeSync.env_down (failing internal_error)
                futures_position_information init = (Raises internal_error, s') /\
              calls (proc s') = 3%nat).
Proof.
  split; [|split].
  - apply (proj1 (safe_request_attempt_count TimeSync.env_down (failing position_side_error)
                    _ futures_position_information) 1%nat None init position_side_error);
      reflexivity.
  - apply (proj1 (proj2 (safe_request_attempt_count TimeSync.env_down
                           (failing position_side_error) _ futures_position_information))
             init position_side_error);
      reflexivity.
  - apply (proj2 (proj2 (safe_request_attempt_count TimeSync.env_down
                           (failing internal_error) _ futures_position_information))
             init internal_error internal_error internal_error);
      try reflexivity; split; reflexivity.
Defined.

(** C10.  With [max_retries = 3], when all three attempts fail with error
    code 1021 no error is ever recorded, and [safe_request] raises the
    generic "unknown request error" instead of the 1021 error. *)
Theorem safe_request_unknown_error
    (T : TimeSync.env) (X : exchange) (A : Type) (request_func : request A)
    (s : state) (e1 e2 e3 : PyExc) :
  max_retries s = 3 ->
  X A (calls (proc s)) request_func = Raises e1 ->
  X A (S (calls (proc s))) request_func = Raises e2 ->
  X A (S (S (calls (proc s)))) request_func = Raises e3 ->
  clock_skew e1 -> clock_skew e2 -> clock_skew e3 ->
  exists s', safe_request T X request_func s = (Raises unknown_request_error, s') /\
             calls (proc s') = S (S (S (calls (proc s)))) /\
             unknown_request_error <> e3.
Proof.
  intros Hmax H1 H2 H3 Hk1 Hk2 Hk3.
  unfold safe_request. rewrite bind_get_state, Hmax. change (Z.to_nat 3) with 3%nat.
  destruct (attempts_clock_skew T X 2 request_func None s e1 H1 Hk1)
    as (s1 & -> & _ & Hc1 & _).
  rewrite <- Hc1 in H2.
  destruct (attempts_clock_skew T X 1 request_func None s1 e2 H2 Hk2)
    as (s2 & -> & _ & Hc2 & _).
  rewrite <- Hc1, <- Hc2 in H3.
  destruct (attempts_clock_skew T X 0 request_func None s2 e3 H3 Hk3)
    as (s3 & -> & _ & Hc3 & _).
  exists s3. split; [reflexivity|]. split; [congruence|].
  intros <-. discriminate Hk3.
Qed.

Lemma safe_request_unknown_error_witness :
  exists s', safe_request TimeSync.env_down (failing recv_window_error)
               futures_position_information init = (Raises unknown_request_error, s') /\
             calls (proc s') = 3%nat /\
             unknown_request_error <> recv_window_error.
Proof.
  apply (safe_request_unknown_error TimeSync.env_down (failing recv_window_error)
           _ futures_position_information init
           recv_window_error recv_window_error recv_window_error);
    reflexivity.
Defined.

(** *** Comparisons of floats *)

Lemma SFcompare_antisym x y : SFcompare y x = option_map CompOpp (SFcompare x y).
Proof.
  destruct x as [s1|s1| |s1 m1 e1], y as [s2|s2| |s2 m2 e2]; cbn; try reflexivity;
    try (destruct s1, s2; reflexivity); try (destruct s1; reflexivity);
    try (destruct s2; reflexivity).
  destruct s1, s2; cbn; try reflexivity;
    rewrite (Z.compare_antisym e1 e2); destruct (e1 ?= e2) eqn:He; cbn; try reflexivity;
    change (Pos.compare_cont Eq m2 m1) with (m2 ?= m1)%positive;
    change (Pos.compare_cont Eq m1 m2) with (m1 ?= m2)%positive;
    rewrite (Pos.compare_antisym m1 m2); destruct (m1 ?= m2)%positive; reflexivity.
Qed.

(** Two numbers compare. *)
Lemma number_compare x y :
  (x =? x)%float = true -> (y =? y)%float = true ->
  exists c, SFcompare (Prim2SF x) (Prim2SF y) = Some c.
Proof.
  rewrite !FloatAxioms.eqb_spec. unfold SFeqb.
  destruct (Prim2SF x) as [s1|s1| |s1 m1 e1], (Prim2SF y) as [s2|s2| |s2 m2 e2];
    cbn; try discriminate; eauto.
Qed.

(** What is below something is a number. *)
Lemma ltb_number a c : (a <? c)%float = true -> (a =? a)%float = true.
Proof.
  rewrite FloatAxioms.ltb_spec, FloatAxioms.eqb_spec. unfold SFltb, SFeqb.
  assert (H : SFcompare (Prim2SF a) (Prim2SF a) = None \/
              SFcompare (Prim2SF a) (Prim2SF a) = Some Eq).
  { destruct (Prim2SF a) as [s|s| |s m e]; cbn; auto.
    - destruct s; auto.
    - destruct s; rewrite Z.compare_refl;
        change (Pos.compare_cont Eq m m) with (m ?= m)%positive;
        rewrite Pos.compare_refl; auto. }
  destruct H as [H|H]; rewrite H; [|reflexivity].
  destruct (Prim2SF a) as [s1|s1| |s1 m1 e1]; cbn in *; discriminate.
Qed.

(** On numbers, [a < b] is the negation of [b <= a]. *)
Lemma ltb_negb_leb a b :
  (a =? a)%float = true -> (b =? b)%float = true ->
  (a <? b)%float = negb (b <=? a)%float.
Proof.
  intros Ha Hb. destruct (number_compare a b Ha Hb) as [c Hc].
  rewrite FloatAxioms.ltb_spec, FloatAxioms.leb_spec. unfold SFltb, SFleb.
  rewrite (SFcompare_antisym (Prim2SF a) (Prim2SF b)), Hc. destruct c; reflexivity.
Qed.

Lemma ltb_leb a b : (a <? b)%float = true -> (a <=? b)%float = true.
Proof.
  rewrite FloatAxioms.ltb_spec, FloatAxioms.leb_spec. unfold SFltb, SFleb.
  destruct (SFcompare (Prim2SF a) (Prim2SF b)) as [[]|]; congruence.
Qed.

Lemma leb_refl_number a : (a =? a)%float = true -> (a <=? a)%float = true.
Proof.
  rewrite FloatAxioms.leb_spec, FloatAxioms.eqb_spec. unfold SFleb, SFeqb.
  destruct (SFcompare (Prim2SF a) (Prim2SF a)) as [[]|]; congruence.
Qed.

(** Below a common bound, the builtin [max] gives the moving average that
    is not below the other. *)
Lemma py_max_not_below (k : Kline) :
  (ma_60 k <? close k)%float = true -> (ma_20 k <? close k)%float = true ->
  py_max (ma_20 k) (ma_60 k) = maxMA k.
Proof.
  intros H60 H20. unfold py_max, maxMA.
  rewrite (ltb_negb_leb (ma_20 k) (ma_60 k)) by eauto using ltb_number.
  destruct (ma_60 k <=? ma_20 k)%float; reflexivity.
Qed.

(** C2.  [check_open_long_signal] is true exactly when the four conjuncts
    hold, the fourth measured from the larger of the two moving averages:
    on a populated candle [maxMA] is one of the two and neither is above
    it.  For open=100, close=102, low=97, ma20=99, ma60=98 the three
    percentages are 2.0, 3.0 and 3.03 and the signal fires; with the close
    at 112 it does not.  With the averages at 91 and 101, in either order,
    the signal fires on the one percent above the larger, though the close
    is twelve percent above the smaller. *)
Theorem check_open_long_signal_iff_fire :
  (forall k : Kline, check_open_long_signal (Some k) = true <-> fire k) /\
  (forall k : Kline, populated k ->
     (ma_20 k <=? maxMA k)%float = true /\ (ma_60 k <=? maxMA k)%float = true /\
     (maxMA k = ma_20 k \/ maxMA k = ma_60 k)) /\
  check_open_long_signal None = false /\
  (populated example_candle /\
   (priceChangePct example_candle =? 2)%float = true /\
   (openLowPct example_candle =? 3)%float = true /\
   (3.03 <=? aboveMAPct example_candle)%float = true /\
   (aboveMAPct example_candle <? 3.031)%float = true /\
   check_open_long_signal (Some example_candle) = true) /\
  ((priceChangePct example_candle_112 =? 12)%float = true /\
   check_open_long_signal (Some example_candle_112) = false) /\
  (populated candle_ma60_leads /\
   check_open_long_signal (Some candle_ma60_leads) = true /\
   (aboveMAPct candle_ma60_leads <? 1)%float = true /\
   (11 <=? abovePct candle_ma60_leads (ma_20 candle_ma60_leads))%float = true) /\
  (populated candle_ma20_leads /\
   check_open_long_signal (Some candle_ma20_leads) = true /\
   (aboveMAPct candle_ma20_leads <? 1)%float = true /\
   (11 <=? abovePct candle_ma20_leads (ma_60 candle_ma20_leads))%float = true).
Proof.
  split; [|split; [|repeat split; vm_compute; reflexivity]].
  - intros k. unfold fire, aboveMAPct, priceChangePct, openLowPct. split.
    + intros H. cbn [check_open_long_signal] in H. rewrite !andb_true_iff in H.
      destruct H as ((((((H1 & H2) & H60) & H20) & H3) & H4) & H5).
      rewrite (py_max_not_below k H60 H20) in H4, H5. tauto.
    + intros ((H1 & H2) & (H20 & H60) & H3 & H4 & H5).
      cbn [check_open_long_signal]. rewrite (py_max_not_below k H60 H20).
      rewrite !andb_true_iff. tauto.
  - intros k [H20 H60]. unfold maxMA.
    destruct (ma_60 k <=? ma_20 k)%float eqn:Hle.
    + split; [apply leb_refl_number; assumption|]. split; [assumption | left; reflexivity].
    + split; [|split; [apply leb_refl_number; assumption | right; reflexivity]].
      apply ltb_leb. rewrite (ltb_negb_leb _ _ H20 H60), Hle. reflexivity.
Qed.

(** [calculate_quantity] never raises.  When it
    returns a quantity, the instrument has a LOT_SIZE filter and the
    quantity is what formatting gives from
    [round(raw / step) * step], with [raw = usdt_amount * leverage / price]:
    the (floating-point) product of an integer and the step size, which is
    not below the minimum quantity.  The two checks are made BEFORE the
    formatting to the instrument's precision. *)
Theorem calculate_quantity_checked_before_formatting
    (T : TimeSync.env) (X : exchange) (symbol : string) (usdt_amount leverage : float)
    (s : state) :
  exists o s',
    calculate_quantity T X symbol usdt_amount leverage s = (Returns o, s') /\
    forall q, o = Some q ->
      exists price infos symbol_info lot n k1 k2,
        X float k1 (futures_symbol_ticker symbol) = Returns price /\
        X (list SymbolInfo) k2 futures_exchange_info = Returns infos /\
        lookup_by info_symbol symbol infos = Some symbol_info /\
        lookup_by filterType "LOT_SIZE" (filters symbol_info) = Some lot /\
        py_round (usdt_amount * leverage / price / stepSize lot)%float = Some n /\
        (float_of_Z n * stepSize lot <? minQty lot)%float = false /\
        formatted (float_of_Z n * stepSize lot)%float (quantityPrecision symbol_info) q.
Proof.
  destruct (calculate_quantity T X symbol usdt_amount leverage s) as [r s'] eqn:H.
  unfold calculate_quantity in H.
  apply try_catch_inv in H as [(o & H & ->) | (e & s1 & H & Hh)].
  2:{ apply ret_inv in Hh as [-> ->]. eexists _, _. split; [reflexivity | discriminate]. }
  exists o, s'. split; [reflexivity|].
  apply bind_returns_inv in H as (price & s1 & Hprice & H).
  apply safe_request_inv in Hprice as (_ & _ & Hk1).
  destruct (Hk1 price eq_refl) as [k1 Hx1].
  apply bind_returns_inv in H as (raw & s2 & Hraw & H).
  apply py_div_inv in Hraw as [-> ->].
  apply bind_returns_inv in H as (infos & s3 & Hinfos & H).
  apply safe_request_inv in Hinfos as (_ & _ & Hk2).
  destruct (Hk2 infos eq_refl) as [k2 Hx2].
  destruct (lookup_by info_symbol symbol infos) as [symbol_info|] eqn:Hinfo.
  2:{ apply ret_inv in H as [H _]. injection H as ->. discriminate. }
  destruct (lookup_by filterType "LOT_SIZE" (filters symbol_info)) as [lot|] eqn:Hlot.
  2:{ apply ret_inv in H as [H _]. injection H as ->. discriminate. }
  apply bind_returns_inv in H as (ratio & s4 & Hratio & H).
  apply py_div_inv in Hratio as [-> ->].
  apply bind_returns_inv in H as (n & s5 & Hn & H).
  apply of_option_returns_inv in Hn as [Hn ->].
  destruct (float_of_Z n * stepSize lot <? minQty lot)%float eqn:Hmin.
  { apply ret_inv in H as [H _]. injection H as ->. discriminate. }
  apply bind_returns_inv in H as (q' & s6 & Hfmt & H).
  apply ret_inv in H as [H _]. injection H as ->.
  intros q Hsome. injection Hsome as <-.
  exists price, infos, symbol_info, lot, n, k1, k2.
  repeat (split; [assumption|]).
  apply try_catch_inv in Hfmt as [(a & Hfmt & Ha) | (e & s7 & Hfmt & Hfb)].
  - injection Ha as <-.
    apply bind_returns_inv in Hfmt as (p & s7 & Hp & Hfmt).
    apply of_option_returns_inv in Hp as [Hp ->].
    apply of_option_returns_inv in Hfmt as [Hfmt _].
    left. eauto.
  - apply of_option_returns_inv in Hfb as [Hfb _]. right. assumption.
Qed.

Lemma calculate_quantity_checked_before_formatting_witness :
  exists price infos symbol_info lot n k1 k2,
    milli_lots float k1 (futures_symbol_ticker "BTCUSDT") = Returns price /\
    milli_lots (list SymbolInfo) k2 futures_exchange_info = Returns infos /\
    lookup_by info_symbol "BTCUSDT" infos = Some symbol_info /\
    lookup_by filterType "LOT_SIZE" (filters symbol_info) = Some lot /\
    py_round (20 * 10 / price / stepSize lot)%float = Some n /\
    (float_of_Z n * stepSize lot <? minQty lot)%float = false /\
    formatted (float_of_Z n * stepSize lot)%float (quantityPrecision symbol_info) 0.003%float.
Proof.
  destruct (calculate_quantity_checked_before_formatting
              TimeSync.env_down milli_lots "BTCUSDT" 20 10 init) as (o & s' & Hrun & Hq).
  apply Hq.
  assert (Hval : fst (calculate_quantity TimeSync.env_down milli_lots "BTCUSDT" 20 10 init)
                 = Returns (Some 0.003%float)) by (vm_compute; reflexivity).
  rewrite Hrun in Hval. cbn in Hval. congruence.
Defined.

(** C1.  The function that is to give a quantity within the LOT_SIZE
    rules returns one outside them.  With lots of a quarter, a minimum of
    a quarter, quantities quoted to one decimal, a price of 1 and a margin
    of 0.25 at leverage 1, the size that passes the two checks is one
    step, 0.25; it is then formatted to "0.2", and 0.2 is returned: above
    zero and below the step size, so no multiple of it, and below the
    minimum quantity.  Quoted to two decimals, the same instrument gives
    0.25. *)
Theorem calculate_quantity_below_minimum :
  exists symbol_info lot q,
    quarter_lots _ 1%nat futures_exchange_info = Returns [symbol_info] /\
    quantityPrecision symbol_info = Some 1%nat /\
    lookup_by filterType "LOT_SIZE" (filters symbol_info) = Some lot /\
    stepSize lot = 0.25%float /\ minQty lot = 0.25%float /\
    py_round (0.25 * 1 / 1 / stepSize lot)%float = Some 1 /\
    (float_of_Z 1 * stepSize lot)%float = 0.25%float /\
    (float_of_Z 1 * stepSize lot <? minQty lot)%float = false /\
    format_f 0.25 1 = "0.2" /\
    fst (calculate_quantity TimeSync.env_down quarter_lots "BTCUSDT" 0.25 1 init)
      = Returns (Some q) /\
    q = 0.2%float /\
    (0 <? q)%float = true /\ (q <? stepSize lot)%float = true /\
    (q <? minQty lot)%float = true /\
    fst (calculate_quantity TimeSync.env_down quarter_lots_fine "BTCUSDT" 0.25 1 init)
      = Returns (Some 0.25%float).
Proof.
  exists (btc_info 0.25 0.25 1),
         {| filterType := "LOT_SIZE"; stepSize := 0.25; minQty := 0.25 |}, 0.2%float.
  repeat split; vm_compute; reflexivity.
Qed.

(** C5, as the code has it.  [order_relations] never holds more than one
    stop-loss id for a symbol.  After a call of [set_stop_loss] or
    [update_stop_loss] that returns an order, exactly one stop-loss id is
    recorded for the symbol: the id of that order. *)
Theorem stop_loss_recorded_when_placed
    (T : TimeSync.env) (X : exchange) (symbol : string) (entry_price : float) :
  (forall relations : gmap string (gmap string Z),
     (length (stop_loss_ids relations symbol) <= 1)%nat) /\
  (forall kline s order s',
     set_stop_loss T X symbol entry_price kline s = (Returns (Some order), s') ->
     stop_loss_ids (order_relations s') symbol = [orderId order]) /\
  (forall s order s',
     update_stop_loss T X symbol entry_price s = (Returns (Some order), s') ->
     stop_loss_ids (order_relations s') symbol = [orderId order]).
Proof.
  split; [|split].
  - intros relations. apply stop_loss_ids_at_most_one.
  - intros kline s order s' H.
    apply set_stop_loss_inv in H as [relations ->]. apply stop_loss_ids_track.
  - intros s order s' H.
    apply update_stop_loss_inv in H as [relations ->]. apply stop_loss_ids_track.
Qed.

Lemma stop_loss_recorded_when_placed_witness :
  stop_loss_ids
    (order_relations
       (snd (set_stop_loss TimeSync.env_down milli_lots "BTCUSDT" 100
               (Some example_candle) init))) "BTCUSDT" = [7001] /\
  stop_loss_ids
    (order_relations
       (snd (update_stop_loss TimeSync.env_down milli_lots "BTCUSDT" 100 init)))
    "BTCUSDT" = [7001].
Proof.
  split.
  - apply (proj1 (proj2 (stop_loss_recorded_when_placed TimeSync.env_down milli_lots
                           "BTCUSDT" 100))
             (Some example_candle) init
             {| orderId := 7001; order_type := "STOP_MARKET"; reduceOnly := false;
                order_status := "NEW" |}).
    vm_compute. reflexivity.
  - apply (proj2 (proj2 (stop_loss_recorded_when_placed TimeSync.env_down milli_lots
                           "BTCUSDT" 100))
             init
             {| orderId := 7001; order_type := "STOP_MARKET"; reduceOnly := false;
                order_status := "NEW" |}).
    vm_compute. reflexivity.
Defined.

(** C5, as stated, fails: with an open BTCUSDT position, [set_stop_loss]
    completes without any record when the exchange refuses the stop order,
    and [update_stop_loss] completes without any record when the last
    hourly candle gained less than one percent and none was recorded
    before. *)
Lemma stop_loss_record_missing :
  fst (get_position TimeSync.env_down refusing_stops "BTCUSDT" init)
    = Returns (Some btc_position) /\
  ~ claimed_one_record
      (set_stop_loss TimeSync.env_down refusing_stops "BTCUSDT" 100 (Some example_candle))
      "BTCUSDT" init /\
  fst (get_position TimeSync.env_down quiet_hour "BTCUSDT" init)
    = Returns (Some btc_position) /\
  ~ claimed_one_record
      (update_stop_loss TimeSync.env_down quiet_hour "BTCUSDT" 100) "BTCUSDT" init.
Proof.
  split; [vm_compute; reflexivity|]. split; [|split; [vm_compute; reflexivity|]].
  - intros Hclaim.
    specialize (Hclaim None
      (snd (set_stop_loss TimeSync.env_down refusing_stops "BTCUSDT" 100
              (Some example_candle) init))).
    assert (Hrun : set_stop_loss TimeSync.env_down refusing_stops "BTCUSDT" 100
                     (Some example_candle) init
                   = (Returns None,
                      snd (set_stop_loss TimeSync.env_down refusing_stops "BTCUSDT" 100
                             (Some example_candle) init)))
      by (vm_compute; reflexivity).
    apply Hclaim in Hrun. vm_compute in Hrun. discriminate.
  - intros Hclaim.
    specialize (Hclaim None
      (snd (update_stop_loss TimeSync.env_down quiet_hour "BTCUSDT" 100 init))).
    assert (Hrun : update_stop_loss TimeSync.env_down quiet_hour "BTCUSDT" 100 init
                   = (Returns None,
                      snd (update_stop_loss TimeSync.env_down quiet_hour "BTCUSDT" 100 init)))
      by (vm_compute; reflexivity).
    apply Hclaim in Hrun. vm_compute in Hrun. discriminate.
Qed.

End TraderFacts.

(** * Facts about binance_take_profit.py *)

Module MonitorFacts.
Import PyNum PyStr Binance Monitor.

Local Open Scope Z_scope.

Lemma same_monitor_refl s : same_monitor s s.
Proof. repeat split. Qed.

Lemma same_monitor_trans s1 s2 s3 :
  same_monitor s1 s2 -> same_monitor s2 s3 -> same_monitor s1 s3.
Proof. unfold same_monitor. intuition congruence. Qed.

Lemma quiet_refl s : quiet s s.
Proof. split; [apply same_monitor_refl | reflexivity]. Qed.

Lemma quiet_trans s1 s2 s3 : quiet s1 s2 -> quiet s2 s3 -> quiet s1 s3.
Proof.
  intros [Ha Hb] [Hc Hd]. split; [eapply same_monitor_trans; eauto | congruence].
Qed.

Lemma submits_refl params s : submits params s s.
Proof.
  split; [apply same_monitor_refl|]. exists 0%nat. cbn. rewrite app_nil_r. reflexivity.
Qed.

Lemma submits_trans params s1 s2 s3 :
  submits params s1 s2 -> submits params s2 s3 -> submits params s1 s3.
Proof.
  intros [Ha [k Hk]] [Hb [j Hj]]. split; [eapply same_monitor_trans; eauto|].
  exists (k + j)%nat. rewrite Hj, Hk, <- app_assoc, replicate_add, concat_app. reflexivity.
Qed.

Lemma quiet_submits params s s' : quiet s s' -> submits params s s'.
Proof.
  intros [Ha Hb]. split; [assumption|]. exists 0%nat. cbn. rewrite app_nil_r. assumption.
Qed.

Lemma submits_nil_quiet s s' : submits [] s s' -> quiet s s'.
Proof.
  intros [Ha [k Hk]]. split; [assumption|]. rewrite Hk.
  clear. induction k as [|k IH]; cbn; [apply app_nil_r | assumption].
Qed.

Lemma monitor_process_inv {A} (m : M process A) s r s' :
  on_process m s = (r, s') ->
  m (proc s) = (r, proc s') /\ same_monitor s s'.
Proof.
  unfold on_process. destruct (m (proc s)) as [r0 p] eqn:Hm.
  intros H; inversion H; subst. cbn. repeat split.
Qed.

Section WithWorld.
Variable T : TimeSync.env.
Variable X : exchange.

Lemma on_clock_quiet {A} (m : M TimeSync.state A) :
  preserves quiet (on_process (on_clock m)).
Proof.
  intros s r s' H. apply monitor_process_inv in H as [H Hsame]. split; [assumption|].
  unfold on_clock in H. destruct (m (clock (proc s))) as [r0 c].
  injection H as _ Hp. rewrite <- Hp. reflexivity.
Qed.

Lemma sleep_quiet seconds : preserves quiet (on_process (sleep seconds)).
Proof.
  intros s r s' H. apply monitor_process_inv in H as [H Hsame]. split; [assumption|].
  injection H as _ Hp. rewrite <- Hp. reflexivity.
Qed.

Lemma monitor_call_inv {A} (request_func : request A) s r s' :
  on_process (call X request_func) s = (r, s') ->
  r = X A (calls (proc s)) request_func /\ same_monitor s s' /\
  submitted (proc s') = submitted (proc s) ++ order_params request_func.
Proof.
  intros H. apply monitor_process_inv in H as [H Hsame].
  injection H as Hr Hp. rewrite <- Hp. cbn. auto.
Qed.

Lemma call_submits {A} (request_func : request A) :
  preserves (submits (order_params request_func)) (on_process (call X request_func)).
Proof.
  intros s r s' H. apply monitor_call_inv in H as (_ & Hsame & Hsub). split; [assumption|].
  exists 1%nat. cbn. rewrite app_nil_r. assumption.
Qed.

Lemma quiet_preserves_submits {B} params (m : M state B) :
  preserves quiet m -> preserves (submits params) m.
Proof. intros Hm s r s' H. apply quiet_submits. eapply Hm; eassumption. Qed.

Lemma try_request_submits {A} (request_func : request A) :
  preserves (submits (order_params request_func)) (try_request T X request_func).
Proof.
  set (R := submits (order_params request_func)).
  assert (Hrefl : forall s, R s s) by (intros; apply submits_refl).
  assert (Htrans : forall s1 s2 s3, R s1 s2 -> R s2 s3 -> R s1 s3)
    by (intros; eapply submits_trans; eauto).
  unfold try_request.
  apply preserves_bind; try assumption;
    [apply quiet_preserves_submits, on_clock_quiet|]. intros timestamp.
  apply preserves_bind; try assumption;
    [apply quiet_preserves_submits, on_clock_quiet|]. intros now.
  apply preserves_bind; try assumption; [|intros _; apply call_submits].
  destruct (_ <? _).
  - apply preserves_bind; try assumption;
      [apply quiet_preserves_submits, on_clock_quiet|].
    intros _. apply quiet_preserves_submits, on_clock_quiet.
  - apply preserves_ret; assumption.
Qed.

(** When the [try] block returns, the call was its last step. *)
Lemma try_request_returns {A} (request_func : request A) s a s' :
  try_request T X request_func s = (Returns a, s') ->
  (exists k, X A k request_func = Returns a) /\ same_monitor s s' /\
  submitted (proc s') = submitted (proc s) ++ order_params request_func.
Proof.
  unfold try_request. intros H.
  apply bind_returns_inv in H as (timestamp & s1 & H1 & H).
  apply on_clock_quiet in H1 as [Ha1 Hs1].
  apply bind_returns_inv in H as (now & s2 & H2 & H).
  apply on_clock_quiet in H2 as [Ha2 Hs2].
  apply bind_returns_inv in H as (t' & s3 & H3 & H).
  assert (Hq3 : quiet s2 s3).
  { destruct (_ <? _).
    - apply bind_returns_inv in H3 as (o & s4 & H4 & H3).
      apply on_clock_quiet in H4. apply on_clock_quiet in H3.
      eapply quiet_trans; eassumption.
    - apply ret_inv in H3 as [_ ->]. apply quiet_refl. }
  destruct Hq3 as [Ha3 Hs3].
  apply monitor_call_inv in H as (Hr & Ha & Hs).
  split; [eauto|]. split.
  - eapply same_monitor_trans; [|eassumption].
    eapply same_monitor_trans; [|eassumption].
    eapply same_monitor_trans; eassumption.
  - congruence.
Qed.

(** The retry loop only ever submits the order it was asked to submit. *)
Lemma attempts_submits {A} (request_func : request A) n : forall last,
  preserves (submits (order_params request_func)) (attempts T X n request_func last).
Proof.
  set (R := submits (order_params request_func)).
  assert (Hrefl : forall s, R s s) by (intros; apply submits_refl).
  assert (Htrans : forall s1 s2 s3, R s1 s2 -> R s2 s3 -> R s1 s3)
    by (intros; eapply submits_trans; eauto).
  induction n as [|n IH]; intros last; cbn [attempts].
  - apply preserves_raise; assumption.
  - apply preserves_try_catch; try assumption; [apply try_request_submits|].
    intros e. destruct (has_code e 1021).
    + apply preserves_bind; try assumption.
      * destruct (contains _ _); [apply preserves_ret; assumption|].
        destruct (contains _ _); [|apply preserves_ret; assumption].
        apply preserves_bind; try assumption;
          [apply quiet_preserves_submits, on_clock_quiet|].
        intros _. apply preserves_ret; assumption.
      * intros _. apply preserves_bind; try assumption;
          [apply quiet_preserves_submits, sleep_quiet|].
        intros _. apply IH.
    + destruct (_ || _).
      * apply preserves_bind; try assumption;
          [apply quiet_preserves_submits, on_clock_quiet|].
        intros _. apply preserves_bind; try assumption;
          [apply quiet_preserves_submits, sleep_quiet|].
        intros _. apply IH.
      * apply preserves_bind; try assumption;
          [apply quiet_preserves_submits, sleep_quiet|].
        intros _. apply IH.
Qed.

(** A value the retry loop returns is one the exchange gave, and the
    request was submitted at least once. *)
Lemma attempts_returns {A} (request_func : request A) n : forall last s a s',
  attempts T X n request_func last s = (Returns a, s') ->
  (exists k, X A k request_func = Returns a) /\
  exists j, submitted (proc s') =
            submitted (proc s) ++ concat (replicate (S j) (order_params request_func)).
Proof.
  induction n as [|n IH]; intros last s a s' H; cbn [attempts] in H.
  - apply raise_inv in H as [H _]. discriminate.
  - apply try_catch_inv in H as [(a' & H & Ha) | (e & s1 & Htry & H)].
    + injection Ha as <-. apply try_request_returns in H as (Hx & _ & Hs).
      split; [assumption|]. exists 0%nat. cbn. rewrite app_nil_r. assumption.
    + apply try_request_submits in Htry as [_ [k Hk]].
      assert (Hrest : exists last' s2,
                submitted (proc s2) = submitted (proc s1) /\
                attempts T X n request_func last' s2 = (Returns a, s')).
      { destruct (has_code e 1021).
        - apply bind_returns_inv in H as (u & s2 & H1 & H).
          assert (Hq : quiet s1 s2).
          { destruct (contains _ _); [apply ret_inv in H1 as [_ ->]; apply quiet_refl|].
            destruct (contains _ _); [|apply ret_inv in H1 as [_ ->]; apply quiet_refl].
            apply bind_returns_inv in H1 as (o & s3 & H1 & H2).
            apply ret_inv in H2 as [_ ->]. eapply on_clock_quiet; eassumption. }
          apply bind_returns_inv in H as (u' & s3 & H2 & H).
          apply sleep_quiet in H2 as [_ Hs3]. destruct Hq as [_ Hs2].
          exists last, s3. split; [congruence | assumption].
        - destruct (_ || _).
          + apply bind_returns_inv in H as (u & s2 & H1 & H).
            apply on_clock_quiet in H1 as [_ Hs2].
            apply bind_returns_inv in H as (u' & s3 & H2 & H).
            apply sleep_quiet in H2 as [_ Hs3].
            exists last, s3. split; [congruence | assumption].
          + apply bind_returns_inv in H as (u & s2 & H1 & H).
            apply sleep_quiet in H1 as [_ Hs2].
            exists (Some e), s2. split; [congruence | assumption]. }
      destruct Hrest as (last' & s2 & Hs2 & Hrest).
      apply IH in Hrest as (Hx & j & Hj). split; [assumption|].
      exists (k + j)%nat. rewrite Hj, Hs2, Hk, <- app_assoc.
      change (S (k + j)) with (S k + j)%nat.
      rewrite (Nat.add_comm (S k) j), Nat.add_succ_r, <- Nat.add_succ_l.
      rewrite (Nat.add_comm (S j) k), replicate_add, concat_app. reflexivity.
Qed.

Lemma safe_request_submits {A} (request_func : request A) :
  preserves (submits (order_params request_func)) (safe_request T X request_func).
Proof. apply attempts_submits. Qed.

Lemma safe_request_returns {A} (request_func : request A) s a s' :
  safe_request T X request_func s = (Returns a, s') ->
  (exists k, X A k request_func = Returns a) /\
  exists j, submitted (proc s') =
            submitted (proc s) ++ concat (replicate (S j) (order_params request_func)).
Proof. apply attempts_returns. Qed.

Lemma safe_request_quiet {A} (request_func : request A) :
  order_params request_func = [] -> preserves quiet (safe_request T X request_func).
Proof.
  intros Hnil s r s' H. apply submits_nil_quiet. rewrite <- Hnil.
  eapply safe_request_submits; eassumption.
Qed.

Lemma get_current_price_quiet symbol : preserves quiet (get_current_price T X symbol).
Proof.
  unfold get_current_price.
  apply preserves_try_catch; [apply quiet_trans| |].
  - apply preserves_bind; [apply quiet_trans | now apply safe_request_quiet |].
    intros price. apply preserves_ret, quiet_refl.
  - intros e. apply preserves_ret, quiet_refl.
Qed.

Lemma get_current_price_returns symbol s r s' :
  get_current_price T X symbol s = (r, s') -> exists o, r = Returns o.
Proof.
  unfold get_current_price. intros H.
  apply try_catch_inv in H as [(a & _ & ->) | (e & s1 & _ & H)]; [eauto|].
  apply ret_inv in H as [-> _]. eauto.
Qed.

Lemma get_positions_quiet : preserves quiet (get_positions T X).
Proof.
  unfold get_positions.
  apply preserves_try_catch; [apply quiet_trans| |].
  - apply preserves_bind; [apply quiet_trans | now apply safe_request_quiet |].
    intros positions. apply preserves_ret, quiet_refl.
  - intros e. apply preserves_ret, quiet_refl.
Qed.

Lemma concat_replicate_singleton {A} (x : A) k : concat (replicate k [x]) = replicate k x.
Proof. induction k as [|k IH]; cbn; [reflexivity | now rewrite IH]. Qed.

Lemma take_profit_half_position_inv symbol position s r s' :
  take_profit_half_position T X symbol position s = (r, s') ->
  exists b, r = Returns b /\
    ((b = false /\ quiet s s') \/
     (exists j, ordered X symbol position s s' j /\
        (b = false -> take_profit_executed s' = take_profit_executed s) /\
        (b = true -> (1 <= j)%nat /\
                     take_profit_executed s' = take_profit_executed s ∪ {[symbol]}))).
Proof.
  unfold take_profit_half_position. intros H.
  match type of H with try_catch ?body _ _ = _ => set (BODY := body) in * end.
  assert (Hbody : forall r0 s1, BODY s = (r0, s1) ->
    (r0 <> Returns true /\ quiet s s1) \/
    (exists j, ordered X symbol position s s1 j /\
       (r0 <> Returns true -> take_profit_executed s1 = take_profit_executed s) /\
       (r0 = Returns true -> (1 <= j)%nat /\
          take_profit_executed s1 = take_profit_executed s ∪ {[symbol]}))).
  { clear H. subst BODY. intros r0 s1 H.
    apply bind_inv in H as [(entry_price & s2 & H1 & H) | (e & H1 & ->)];
      apply of_option_inv in H1 as [-> _];
      [|left; split; [discriminate | apply quiet_refl]].
    apply bind_inv in H as [(current_price & s3 & H1 & H) | (e & H1 & ->)].
    2:{ apply get_current_price_returns in H1 as [o Ho]. discriminate. }
    apply get_current_price_quiet in H1 as Hq3. clear H1.
    destruct current_price as [current_price|].
    2:{ apply ret_inv in H as [-> ->]. left. split; [discriminate | assumption]. }
    apply bind_inv in H as [(infos & s4 & H1 & H) | (e & H1 & ->)].
    2:{ apply safe_request_quiet in H1; [|reflexivity].
        left. split; [discriminate | eapply quiet_trans; eassumption]. }
    pose proof (safe_request_quiet futures_exchange_info eq_refl _ _ _ H1) as Hq4.
    apply safe_request_returns in H1 as [[k Hk] _].
    assert (Hq : quiet s s4) by (eapply quiet_trans; eassumption).
    clear Hq3 Hq4.
    destruct (lookup_by info_symbol symbol infos) as [symbol_info|] eqn:Hinfo.
    2:{ apply ret_inv in H as [-> ->]. left. split; [discriminate | assumption]. }
    apply bind_inv in H as [(checked & s5 & H1 & H) | (e & H1 & ->)].
    2:{ left. split; [discriminate|].
        destruct (lookup_by filterType "LOT_SIZE" (filters symbol_info)) as [f|].
        - apply bind_inv in H1 as [(ratio & s6 & H1 & H2) | (e' & H1 & _)].
          + apply py_div_inv in H1 as [_ ->].
            apply bind_inv in H2 as [(n & s7 & H2 & H3) | (e' & H2 & _)].
            * apply of_option_inv in H2 as [-> _].
              destruct (_ <? _)%float; apply ret_inv in H3 as [_ ->]; assumption.
            * apply of_option_inv in H2 as [-> _]. assumption.
          + unfold py_div in H1. destruct (_ =? _)%float.
            * apply raise_inv in H1 as [_ ->]. assumption.
            * apply ret_inv in H1 as [_ ->]. assumption.
        - apply ret_inv in H1 as [_ ->]. assumption. }
    assert (Hchecked : s5 = s4 /\
              match checked with
              | Some q => sized (abs (positionAmt position) / 2)%float
                            (lookup_by filterType "LOT_SIZE" (filters symbol_info)) q
              | None => True
              end).
    { destruct (lookup_by filterType "LOT_SIZE" (filters symbol_info)) as [f|].
      - apply bind_returns_inv in H1 as (ratio & s6 & H1 & H2).
        apply py_div_inv in H1 as [-> ->].
        apply bind_returns_inv in H2 as (n & s7 & H2 & H3).
        apply of_option_returns_inv in H2 as [Hn ->].
        destruct (_ <? _)%float eqn:Hmin; apply ret_inv in H3 as [H3 ->];
          injection H3 as ->; split; auto.
        cbn. eauto.
      - apply ret_inv in H1 as [H1 ->]. injection H1 as ->. split; [reflexivity|].
        reflexivity. }
    destruct Hchecked as [-> Hsized]. clear H1.
    destruct checked as [q|].
    2:{ apply ret_inv in H as [-> ->]. left. split; [discriminate | assumption]. }
    destruct Hq as [Hsame Hsub].
    assert (Hordered : forall s6 j,
      submitted (proc s6) =
        submitted (proc s4) ++
        concat (replicate j (order_params
                  (futures_create_order (close_order symbol (closing_side position) q)))) ->
      ordered X symbol position s s6 j).
    { intros s6 j Hj. exists infos, symbol_info, q, k. repeat split; try assumption.
      rewrite Hj, Hsub. cbn [order_params]. rewrite concat_replicate_singleton.
      reflexivity. }
    right.
    apply bind_inv in H as [(order & s6 & H1 & H) | (e & H1 & ->)].
    2:{ apply safe_request_submits in H1 as [Hsame6 [j Hj]].
        exists j. split; [apply Hordered; exact Hj|]. split; [|discriminate].
        intros _. destruct Hsame6 as [-> _]. apply Hsame. }
    pose proof (safe_request_submits _ _ _ _ H1) as [Hsame6 _].
    apply safe_request_returns in H1 as [_ [j Hj]].
    apply Hordered in Hj.
    assert (Hmemo6 : take_profit_executed s6 = take_profit_executed s).
    { destruct Hsame6 as [-> _]. apply Hsame. }
    exists (S j).
    apply bind_inv in H as [(profit & s7 & H1 & H) | (e & H1 & ->)].
    2:{ assert (s1 = s6) as ->.
        { destruct (_ <? _)%float;
            (apply bind_inv in H1 as [(x & s8 & H1 & H2) | (e' & H1 & _)];
             [apply py_div_inv in H1 as [_ ->]; apply ret_inv in H2 as [_ ->]; reflexivity
             | unfold py_div in H1; destruct (_ =? _)%float;
               [apply raise_inv in H1 as [_ ->] | apply ret_inv in H1 as [_ ->]];
               reflexivity]). }
        split; [assumption|]. split; [intros _; assumption | discriminate]. }
    assert (s7 = s6) as ->.
    { destruct (_ <? _)%float;
        apply bind_returns_inv in H1 as (x & s8 & H1 & H2);
        apply py_div_inv in H1 as [_ ->]; apply ret_inv in H2 as [_ ->]; reflexivity. }
    unfold bind, modify, ret in H. injection H as <- <-.
    split; [exact Hj|].
    split; [intros Hne; contradiction Hne; reflexivity|].
    intros _. split; [lia|]. cbn. rewrite Hmemo6. reflexivity. }
  apply try_catch_inv in H as [(b & H & ->) | (e & s1 & H & Hh)].
  - exists b. split; [reflexivity|].
    apply Hbody in H as [[Hne Hq] | (j & Hord & Hf & Ht)].
    + left. split; [|assumption]. destruct b; [contradiction Hne; reflexivity | reflexivity].
    + right. exists j. split; [assumption|]. split.
      * intros ->. apply Hf. discriminate.
      * intros ->. apply Ht. reflexivity.
  - apply ret_inv in Hh as [-> ->]. exists false. split; [reflexivity|].
    apply Hbody in H as [[Hne Hq] | (j & Hord & Hf & Ht)].
    + left. split; [reflexivity | assumption].
    + right. exists j. split; [assumption|]. split.
      * intros _. apply Hf. discriminate.
      * discriminate.
Qed.

Lemma no_order_for_refl symbol s : no_order_for symbol s s.
Proof. split; [auto|]. exists []. rewrite app_nil_r. auto. Qed.

Lemma no_order_for_trans symbol s1 s2 s3 :
  no_order_for symbol s1 s2 -> no_order_for symbol s2 s3 -> no_order_for symbol s1 s3.
Proof.
  intros [Ha (n1 & Hs1 & Hf1)] [Hb (n2 & Hs2 & Hf2)]. split; [auto|].
  exists (n1 ++ n2). split; [rewrite Hs2, Hs1, app_assoc; reflexivity|].
  apply Forall_app. auto.
Qed.

Lemma quiet_no_order_for symbol s s' : quiet s s' -> no_order_for symbol s s'.
Proof.
  intros [[Hmemo _] Hsub]. split; [rewrite Hmemo; auto|].
  exists []. rewrite app_nil_r. auto.
Qed.

(** A half-close of another symbol submits nothing for [symbol]. *)
Lemma take_profit_half_position_other symbol other position :
  other <> symbol ->
  preserves (no_order_for symbol) (take_profit_half_position T X other position).
Proof.
  intros Hne s r s' H.
  apply take_profit_half_position_inv in H as (b & _ & [[_ Hq] | (j & Hord & Hf & Ht)]).
  - apply quiet_no_order_for. assumption.
  - destruct Hord as (infos & symbol_info & q & k & _ & _ & _ & Hsub). split.
    + destruct b.
      * destruct (Ht eq_refl) as [_ ->]. intros Hin. apply elem_of_union. auto.
      * rewrite (Hf eq_refl). auto.
    + eexists. split; [exact Hsub|]. apply Forall_replicate. cbn. assumption.
Qed.

(** The loop over the positions submits nothing for a symbol that is in
    the memo when the loop starts, or that no listed position has. *)
Lemma check_each_suppressed symbol positions : forall s r s',
  check_each T X positions s = (r, s') ->
  symbol ∈ take_profit_executed s \/ symbol ∉ List.map pos_symbol positions ->
  no_order_for symbol s s'.
Proof.
  induction positions as [|position rest IH]; intros s r s' H Hpre; cbn [check_each] in H.
  - apply ret_inv in H as [_ ->]. apply no_order_for_refl.
  - apply bind_inv in H as [(entry_price & s0 & H0 & H) | (e & H0 & _)];
      apply of_option_inv in H0 as [-> _]; [|apply no_order_for_refl].
    rewrite bind_get_state in H.
    assert (Hrest : symbol ∈ take_profit_executed s \/ symbol ∉ List.map pos_symbol rest).
    { destruct Hpre as [Hin | Hout]; [auto|]. right. cbn in Hout.
      apply not_elem_of_cons in Hout as [_ Hout]. assumption. }
    destruct (bool_decide (pos_symbol position ∈ take_profit_executed s)) eqn:Hskip.
    + apply bind_inv in H as [(u & s1 & Hhead & H) | (e & Hhead & _)];
        apply ret_inv in Hhead as [_ ->]; [|apply no_order_for_refl].
      eapply IH; eassumption.
    + assert (Hne : pos_symbol position <> symbol).
      { apply bool_decide_eq_false in Hskip. intros Heq. rewrite Heq in Hskip.
        destruct Hpre as [Hin | Hout]; [contradiction|].
        apply Hout. cbn. rewrite Heq. apply list_elem_of_here. }
      match type of H with
      | bind ?m _ _ = _ => assert (Hpres : preserves (no_order_for symbol) m)
      end.
      { apply preserves_bind; [apply no_order_for_trans| |].
        - intros s2 r2 s3 Hp. apply quiet_no_order_for.
          eapply get_current_price_quiet; eassumption.
        - intros [current_price|]; [|apply preserves_ret, no_order_for_refl].
          apply preserves_bind; [apply no_order_for_trans| |].
          + destruct (_ <? _)%float; apply preserves_py_div, no_order_for_refl.
          + intros ratio. destruct (_ <=? _)%float;
              [|apply preserves_ret, no_order_for_refl].
            apply preserves_bind; [apply no_order_for_trans| |].
            * apply take_profit_half_position_other. assumption.
            * intros _. apply preserves_ret, no_order_for_refl. }
      apply bind_inv in H as [(u & s1 & Hm & H) | (e & Hm & _)];
        apply Hpres in Hm as Hhead; [|assumption].
      eapply no_order_for_trans; [eassumption|].
      eapply IH; [eassumption|].
      destruct Hrest as [Hin | Hout]; [left; apply Hhead; assumption | auto].
Qed.

(** The suppression by the memo: a check submits no order for a symbol
    that is in the memo when the check starts, and keeps the symbol in the
    memo when a position in it is listed. *)
Lemma check_suppressed symbol positions s r s' :
  check_and_execute_take_profit T X s = (r, s') ->
  symbol ∈ take_profit_executed s ->
  fst (get_positions T X s) = Returns positions ->
  (exists new, submitted (proc s') = submitted (proc s) ++ new /\
               Forall (fun params => param_symbol params <> symbol) new) /\
  (symbol ∈ List.map pos_symbol positions -> symbol ∈ take_profit_executed s').
Proof.
  unfold check_and_execute_take_profit. intros H Hin Hlist.
  destruct (get_positions T X s) as [r0 s1] eqn:Hget. cbn in Hlist. subst r0.
  pose proof (get_positions_quiet _ _ _ Hget) as [[Hmemo1 _] Hsub1].
  unfold try_catch, bind in H. rewrite Hget in H.
  destruct positions as [|position rest].
  { cbn in H. injection H as _ <-. split.
    - exists []. rewrite app_nil_r. auto.
    - rewrite Hmemo1. auto. }
  set (positions := position :: rest) in *.
  unfold modify in H.
  set (s2 := with_executed
               (fun done : gset string =>
                  filter (fun x => x ∈ (list_to_set (List.map pos_symbol positions)
                                        : gset string)) done) s1) in *.
  destruct (check_each T X positions s2) as [r3 s3] eqn:Hloop.
  assert (s' = s3) as ->.
  { destruct r3; cbn in H; injection H as _ <-; reflexivity. }
  assert (Hkept : symbol ∈ List.map pos_symbol positions ->
                  symbol ∈ take_profit_executed s2).
  { intros Hlisted.
    change (symbol ∈ filter (fun x => x ∈ (list_to_set (List.map pos_symbol positions)
                                         : gset string))
                            (take_profit_executed s1)).
    apply elem_of_filter. split.
    - apply elem_of_list_to_set. assumption.
    - rewrite Hmemo1. assumption. }
  assert (Hpre : symbol ∈ take_profit_executed s2 \/
                 symbol ∉ List.map pos_symbol positions).
  { destruct (decide (symbol ∈ List.map pos_symbol positions)); auto. }
  destruct (check_each_suppressed symbol positions _ _ _ Hloop Hpre)
    as [Hstay (new & Hnew & Hforall)].
  split.
  - exists new. split; [|assumption]. rewrite Hnew.
    change (submitted (proc s2)) with (submitted (proc s1)). rewrite Hsub1.
    reflexivity.
  - intros Hlisted. apply Hstay, Hkept. assumption.
Qed.

End WithWorld.

(** Every run of the half-close either returns False with nothing
    submitted, or submits only the reduce-only market order for half the
    absolute position amount rounded to the nearest multiple of the lot
    step size; when that size is below the minimum quantity it returns
    False and no order is submitted. *)
Lemma take_profit_half_position_report
    (T : TimeSync.env) (X : exchange) (symbol : string) (position : Position)
    (s : state) (r : outcome bool) (s' : state) :
  take_profit_half_position T X symbol position s = (r, s') ->
  half_close_report X symbol position s r s'.
Proof.
  intros H. apply take_profit_half_position_inv in H as (b & -> & Hcases).
  exists b. split; [reflexivity|]. split.
  - destruct Hcases as [(-> & [[Hmemo _] Hsub]) | (j & Hord & _ & Ht)].
    + left. auto.
    + right. destruct Hord as (infos & symbol_info & q & k & Hk & Hinfo & Hsized & Hsub).
      exists infos, symbol_info, q, k, j.
      split; [assumption|]. split; [assumption|]. split; [assumption|].
      split; [assumption|]. split; [reflexivity|]. split; [reflexivity|].
      intros Hb. destruct (Ht Hb) as [Hj ->]. split; [assumption|].
      apply elem_of_union. right. apply elem_of_singleton. reflexivity.
  - intros infos symbol_info f n Hall Hinfo Hlot Hn Hmin.
    destruct Hcases as [(-> & [_ Hsub]) | (j & Hord & _ & _)]; [auto|].
    destruct Hord as (infos' & symbol_info' & q & k & Hk & Hinfo' & Hsized & _).
    rewrite Hall in Hk. injection Hk as <-.
    rewrite Hinfo in Hinfo'. injection Hinfo' as <-.
    rewrite Hlot in Hsized. destruct Hsized as (n' & Hn' & -> & Hmin').
    rewrite Hn in Hn'. injection Hn' as <-. congruence.
Qed.

(** C7, as stated, fails: half of a position of 3.5 in whole lots is 1.75,
    which the code rounds to 2 lots, where rounding down gives 1. *)
Lemma half_close_not_rounded_down :
  submitted (proc (snd (take_profit_half_position steady whole_lots "BTCUSDT"
                          (long_position 3.5) init)))
    = [close_order "BTCUSDT" SIDE_SELL 2] /\
  spec_half_quantity 3.5 1 = Some 1%float /\
  ~ claimed_half_close steady whole_lots "BTCUSDT" (long_position 3.5) 1 init.
Proof.
  assert (Hsub : submitted (proc (snd (take_profit_half_position steady whole_lots "BTCUSDT"
                          (long_position 3.5) init)))
                 = [close_order "BTCUSDT" SIDE_SELL 2]) by (vm_compute; reflexivity).
  split; [exact Hsub|]. split; [vm_compute; reflexivity|].
  intros Hclaim.
  specialize (Hclaim _ _ (close_order "BTCUSDT" SIDE_SELL 2) (surjective_pairing _)).
  rewrite Hsub in Hclaim. specialize (Hclaim (list_elem_of_here _ _)).
  apply (f_equal (option_map Prim2SF)) in Hclaim. vm_compute in Hclaim. discriminate.
Qed.

(** The early return of [check_and_execute_take_profit]: when no position
    is listed, the memo is left as it was. *)
Lemma check_without_positions (T : TimeSync.env) (X : exchange) (s : state) :
  fst (get_positions T X s) = Returns [] ->
  take_profit_executed (snd (check_and_execute_take_profit T X s)) = take_profit_executed s.
Proof.
  intros Hpos. unfold check_and_execute_take_profit, try_catch, bind.
  destruct (get_positions T X s) as [r s1] eqn:Hget. cbn in Hpos. subst r.
  cbn. apply get_positions_quiet in Hget as [[Hmemo _] _]. assumption.
Qed.

(** C6 on the failing input.  The monitor has taken profit on BTCUSDT and
    the position has since been closed in full.  The first check finds no
    position at all and keeps BTCUSDT in the memo; at the second check a
    new BTCUSDT position stands at twice its entry price, above the
    threshold of 1.3, and is skipped: nothing is submitted.  From the same
    state with the memo cleared, the same check closes half of it. *)
Theorem memo_entry_survives_full_close :
  let s1 := snd (check_and_execute_take_profit steady reopened after_take_profit) in
  let s2 := snd (check_and_execute_take_profit steady reopened s1) in
  let cleared := with_executed (fun _ => ∅) s1 in
  fst (get_positions steady reopened after_take_profit) = Returns [] /\
  elements (take_profit_executed s1) = ["BTCUSDT"] /\
  fst (get_positions steady reopened s1) = Returns [long_position 0.5] /\
  submitted (proc s2) = [] /\
  submitted (proc (snd (check_and_execute_take_profit steady reopened cleared)))
    = [close_order "BTCUSDT" SIDE_SELL 0.25].
Proof. repeat split; vm_compute; reflexivity. Qed.

End MonitorFacts.

(** * More facts about time_sync_config.py *)

Module TimeSyncMoreFacts.
Import PyNum TimeSync TimeSyncMore TimeSyncFacts.

Local Open Scope Z_scope.

Lemma untouched_refl m : untouched m m.
Proof. repeat split. Qed.

Lemma untouched_trans m1 m2 m3 : untouched m1 m2 -> untouched m2 m3 -> untouched m1 m3.
Proof. unfold untouched. intros (? & ? & ? & ?) (? & ? & ? & ?). repeat split; congruence. Qed.

Lemma same_settings_refl m : same_settings m m.
Proof. repeat split. Qed.

Section WithEnv.
Variable E : env.

(** A run that does not return True stores nothing. *)
Lemma sync_time_failure_untouched force s r s' :
  sync_time E force s = (r, s') -> r <> Returns (Some true) ->
  untouched (self s) (self s').
Proof.
  intros H Hr.
  apply sync_time_inv in H as [(_ & -> & _) | [(_ & -> & _) | (-> & _)]].
  - apply untouched_refl.
  - repeat split.
  - contradiction.
Qed.

(** With nothing reachable no run returns True. *)
Lemma sync_time_unreachable_untouched force s r s' :
  unreachable E -> sync_time E force s = (r, s') -> untouched (self s) (self s').
Proof.
  intros Hun H. eapply sync_time_failure_untouched; [eassumption|].
  intros ->. apply sync_time_inv in H as [(Hr & _) | [(Hr & _) | (_ & _ & Hsync)]];
    try discriminate.
  destruct Hsync as (lrt & older & kept & llt & qs & _ & _ & _ & Hfrom & _).
  apply Forall_app in Hfrom as [_ Hkept].
  inversion Hkept as [|? ? (k & body & Hbody & _) _]; subst.
  rewrite Hun in Hbody. discriminate.
Qed.

(** The requests of the outer [try] block, whatever its outcome. *)
Lemma sync_time_try_queries ct s r s' :
  sync_time_try E ct s = (r, s') ->
  exists qs, queried s' = queried s ++ qs /\ sublist qs endpoints.
Proof.
  unfold sync_time_try. intros H.
  apply bind_inv in H as [(lrt & s1 & Hms & H) | (e & Hms & _)];
    unfold to_ms in Hms; apply of_option_inv in Hms as [-> _];
    [|exists []; rewrite app_nil_r; split; [reflexivity | apply sublist_nil_l]].
  apply bind_inv in H as [([bt nd] & s2 & Hpoll & H) | (e & Hpoll & _)];
    apply poll_inv in Hpoll as (_ & new & qs & _ & Hq & Hsub & _);
    [|exists qs; auto].
  exists qs. split; [|assumption]. rewrite <- Hq.
  destruct (bt =? 0).
  - msimpl. reflexivity.
  - apply bind_inv in H as [(llt & s3 & Hnow & H) | (e & Hnow & _)];
      apply now_ms_inv in Hnow as (_ & _ & Hq3 & _); [|assumption].
    apply bind_inv in H as [(u & s4 & Hmod & H) | (e & Hmod & _)]; [|inversion Hmod].
    inversion Hmod; subst u s4; clear Hmod. msimpl. assumption.
Qed.

Lemma sync_time_queries force s r s' :
  sync_time E force s = (r, s') ->
  exists qs, queried s' = queried s ++ qs /\ sublist qs endpoints /\
             (r = Returns None -> qs = []).
Proof.
  unfold sync_time. intros H.
  apply bind_inv in H as [(ct & s1 & Hnow & H) | (e & Hnow & _)];
    apply now_inv in Hnow as (Ha & _ & _ & Hq0 & _); [|discriminate].
  rewrite bind_get_state in H. rewrite <- Hq0.
  destruct (negb force && _) in H.
  - msimpl. exists []. rewrite app_nil_r. repeat split. apply sublist_nil_l.
  - apply try_catch_inv in H as [(a & Hbody & ->) | (e & s2 & Hbody & Hhandler)].
    + apply bind_returns_inv in Hbody as (b & s3 & Htry & Hret).
      apply sync_time_try_queries in Htry as (qs & Hq & Hsub).
      apply ret_inv in Hret as [Ha' ->]. exists qs. repeat split; auto.
      intros Hn. inversion Ha'; subst a. discriminate.
    + assert (Hq : exists qs, queried s2 = queried s1 ++ qs /\ sublist qs endpoints).
      { apply bind_inv in Hbody as [(b & s3 & Htry & Hret) | (e' & Htry & He)].
        - apply ret_inv in Hret as [Ha' _]. discriminate.
        - eapply sync_time_try_queries; eassumption. }
      destruct Hq as (qs & Hq & Hsub).
      apply bind_inv in Hhandler as [(u & s4 & Hmod & Hret) | (e1 & Hmod & _)];
        [|inversion Hmod].
      inversion Hmod; subst u s4; clear Hmod. apply ret_inv in Hret as [-> ->].
      exists qs. cbn. repeat split; auto. discriminate.
Qed.

(** What every [sync_time] keeps, [get_synced_timestamp] keeps. *)
Lemma get_synced_timestamp_keeps (P : TimeSyncManager -> Prop) s r s' :
  (forall force s0 r0 s1, P (self s0) -> sync_time E force s0 = (r0, s1) -> P (self s1)) ->
  P (self s) -> get_synced_timestamp E s = (r, s') -> P (self s').
Proof.
  intros Hsync Hp. unfold get_synced_timestamp. intros H. msimpl.
  assert (Hstep1 : forall (u : outcome unit) s1,
    (if negb (is_synced (self s))
     then bind (sync_time E false) (fun _ => ret tt) else ret tt) s = (u, s1) ->
    P (self s1)).
  { intros u s1 Hu. destruct (negb _).
    - apply bind_inv in Hu as [(o & s2 & Hs & Hu) | (e & Hs & _)]; msimpl;
        eapply Hsync; eauto.
    - msimpl; assumption. }
  apply bind_inv in H as [(u & s1 & H1 & H) | (e & H1 & _)]; [|eapply Hstep1; eauto].
  apply Hstep1 in H1.
  apply bind_inv in H as [(t1 & s2 & Hnow1 & H) | (e & Hnow1 & _)];
    apply now_ms_inv in Hnow1 as (Hs2 & _); [|congruence].
  rewrite <- Hs2 in H1. msimpl.
  assert (Hstep2 : forall (u : outcome Z) s4,
    (if sync_interval (self s2) * 1000 <? t1 - last_local_time (self s2)
     then bind (sync_time E false) (fun _ => now_ms E) else ret t1) s2 = (u, s4) ->
    P (self s4)).
  { intros v s4 Hv. destruct (_ <? _).
    - apply bind_inv in Hv as [(o & s5 & Hs & Hv) | (e & Hs & _)].
      + apply now_ms_inv in Hv as (Hs4 & _). rewrite Hs4. eapply Hsync; eauto.
      + eapply Hsync; eauto.
    - msimpl; assumption. }
  apply bind_inv in H as [(t2 & s3 & H2 & H) | (e & H2 & _)]; [|eapply Hstep2; eauto].
  apply Hstep2 in H2. msimpl.
  destruct (0 <? _); msimpl; assumption.
Qed.

(** [get_synced_timestamp] can only fail on a clock reading that is not a
    finite number. *)
Lemma get_synced_timestamp_raises s e s' :
  get_synced_timestamp E s = (Raises e, s') -> exists k, reading E k = None.
Proof.
  unfold get_synced_timestamp. intros H. msimpl.
  assert (Hsync : forall force (B : Type) (k : option bool -> M state B) s0 e0 s1,
            bind (sync_time E force) k s0 = (Raises e0, s1) ->
            exists o s2, k o s2 = (Raises e0, s1)).
  { intros force B k s0 e0 s1 Hb.
    apply bind_inv in Hb as [(o & s2 & _ & Hb) | (e1 & Hs & _)]; [eauto|].
    apply sync_time_inv in Hs as [(Hr & _) | [(Hr & _) | (Hr & _)]]; discriminate. }
  apply bind_inv in H as [(u & s1 & _ & H) | (e1 & H1 & _)].
  2:{ destruct (negb _); [|apply ret_inv in H1 as [H1 _]; discriminate].
      apply Hsync in H1 as (o & s2 & H1). apply ret_inv in H1 as [H1 _]. discriminate. }
  apply bind_inv in H as [(t1 & s2 & _ & H) | (e1 & Hnow & _)].
  2:{ apply now_ms_inv in Hnow as (_ & _ & _ & _ & _ & [(z & _ & Hz) | [Hnone _]]);
        [discriminate | eauto]. }
  msimpl.
  apply bind_inv in H as [(t2 & s3 & _ & H) | (e1 & H2 & _)].
  - msimpl. destruct (0 <? _); apply ret_inv in H as [H _]; discriminate.
  - destruct (_ <? _); [|apply ret_inv in H2 as [H2 _]; discriminate].
    apply Hsync in H2 as (o & s4 & Hnow).
    apply now_ms_inv in Hnow as (_ & _ & _ & _ & _ & [(z & _ & Hz) | [Hnone _]]);
      [discriminate | eauto].
Qed.

End WithEnv.

(** X1.  [sync_time] stores all or nothing, and never raises.  A call
    ends in one of three ways: skipped (None) with the object as it was;
    failed (False) with only [is_synced] cleared, the stored offset,
    server time, local time and time of last sync as they were; or
    succeeded (True), and then [is_synced] is set, the stored server time
    is the non-zero one of the last measurement, the stored local time is
    the last clock reading of the call, the time of last sync is the
    reading taken on entry, and the offset is
    server_time - (entry reading in ms + delay // 2).  The three settings
    are never assigned. *)
Theorem sync_time_all_or_nothing (E : env) (force : bool) (s s' : state)
    (r : outcome (option bool)) :
  sync_time E force s = (r, s') ->
  same_settings (self s) (self s') /\
  ((r = Returns None /\ self s' = self s) \/
   (r = Returns (Some false) /\ is_synced (self s') = false /\
    untouched (self s) (self s')) \/
   (r = Returns (Some true) /\ is_synced (self s') = true /\
    last_server_time (self s') <> 0 /\
    last_sync_time (self s') = time_time E (ticks s) /\
    reading E (pred (ticks s')) = Some (last_local_time (self s')) /\
    exists lrt kept,
      reading E (ticks s) = Some lrt /\ last (samples s') = Some kept /\
      last_server_time (self s') = server_time kept /\
      time_offset (self s') = server_time kept - (lrt + network_delay_of kept / 2))).
Proof.
  intros H.
  apply sync_time_inv in H as [(-> & -> & _) | [(-> & -> & _) | (-> & _ & Hsync)]].
  - split; [apply same_settings_refl|]. left. auto.
  - split; [repeat split|]. right; left. repeat split.
  - destruct Hsync as (lrt & older & kept & llt & qs & H1 & H2 & _ & _ & H5 & _ & _ & H8 & H9).
    rewrite H9. split; [repeat split|]. right; right. cbn.
    repeat split; auto.
    exists lrt, kept. repeat split; auto.
    rewrite H2, !app_assoc. apply last_snoc.
Qed.

Lemma sync_time_all_or_nothing_witness :
  same_settings (self fresh) (self after_slow_sync) /\
  ((fst (sync_time env_slow false fresh) = Returns None /\
    self after_slow_sync = self fresh) \/
   (fst (sync_time env_slow false fresh) = Returns (Some false) /\
    is_synced (self after_slow_sync) = false /\
    untouched (self fresh) (self after_slow_sync)) \/
   (fst (sync_time env_slow false fresh) = Returns (Some true) /\
    is_synced (self after_slow_sync) = true /\
    last_server_time (self after_slow_sync) <> 0 /\
    last_sync_time (self after_slow_sync) = time_time env_slow (ticks fresh) /\
    reading env_slow (pred (ticks after_slow_sync)) =
      Some (last_local_time (self after_slow_sync)) /\
    exists lrt kept,
      reading env_slow (ticks fresh) = Some lrt /\
      last (samples after_slow_sync) = Some kept /\
      last_server_time (self after_slow_sync) = server_time kept /\
      time_offset (self after_slow_sync) =
        server_time kept - (lrt + network_delay_of kept / 2))).
Proof.
  apply (sync_time_all_or_nothing env_slow false fresh after_slow_sync).
  apply surjective_pairing.
Defined.

(** X2.  A successful synchronisation arms the minimum-interval gate: a
    following call without [force] whose entry reading is less than
    [min_sync_interval] seconds after the entry reading of the successful
    one is skipped.  It returns None, takes that one clock reading, sends
    no request and leaves the object as it is.  [force_sync] is never
    skipped. *)
Theorem sync_time_throttled_after_success (E : env) (force : bool) (s s1 : state) :
  sync_time E force s = (Returns (Some true), s1) ->
  (time_time E (ticks s1) - time_time E (ticks s)
     <? float_of_Z (min_sync_interval (self s)))%float = true ->
  (exists s2, sync_time E false s1 = (Returns None, s2) /\ one_reading s1 s2) /\
  fst (force_sync E s1) <> Returns None.
Proof.
  intros H Hsoon. split.
  - apply sync_time_inv in H as [(Hr & _) | [(Hr & _) | (_ & _ & Hsync)]];
      try discriminate.
    destruct Hsync as (lrt & older & kept & llt & qs & _ & _ & _ & _ & _ & _ & _ & _ & H9).
    unfold sync_time, now, bind, get_state. cbn.
    rewrite H9. cbn. rewrite Hsoon. cbn.
    eexists. split; [reflexivity|]. repeat split; cbn; auto.
  - unfold force_sync. destruct (sync_time E true s1) as [r s2] eqn:Hforce. cbn.
    apply sync_time_inv in Hforce as [(_ & _ & Hskip) | [(-> & _) | (-> & _)]];
      [|discriminate|discriminate].
    exfalso. apply Hskip. reflexivity.
Qed.

Lemma sync_time_throttled_after_success_witness :
  (exists s2, sync_time env_slow false after_slow_sync = (Returns None, s2) /\
              one_reading after_slow_sync s2) /\
  fst (force_sync env_slow after_slow_sync) <> Returns None.
Proof.
  apply (sync_time_throttled_after_success env_slow false fresh after_slow_sync).
  - vm_compute. reflexivity.
  - vm_compute. reflexivity.
Defined.

(** X3.  A run is judged by the last measurement it completed, whatever
    came before: when the measurements [new] of a run that was not skipped
    end in one whose body had no [serverTime] (read as 0), or when there
    are none, the call returns False, clears [is_synced] and stores
    nothing, even if an earlier endpoint of the same run reported a server
    time. *)
Theorem sync_time_judged_by_last_sample (E : env) (force : bool) (s s' : state)
    (r : outcome (option bool)) (new : list sample) :
  sync_time E force s = (r, s') ->
  proceeds E force s ->
  samples s' = samples s ++ new ->
  (forall kept, last new = Some kept -> server_time kept = 0) ->
  r = Returns (Some false) /\ is_synced (self s') = false /\
  untouched (self s) (self s').
Proof.
  intros H Hgo Hnew Hlast.
  apply sync_time_inv in H as [(_ & _ & Hskip) | [(-> & -> & _) | (_ & _ & Hsync)]].
  - contradiction.
  - repeat split.
  - destruct Hsync as (lrt & older & kept & llt & qs & _ & H2 & _ & _ & H5 & _).
    rewrite Hnew in H2. apply app_inv_head in H2. subst new.
    exfalso. apply H5, Hlast. apply last_snoc.
Qed.

Lemma sync_time_judged_by_last_sample_witness :
  fst (sync_time env_keyless false fresh) = Returns (Some false) /\
  is_synced (self (snd (sync_time env_keyless false fresh))) = false /\
  untouched (self fresh) (self (snd (sync_time env_keyless false fresh))).
Proof.
  apply (sync_time_judged_by_last_sample env_keyless false fresh
           (snd (sync_time env_keyless false fresh))
           (fst (sync_time env_keyless false fresh))
           (samples (snd (sync_time env_keyless false fresh)))).
  - apply surjective_pairing.
  - reflexivity.
  - reflexivity.
  - intros kept Hkept. vm_compute in Hkept. inversion Hkept. reflexivity.
Defined.

(** X4.  Whatever its outcome, one call of [sync_time] sends at most one
    request to each endpoint, in the order of the list, so at most four;
    a skipped call sends none. *)
Theorem sync_time_request_bound (E : env) (force : bool) (s s' : state)
    (r : outcome (option bool)) :
  sync_time E force s = (r, s') ->
  exists qs,
    queried s' = queried s ++ qs /\ sublist qs endpoints /\
    (length qs <= 4)%nat /\ (r = Returns None -> qs = []).
Proof.
  intros H. apply sync_time_queries in H as (qs & Hq & Hsub & Hnone).
  exists qs. repeat split; auto.
  apply sublist_length in Hsub. exact Hsub.
Qed.

Lemma sync_time_request_bound_witness :
  exists qs,
    queried (snd (sync_time env_down true synced_state)) = queried synced_state ++ qs /\
    sublist qs endpoints /\ (length qs <= 4)%nat /\
    (fst (sync_time env_down true synced_state) = Returns None -> qs = []).
Proof.
  apply (sync_time_request_bound env_down true synced_state).
  apply surjective_pairing.
Defined.

(** X5.  On a synced manager whose last synchronisation is no older than
    [sync_interval], [get_synced_timestamp] takes exactly one clock
    reading, sends no request and changes no attribute; it returns
    [last_server_time + (now - last_local_time)] when a positive server
    time is stored, [now + time_offset] otherwise. *)
Theorem get_synced_timestamp_recent (E : env) (s : state) (now : Z) :
  is_synced (self s) = true -> reading E (ticks s) = Some now -> recent (self s) now ->
  exists s',
    get_synced_timestamp E s =
      (Returns (if 0 <? last_server_time (self s)
                then last_server_time (self s) + (now - last_local_time (self s))
                else now + time_offset (self s)), s') /\
    one_reading s s'.
Proof.
  intros Hsynced Hread Hrecent. unfold recent in Hrecent.
  apply Z.ltb_ge in Hrecent.
  unfold get_synced_timestamp, now_ms, TimeSync.now, to_ms, bind, get_state, ret.
  rewrite Hsynced. cbn. unfold reading in Hread. rewrite Hread. cbn.
  rewrite Hrecent. cbn.
  destruct (0 <? last_server_time (self s)); eexists; (split; [reflexivity|]);
    repeat split.
Qed.

Lemma get_synced_timestamp_recent_witness :
  exists s',
    get_synced_timestamp env_still synced_state =
      (Returns (if 0 <? last_server_time (self synced_state)
                then last_server_time (self synced_state) +
                     (1762250010000 - last_local_time (self synced_state))
                else 1762250010000 + time_offset (self synced_state)), s') /\
    one_reading synced_state s'.
Proof.
  apply (get_synced_timestamp_recent env_still synced_state 1762250010000).
  - reflexivity.
  - vm_compute. reflexivity.
  - unfold recent. cbn. lia.
Defined.

(** X6.  With no endpoint reachable and no positive server time stored,
    [get_synced_timestamp] falls back to the local clock: what it returns
    is its last clock reading plus the stored offset, and the stored
    values are left as they were. *)
Theorem get_synced_timestamp_offline (E : env) (s s' : state) (r : Z) :
  unreachable E -> last_server_time (self s) <= 0 ->
  get_synced_timestamp E s = (Returns r, s') ->
  untouched (self s) (self s') /\
  exists now, reading E (pred (ticks s')) = Some now /\ r = now + time_offset (self s).
Proof.
  intros Hun Hsrv H.
  assert (Hkeep : untouched (self s) (self s')).
  { apply (get_synced_timestamp_keeps E (untouched (self s)) s (Returns r) s');
      [|apply untouched_refl|assumption].
    intros force s0 r0 s1 Hp Hs. eapply untouched_trans; [exact Hp|].
    eapply sync_time_unreachable_untouched; eassumption. }
  split; [assumption|].
  apply get_synced_timestamp_inv in H as (now & Hnow & Hr).
  exists now. split; [assumption|].
  destruct Hkeep as (Ho & Hl & _). rewrite Hl, Ho in Hr.
  apply Z.ltb_ge in Hsrv. rewrite Hsrv in Hr. assumption.
Qed.

Lemma get_synced_timestamp_offline_witness :
  untouched (self fresh) (self (snd (get_synced_timestamp env_down fresh))) /\
  exists now,
    reading env_down (pred (ticks (snd (get_synced_timestamp env_down fresh)))) = Some now /\
    1762250115500 = now + time_offset (self fresh).
Proof.
  apply (get_synced_timestamp_offline env_down fresh).
  - intros k endpoint. reflexivity.
  - cbn. lia.
  - vm_compute. reflexivity.
Defined.

(** X7.  The uncorrected timestamp agrees with the corrected one as long
    as the manager is synced, the last synchronisation is no older than
    [sync_interval], and the stored offset agrees with the stored server
    and local times: both calls then return the same number and leave the
    same state. *)
Theorem uncorrected_timestamp_agrees (E : env) (s : state) (now : Z) :
  is_synced (self s) = true -> reading E (ticks s) = Some now -> recent (self s) now ->
  consistent (self s) ->
  get_synced_timestamp_without_correction E s = get_synced_timestamp E s.
Proof.
  intros Hsynced Hread Hrecent Hc.
  unfold recent in Hrecent. apply Z.ltb_ge in Hrecent.
  unfold get_synced_timestamp, get_synced_timestamp_without_correction,
    now_ms, TimeSync.now, to_ms, bind, get_state, ret.
  rewrite Hsynced. cbn. unfold reading in Hread. rewrite Hread. cbn.
  rewrite Hrecent. cbn.
  destruct Hc as [Hp | Heq].
  - apply Z.ltb_lt in Hp. rewrite Hp. reflexivity.
  - destruct (0 <? last_server_time (self s)); [reflexivity|].
    do 2 f_equal. lia.
Qed.

Lemma uncorrected_timestamp_agrees_witness :
  get_synced_timestamp_without_correction env_still synced_state =
  get_synced_timestamp env_still synced_state.
Proof.
  apply (uncorrected_timestamp_agrees env_still synced_state 1762250010000).
  - reflexivity.
  - vm_compute. reflexivity.
  - unfold recent. cbn. lia.
  - left. cbn. lia.
Defined.

End TimeSyncMoreFacts.

(** * More facts about binance_main.py *)

Module TraderMoreFacts.
Import PyNum PyStr Binance Trader TraderMore TraderFacts.

Local Open Scope Z_scope.

Lemma concat_replicate_nil {A} k : concat (replicate k (@nil A)) = [].
Proof. induction k; cbn; auto. Qed.

(** A float above zero is not equal to zero. *)
Lemma positive_not_zero (x : float) : (0 <? x)%float = true -> (x =? 0)%float = false.
Proof.
  rewrite FloatAxioms.ltb_spec, FloatAxioms.eqb_spec. change (Prim2SF 0) with (S754_zero false).
  destruct (Prim2SF x) as [sg|sg| |sg m e]; cbn; try discriminate; auto;
    destruct sg; cbn; intros; try discriminate; reflexivity.
Qed.

Lemma idle_refl s : idle s s.
Proof. split; [apply same_attrs_refl | reflexivity]. Qed.

Lemma idle_trans s1 s2 s3 : idle s1 s2 -> idle s2 s3 -> idle s1 s3.
Proof.
  intros [Ha1 Hp1] [Ha2 Hp2]. split; [eapply same_attrs_trans; eauto|].
  unfold placed_nothing in *. congruence.
Qed.

Lemma elsewhere_refl symbol s : elsewhere symbol s s.
Proof. intros other _. reflexivity. Qed.

Lemma elsewhere_trans symbol s1 s2 s3 :
  elsewhere symbol s1 s2 -> elsewhere symbol s2 s3 -> elsewhere symbol s1 s3.
Proof. intros H1 H2 other Hne. rewrite H2, H1 by assumption. reflexivity. Qed.

Lemma idle_elsewhere symbol s s' : idle s s' -> elsewhere symbol s s'.
Proof. intros [(Hr & _) _] other _. rewrite Hr. reflexivity. Qed.

Section WithWorld.
Variable T : TimeSync.env.
Variable X : exchange.

(** Resynchronising replaces the clock and nothing else. *)
Lemma resync_run s :
  exists o c,
    on_process (on_clock (TimeSync.sync_time T false)) s =
      (Returns o,
       {| proc := {| clock := c; calls := calls (proc s); slept := slept (proc s);
                     submitted := submitted (proc s) |};
          max_retries := max_retries s; retry_delay := retry_delay s;
          order_relations := order_relations s |}).
Proof.
  unfold on_process, on_clock.
  destruct (TimeSync.sync_time T false (clock (proc s))) as [r c] eqn:H.
  apply TimeSyncFacts.sync_time_inv in H as [(-> & _) | [(-> & _) | (-> & _)]]; eauto.
Qed.

(** One failed attempt that is not the permanent rejection: one call, one
    sleep of [retry_delay] seconds, and the loop goes on. *)
Lemma attempts_retry {A} n (request_func : request A) last s e :
  X A (calls (proc s)) request_func = Raises e -> has_code e (-4059) = false ->
  exists last' s1,
    attempts T X (S n) request_func last s = attempts T X n request_func last' s1 /\
    same_attrs s s1 /\ calls (proc s1) = S (calls (proc s)) /\
    slept (proc s1) = slept (proc s) + retry_delay s /\
    (last' = last \/ last' = Some e).
Proof.
  intros Hx Hp. cbn [attempts]. unfold try_catch at 1.
  unfold on_process at 1, call at 1. cbn. rewrite Hx, Hp.
  destruct (has_code e 1021).
  - match goal with |- context [bind _ _ ?s0] => destruct (resync_run s0) as (o & c & Hre) end.
    erewrite bind_returns by exact Hre. rewrite bind_get_state.
    unfold bind at 1, on_process at 1, sleep, modify. cbn.
    eexists last, _. split; [reflexivity|]. cbn. repeat split; auto.
  - rewrite bind_get_state.
    unfold bind at 1, on_process at 1, sleep, modify. cbn.
    eexists (Some e), _. split; [reflexivity|]. cbn. repeat split; auto.
Qed.

Lemma attempts_first_success {A} (request_func : request A) a : forall i n last s,
  (i < n)%nat ->
  (forall j, (j < i)%nat ->
     exists e, X A (calls (proc s) + j)%nat request_func = Raises e /\
               has_code e (-4059) = false) ->
  X A (calls (proc s) + i)%nat request_func = Returns a ->
  exists s',
    attempts T X n request_func last s = (Returns a, s') /\
    calls (proc s') = (calls (proc s) + i + 1)%nat /\
    slept (proc s') = slept (proc s) + Z.of_nat i * retry_delay s /\
    same_attrs s s'.
Proof.
  induction i as [|i IH]; intros n last s Hlt Hfail Hok;
    (destruct n as [|n]; [lia|]).
  - rewrite Nat.add_0_r in Hok. rewrite (attempts_success T X n _ last s a Hok).
    eexists. split; [reflexivity|].
    unfold on_process, call. cbn. repeat split; lia.
  - destruct (Hfail 0%nat ltac:(lia)) as (e & Hx & Hp). rewrite Nat.add_0_r in Hx.
    destruct (attempts_retry n request_func last s e Hx Hp)
      as (last' & s1 & -> & Ha1 & Hc1 & Hs1 & _).
    destruct (IH n last' s1) as (s' & Hrun & Hc & Hs & Ha).
    + lia.
    + intros j Hj. rewrite Hc1.
      replace (S (calls (proc s)) + j)%nat with (calls (proc s) + S j)%nat by lia.
      apply Hfail. lia.
    + rewrite Hc1.
      replace (S (calls (proc s)) + i)%nat with (calls (proc s) + S i)%nat by lia.
      assumption.
    + exists s'. split; [assumption|].
      destruct Ha1 as (Hr1 & Hm1 & Hd1).
      split; [lia|]. split; [rewrite Hs, Hs1, Hd1; lia|].
      eapply same_attrs_trans; [|eassumption]. repeat split; assumption.
Qed.

(** The calls of the retry loop, and where its result comes from. *)
Lemma attempts_calls {A} (request_func : request A) n : forall last s r s',
  attempts T X n request_func last s = (r, s') ->
  (calls (proc s) <= calls (proc s') <= calls (proc s) + n)%nat /\
  (forall a, r = Returns a ->
     (calls (proc s) < calls (proc s'))%nat /\
     X A (pred (calls (proc s'))) request_func = Returns a) /\
  (forall e, r = Raises e ->
     e = default unknown_request_error last \/
     exists k, (calls (proc s) <= k < calls (proc s'))%nat /\
               X A k request_func = Raises e).
Proof.
  induction n as [|n IH]; intros last s r s' H.
  - cbn in H. apply raise_inv in H as [-> ->].
    split; [lia|]. split; [discriminate|].
    intros e He. injection He as <-. left. reflexivity.
  - destruct (X A (calls (proc s)) request_func) as [a|e] eqn:Hx.
    + rewrite (attempts_success _ _ _ _ _ _ _ Hx) in H.
      destruct (on_process (call X request_func) s) as [r0 s0] eqn:Hcall.
      apply call_inv in Hcall as (_ & _ & Hc & _).
      cbn in H. injection H as <- <-.
      split; [lia|]. split; [|discriminate].
      intros a' Ha'. injection Ha' as <-. rewrite Hc. cbn. split; [lia | assumption].
    + destruct (has_code e (-4059)) eqn:Hp.
      * rewrite (attempts_permanent _ _ _ _ _ _ _ Hx Hp) in H.
        destruct (on_process (call X request_func) s) as [r0 s0] eqn:Hcall.
        apply call_inv in Hcall as (_ & _ & Hc & _).
        cbn in H. injection H as <- <-.
        split; [lia|]. split; [discriminate|].
        intros e' He'. injection He' as <-. right. exists (calls (proc s)).
        split; [lia | assumption].
      * destruct (attempts_retry n request_func last s e Hx Hp)
          as (last' & s1 & Heq & _ & Hc1 & _ & Hlast).
        rewrite Heq in H. apply IH in H as (Hb & Hret & Hraise).
        split; [lia|]. split.
        -- intros a Ha. destruct (Hret a Ha) as [Hlt Hans]. split; [lia | assumption].
        -- intros e' He'. destruct (Hraise e' He') as [Hdef | (k & Hk & Hans)].
           ++ destruct Hlast as [-> | ->]; [left; assumption|].
              right. exists (calls (proc s)). cbn in Hdef. subst e'.
              split; [lia | assumption].
           ++ right. exists k. split; [lia | assumption].
Qed.

(** A request that is not an order changes nothing the trader owns. *)
Lemma safe_request_idle {A} (request_func : request A) :
  order_params request_func = [] -> preserves idle (safe_request T X request_func).
Proof.
  intros Hnil s r s' H. apply safe_request_inv in H as (Ha & [k Hs] & _).
  split; [assumption|]. unfold placed_nothing.
  rewrite Hs, Hnil, concat_replicate_nil, app_nil_r. reflexivity.
Qed.

Lemma safe_request_never_answered {A} (request_func : request A) s :
  never_answers X request_func ->
  exists e s', safe_request T X request_func s = (Raises e, s').
Proof.
  intros Hnever. destruct (safe_request T X request_func s) as [[a|e] s'] eqn:H; eauto.
  apply safe_request_inv in H as (_ & _ & Hret).
  destruct (Hret a eq_refl) as [k Hk]. destruct (Hnever k) as [e He]. congruence.
Qed.

Section Keeps.
Variable R : state -> state -> Prop.
Hypothesis R_refl : forall s, R s s.
Hypothesis R_trans : forall s1 s2 s3, R s1 s2 -> R s2 s3 -> R s1 s3.
Hypothesis R_idle : forall s s', idle s s' -> R s s'.

Lemma keeps_safe_request {A} (request_func : request A) :
  order_params request_func = [] -> preserves R (safe_request T X request_func).
Proof. intros Hnil s r s' H. eapply R_idle, safe_request_idle; eassumption. Qed.

Lemma keeps_get_position symbol : preserves R (get_position T X symbol).
Proof.
  unfold get_position. apply preserves_try_catch; [assumption| |].
  - apply preserves_bind; [assumption | now apply keeps_safe_request |].
    intros positions. apply preserves_ret; assumption.
  - intros e. apply preserves_ret; assumption.
Qed.

Lemma keeps_get_positions : preserves R (get_positions T X).
Proof.
  unfold get_positions. apply preserves_try_catch; [assumption| |].
  - apply preserves_bind; [assumption | now apply keeps_safe_request |].
    intros positions. apply preserves_ret; assumption.
  - intros e. apply preserves_ret; assumption.
Qed.

Lemma keeps_get_raw_klines symbol interval limit :
  preserves R (_get_raw_klines T X symbol interval limit).
Proof.
  unfold _get_raw_klines. apply preserves_try_catch; [assumption| |].
  - apply preserves_bind; [assumption | now apply keeps_safe_request |].
    intros [|k klines]; apply preserves_ret; assumption.
  - intros e. apply preserves_ret; assumption.
Qed.

Lemma keeps_get_current_hour_klines symbol :
  preserves R (get_current_hour_klines T X symbol).
Proof.
  unfold get_current_hour_klines. apply preserves_try_catch; [assumption| |].
  - apply preserves_bind; [assumption | apply keeps_get_raw_klines |].
    intros [[|k klines]|]; try (apply preserves_ret; assumption).
    apply preserves_bind; [assumption | apply preserves_py_div; assumption |].
    intros change. apply preserves_ret; assumption.
  - intros e. apply preserves_ret; assumption.
Qed.

Lemma keeps_cancel_each symbol open_orders :
  preserves R (cancel_each T X symbol open_orders).
Proof.
  induction open_orders as [|order rest IH]; cbn [cancel_each].
  - apply preserves_ret; assumption.
  - apply preserves_bind; [assumption| |intros _; exact IH].
    destruct (_ || _); [|apply preserves_ret; assumption].
    apply preserves_try_catch; [assumption | now apply keeps_safe_request |].
    intros e. apply preserves_ret; assumption.
Qed.

End Keeps.

(** What [get_position] returns is a long position of the symbol that the
    exchange listed, with its entry price and its mark price. *)
Lemma get_position_found symbol s pos s' :
  get_position T X symbol s = (Returns (Some pos), s') ->
  pos_symbol pos = symbol /\ (0 <? positionAmt pos)%float = true /\
  is_Some (entryPrice pos) /\ is_Some (markPrice pos) /\
  exists k listing,
    X _ k futures_position_information = Returns listing /\ pos ∈ listing.
Proof.
  unfold get_position. intros H.
  apply try_catch_inv in H as [(o & H & Ho) | (e & s1 & _ & Hh)];
    [|apply ret_inv in Hh as [Hh _]; discriminate].
  injection Ho as <-.
  apply bind_returns_inv in H as (positions & s1 & Hreq & H).
  apply safe_request_inv in Hreq as (_ & _ & Hk).
  destruct (Hk positions eq_refl) as [k Hx].
  apply ret_inv in H as [H _]. injection H as H. symmetry in H.
  apply find_some in H as [Hin Hf].
  apply andb_true_iff in Hf as [Hf Hkeys]. apply andb_true_iff in Hf as [Hsym Hamt].
  apply andb_true_iff in Hkeys as [He Hm].
  apply String.eqb_eq in Hsym.
  apply bool_decide_eq_true in He. apply bool_decide_eq_true in Hm.
  repeat split; auto. exists k, positions. split; [assumption|].
  apply list_elem_of_In. assumption.
Qed.

Lemma get_position_run symbol s :
  exists o s', get_position T X symbol s = (Returns o, s') /\ idle s s'.
Proof.
  destruct (get_position T X symbol s) as [r s'] eqn:H.
  pose proof (keeps_get_position idle idle_refl idle_trans (fun _ _ Hi => Hi)
                symbol _ _ _ H) as Hidle.
  apply get_position_inv in H as ([o ->] & _). eauto.
Qed.

(** What [get_current_hour_klines] returns is computed from the first
    candle of an answer of the exchange. *)
Lemma get_current_hour_klines_found symbol s hour_kline s' :
  get_current_hour_klines T X symbol s = (Returns (Some hour_kline), s') ->
  exists k candle rest,
    X _ k (futures_klines symbol "1h" 1) = Returns (candle :: rest) /\
    price_change_pct hour_kline =
      ((raw_close candle - raw_open candle) / raw_open candle * 100)%float /\
    hour_low hour_kline = raw_low candle.
Proof.
  unfold get_current_hour_klines. intros H.
  apply try_catch_inv in H as [(o & H & Ho) | (e & s1 & _ & Hh)];
    [|apply ret_inv in Hh as [Hh _]; discriminate].
  injection Ho as <-.
  apply bind_returns_inv in H as (klines & s1 & Hraw & H).
  destruct klines as [[|candle rest]|];
    try (apply ret_inv in H as [H _]; discriminate).
  unfold _get_raw_klines in Hraw.
  apply try_catch_inv in Hraw as [(o & Hraw & Ho) | (e & s2 & _ & Hh)];
    [|apply ret_inv in Hh as [Hh _]; discriminate].
  injection Ho as <-.
  apply bind_returns_inv in Hraw as (klines & s2 & Hreq & Hraw).
  apply safe_request_inv in Hreq as (_ & _ & Hk).
  destruct (Hk klines eq_refl) as [k Hx].
  destruct klines as [|c0 cs]; apply ret_inv in Hraw as [Hraw _]; [discriminate|].
  injection Hraw as Hc0 Hcs. subst c0 cs.
  apply bind_returns_inv in H as (change & s3 & Hdiv & H).
  apply py_div_inv in Hdiv as [-> ->].
  apply ret_inv in H as [H _]. injection H as H. subst hour_kline.
  exists k, candle, rest. cbn. auto.
Qed.

(** Cancelling touches the record of its own symbol only, and submits
    nothing. *)
Lemma cancel_associated_orders_elsewhere symbol :
  preserves (elsewhere symbol) (cancel_associated_orders T X symbol).
Proof.
  intros s r s' H.
  apply cancel_associated_orders_inv in H as (_ & _ & _ & [Hr | Hr]);
    intros other Hne; rewrite Hr; [reflexivity|].
  apply lookup_delete_ne. congruence.
Qed.

Lemma cancel_associated_orders_placed_nothing symbol :
  preserves placed_nothing (cancel_associated_orders T X symbol).
Proof.
  assert (Hrefl : forall s, placed_nothing s s) by reflexivity.
  assert (Htrans : forall s1 s2 s3,
            placed_nothing s1 s2 -> placed_nothing s2 s3 -> placed_nothing s1 s3)
    by (unfold placed_nothing; congruence).
  assert (Hidle : forall s s', idle s s' -> placed_nothing s s') by (intros ? ? [_ H]; exact H).
  unfold cancel_associated_orders. apply preserves_try_catch; [assumption| |].
  - apply preserves_bind; [assumption | now apply keeps_safe_request |].
    intros orders. apply preserves_bind; [assumption | now apply keeps_cancel_each |].
    intros _ s r s' H. inversion H; subst. reflexivity.
  - intros e. apply preserves_ret; assumption.
Qed.

(** Once the open orders are listed the record goes, whatever becomes of
    the cancellations. *)
Lemma cancel_listed symbol s orders :
  0 < max_retries s ->
  X _ (calls (proc s)) (futures_get_open_orders symbol) = Returns orders ->
  exists s',
    cancel_associated_orders T X symbol s = (Returns tt, s') /\
    order_relations s' = delete symbol (order_relations s) /\
    max_retries s' = max_retries s.
Proof.
  intros Hmax Hx. unfold cancel_associated_orders, try_catch.
  assert (Hreq : exists s1, safe_request T X (futures_get_open_orders symbol) s
                            = (Returns orders, s1) /\ same_attrs s s1).
  { unfold safe_request. rewrite bind_get_state.
    destruct (Z.to_nat (max_retries s)) as [|n] eqn:Hn; [lia|].
    rewrite (attempts_success T X n _ None s orders Hx).
    eexists. split; [reflexivity|].
    destruct (on_process (call X (futures_get_open_orders symbol)) s) as [r0 s0] eqn:Hcall.
    apply call_inv in Hcall as (_ & Ha & _). exact Ha. }
  destruct Hreq as (s1 & Hreq & (Hr1 & Hm1 & _)).
  erewrite bind_returns by exact Hreq.
  destruct (cancel_each T X symbol orders s1) as [u s2] eqn:Hcancel.
  pose proof Hcancel as Hc.
  apply cancel_each_inv in Hc as (-> & Hr2 & Hm2 & _).
  erewrite bind_returns by exact Hcancel.
  eexists. split; [reflexivity|]. cbn. split; congruence.
Qed.

(** While the open orders cannot be listed the record stays. *)
Lemma cancel_unlisted symbol s :
  never_answers X (futures_get_open_orders symbol) ->
  exists s',
    cancel_associated_orders T X symbol s = (Returns tt, s') /\ same_attrs s s'.
Proof.
  intros Hnever.
  destruct (safe_request_never_answered (futures_get_open_orders symbol) s Hnever)
    as (e & s1 & Hreq).
  unfold cancel_associated_orders, try_catch.
  erewrite bind_raises by exact Hreq.
  eexists. split; [reflexivity|].
  apply safe_request_inv in Hreq as (Ha & _). exact Ha.
Qed.

Lemma safe_request_elsewhere {A} symbol (request_func : request A) :
  preserves (elsewhere symbol) (safe_request T X request_func).
Proof.
  intros s r s' H. apply safe_request_inv in H as ((Hr & _) & _).
  intros other _. rewrite Hr. reflexivity.
Qed.

Lemma track_elsewhere {A} symbol order_id (a : A) :
  preserves (elsewhere symbol)
    (bind (modify (with_relations (track_stop_loss symbol order_id))) (fun _ => ret a)).
Proof.
  intros s r s' H. unfold bind, modify, ret in H. injection H as _ <-.
  intros other Hne. cbn. unfold track_stop_loss. apply lookup_insert_ne. congruence.
Qed.

(** [get_positions] never raises: the long positions of an answer of the
    exchange, or nothing. *)
Lemma get_positions_run s :
  exists positions s1,
    get_positions T X s = (Returns positions, s1) /\ idle s s1 /\
    (positions = [] \/
     exists k listing,
       X _ k futures_position_information = Returns listing /\ positions = longs listing).
Proof.
  destruct (get_positions T X s) as [r s1] eqn:H.
  pose proof (keeps_get_positions idle idle_refl idle_trans (fun _ _ Hi => Hi) _ _ _ H)
    as Hidle.
  unfold get_positions in H.
  apply try_catch_inv in H as [(o & H & ->) | (e & s2 & _ & Hh)].
  - apply bind_returns_inv in H as (listing & s2 & Hreq & H).
    apply safe_request_inv in Hreq as (_ & _ & Hk).
    destruct (Hk listing eq_refl) as [k Hx].
    apply ret_inv in H as [H _]. injection H as ->.
    eexists _, _. split; [reflexivity|]. split; [assumption|]. right. eauto.
  - apply ret_inv in Hh as [-> _]. eexists _, _. split; [reflexivity|]. auto.
Qed.

(** The loop of [check_order_execution] only ever drops records, and
    none of a symbol that holds a position. *)
Lemma settle_each_inv position_symbols symbols : forall s r s',
  settle_each T X position_symbols symbols s = (r, s') ->
  r = Returns tt /\ order_relations s' ⊆ order_relations s /\ placed_nothing s s' /\
  (forall symbol, symbol ∈ position_symbols ->
     order_relations s' !! symbol = order_relations s !! symbol).
Proof.
  induction symbols as [|symbol rest IH]; intros s r s' H; cbn [settle_each] in H.
  - apply ret_inv in H as [-> ->]. repeat split; auto.
  - assert (Hone : forall u s1,
      (if negb (bool_decide (symbol ∈ position_symbols))
       then cancel_associated_orders T X symbol else ret tt) s = (u, s1) ->
      u = Returns tt /\ order_relations s1 ⊆ order_relations s /\ placed_nothing s s1 /\
      (forall other, other ∈ position_symbols ->
         order_relations s1 !! other = order_relations s !! other)).
    { intros u s1 Hu. destruct (bool_decide (symbol ∈ position_symbols)) eqn:Hin; cbn in Hu.
      - apply ret_inv in Hu as [-> ->]. repeat split; auto.
      - apply bool_decide_eq_false in Hin.
        pose proof (cancel_associated_orders_placed_nothing symbol _ _ _ Hu) as Hp.
        apply cancel_associated_orders_inv in Hu as (-> & _ & _ & [Hr | Hr]);
          rewrite Hr; repeat split; auto.
        + apply delete_subseteq.
        + intros other Hother. apply lookup_delete_ne. congruence. }
    apply bind_inv in H as [(u & s1 & H1 & H) | (e & H1 & _)].
    + apply Hone in H1 as (_ & Hsub1 & Hp1 & Hkeep1).
      apply IH in H as (-> & Hsub & Hp & Hkeep).
      split; [reflexivity|]. split; [etrans; eassumption|].
      split; [unfold placed_nothing in *; congruence|].
      intros other Hother. rewrite Hkeep, Hkeep1 by assumption. reflexivity.
    + apply Hone in H1 as (H1 & _). discriminate.
Qed.

(** With no position listed and the open orders always listed, the loop
    drops the record of every key it is given. *)
Lemma settle_all symbols : forall s,
  0 < max_retries s ->
  (forall k symbol, exists orders, X _ k (futures_get_open_orders symbol) = Returns orders) ->
  exists s',
    settle_each T X [] symbols s = (Returns tt, s') /\
    order_relations s' ⊆ order_relations s /\
    forall symbol, symbol ∈ symbols -> order_relations s' !! symbol = None.
Proof.
  induction symbols as [|symbol rest IH]; intros s Hmax Hlisted; cbn [settle_each].
  - eexists. split; [reflexivity|]. split; [reflexivity|].
    intros symbol Hin. apply elem_of_nil in Hin. contradiction.
  - rewrite bool_decide_eq_false_2 by apply not_elem_of_nil. cbn [negb].
    destruct (Hlisted (calls (proc s)) symbol) as [orders Hx].
    destruct (cancel_listed symbol s orders Hmax Hx) as (s1 & Hrun & Hr1 & Hm1).
    erewrite bind_returns by exact Hrun.
    destruct (IH s1) as (s' & Hrest & Hsub & Hgone); [lia | assumption |].
    exists s'. split; [assumption|].
    assert (Hsub1 : order_relations s1 ⊆ order_relations s)
      by (rewrite Hr1; apply delete_subseteq).
    split; [etrans; eassumption|].
    intros other Hin. apply elem_of_cons in Hin as [-> | Hin]; [|auto].
    eapply lookup_weaken_None; [|exact Hsub]. rewrite Hr1. apply lookup_delete_eq.
Qed.

(** [validate_symbol] never raises; True comes from a listing. *)
Lemma validate_symbol_run symbol s :
  exists b s',
    validate_symbol T X symbol s = (Returns b, s') /\ idle s s' /\
    (b = true ->
     exists k infos info,
       X _ k futures_exchange_info = Returns infos /\ info ∈ infos /\
       info_symbol info = symbol /\ info_status info = "TRADING"%string) /\
    (never_answers X futures_exchange_info -> b = false).
Proof.
  destruct (validate_symbol T X symbol s) as [r s'] eqn:H.
  assert (Hidle : idle s s').
  { revert H. unfold validate_symbol.
    apply preserves_try_catch; [apply idle_trans| |intros e; apply preserves_ret, idle_refl].
    apply preserves_bind; [apply idle_trans | now apply safe_request_idle |].
    intros infos. apply preserves_ret, idle_refl. }
  unfold validate_symbol in H.
  apply try_catch_inv in H as [(b & H & ->) | (e & s1 & _ & Hh)].
  - exists b, s'. split; [reflexivity|]. split; [assumption|].
    apply bind_returns_inv in H as (infos & s1 & Hreq & H).
    apply safe_request_inv in Hreq as (_ & _ & Hk).
    destruct (Hk infos eq_refl) as [k Hx].
    apply ret_inv in H as [H _]. injection H as ->. split.
    + intros Hb. apply existsb_exists in Hb as (info & Hin & Hf).
      apply andb_true_iff in Hf as [Hsym Hstatus].
      apply String.eqb_eq in Hsym. apply String.eqb_eq in Hstatus.
      exists k, infos, info. repeat split; auto. apply list_elem_of_In. assumption.
    + intros Hnever. destruct (Hnever k) as [e He]. congruence.
  - apply ret_inv in Hh as [-> ->]. exists false, s1.
    split; [reflexivity|]. split; [assumption|]. split; [discriminate | reflexivity].
Qed.

End WithWorld.

(** X8.  [safe_request] returns the first answer it gets: when the next
    [i] calls fail with errors other than code -4059 and the one after
    them is answered, with [i] below [max_retries], the call returns that
    answer after exactly [i + 1] calls and [i] sleeps of [retry_delay]
    seconds, the trader's attributes unchanged. *)
Theorem safe_request_retries_until_success
    (T : TimeSync.env) (X : exchange) (A : Type) (request_func : request A)
    (s : state) (i : nat) (a : A) :
  Z.of_nat i < max_retries s ->
  (forall j, (j < i)%nat ->
     exists e, X A (calls (proc s) + j)%nat request_func = Raises e /\
               has_code e (-4059) = false) ->
  X A (calls (proc s) + i)%nat request_func = Returns a ->
  exists s',
    safe_request T X request_func s = (Returns a, s') /\
    calls (proc s') = (calls (proc s) + i + 1)%nat /\
    slept (proc s') = slept (proc s) + Z.of_nat i * retry_delay s /\
    same_attrs s s'.
Proof.
  intros Hlt Hfail Hok. unfold safe_request. rewrite bind_get_state.
  apply attempts_first_success; [lia | assumption | assumption].
Qed.

Lemma safe_request_retries_until_success_witness :
  exists s',
    safe_request TimeSync.env_down (flaky 2 recv_window_error milli_lots)
      (futures_symbol_ticker "BTCUSDT") init = (Returns 64000%float, s') /\
    calls (proc s') = (calls (proc init) + 2 + 1)%nat /\
    slept (proc s') = slept (proc init) + Z.of_nat 2 * retry_delay init /\
    same_attrs init s'.
Proof.
  apply (safe_request_retries_until_success TimeSync.env_down
           (flaky 2 recv_window_error milli_lots) float
           (futures_symbol_ticker "BTCUSDT") init 2 64000%float).
  - cbn. lia.
  - intros j Hj. exists recv_window_error.
    destruct j as [|[|j]]; [split; reflexivity | split; reflexivity | lia].
  - reflexivity.
Defined.

(** X9.  [safe_request] makes at most [max_retries] calls.  A value it
    returns is the answer to the last call it made; an error it raises is
    one of those the exchange answered with during the call, or the
    generic "unknown request error".  With [max_retries] at zero or below
    it makes no call at all and raises the generic error. *)
Theorem safe_request_call_bound
    (T : TimeSync.env) (X : exchange) (A : Type) (request_func : request A)
    (s s' : state) (r : outcome A) :
  safe_request T X request_func s = (r, s') ->
  (calls (proc s) <= calls (proc s') <= calls (proc s) + Z.to_nat (max_retries s))%nat /\
  (forall a, r = Returns a -> X A (pred (calls (proc s'))) request_func = Returns a) /\
  (forall e, r = Raises e ->
     e = unknown_request_error \/
     exists k, (calls (proc s) <= k < calls (proc s'))%nat /\
               X A k request_func = Raises e) /\
  (max_retries s <= 0 ->
   r = Raises unknown_request_error /\ calls (proc s') = calls (proc s)).
Proof.
  unfold safe_request. rewrite bind_get_state. intros H.
  pose proof (attempts_calls T X request_func _ _ _ _ _ H) as (Hb & Hret & Hraise).
  split; [assumption|]. split; [intros a Ha; apply (Hret a Ha)|].
  split; [exact Hraise|].
  intros Hmax. replace (Z.to_nat (max_retries s)) with 0%nat in H by lia.
  cbn in H. apply raise_inv in H as [-> ->]. auto.
Qed.

Lemma safe_request_call_bound_witness :
  (calls (proc init)
   <= calls (proc (snd (safe_request TimeSync.env_down (failing internal_error)
                          futures_exchange_info init)))
   <= calls (proc init) + Z.to_nat (max_retries init))%nat /\
  (forall a,
     fst (safe_request TimeSync.env_down (failing internal_error)
            futures_exchange_info init) = Returns a ->
     failing internal_error _
       (pred (calls (proc (snd (safe_request TimeSync.env_down (failing internal_error)
                                  futures_exchange_info init)))))
       futures_exchange_info = Returns a) /\
  (forall e,
     fst (safe_request TimeSync.env_down (failing internal_error)
            futures_exchange_info init) = Raises e ->
     e = unknown_request_error \/
     exists k,
       (calls (proc init) <= k
        < calls (proc (snd (safe_request TimeSync.env_down (failing internal_error)
                              futures_exchange_info init))))%nat /\
       failing internal_error _ k futures_exchange_info = Raises e) /\
  (max_retries init <= 0 ->
   fst (safe_request TimeSync.env_down (failing internal_error)
          futures_exchange_info init) = Raises unknown_request_error /\
   calls (proc (snd (safe_request TimeSync.env_down (failing internal_error)
                       futures_exchange_info init))) = calls (proc init)).
Proof.
  apply (safe_request_call_bound TimeSync.env_down (failing internal_error) _
           futures_exchange_info init).
  apply surjective_pairing.
Defined.

(** X10.  [get_position] never raises, submits nothing and leaves the
    trader's attributes alone.  A position it returns is one the exchange
    listed for the symbol, with an amount above zero and with both its
    entry price and its mark price; when the listing never gets through it
    returns None. *)
Theorem get_position_long_only (T : TimeSync.env) (X : exchange) (symbol : string)
    (s : state) :
  exists o s',
    get_position T X symbol s = (Returns o, s') /\ idle s s' /\
    (forall pos, o = Some pos ->
       pos_symbol pos = symbol /\ (0 <? positionAmt pos)%float = true /\
       is_Some (entryPrice pos) /\ is_Some (markPrice pos) /\
       exists k listing,
         X _ k futures_position_information = Returns listing /\ pos ∈ listing) /\
    (never_answers X futures_position_information -> o = None).
Proof.
  destruct (get_position_run T X symbol s) as (o & s' & H & Hidle).
  exists o, s'. split; [assumption|]. split; [assumption|]. split.
  - intros pos ->. eapply get_position_found; eassumption.
  - intros Hnever. destruct o as [pos|]; [|reflexivity].
    apply get_position_found in H as (_ & _ & _ & _ & k & listing & Hx & _).
    destruct (Hnever k) as [e He]. congruence.
Qed.

(** X11.  [handle_existing_position] allows an entry exactly when
    [get_position] finds nothing: it returns False when a long position of
    the symbol is found and True otherwise, so also when the positions
    could not be listed at all.  It never raises. *)
Theorem handle_existing_position_iff (T : TimeSync.env) (X : exchange) (symbol : string)
    (s : state) :
  exists o s',
    get_position T X symbol s = (Returns o, s') /\
    handle_existing_position T X symbol s =
      (Returns (match o with None => true | Some _ => false end), s') /\
    (never_answers X futures_position_information ->
     handle_existing_position T X symbol s = (Returns true, s')).
Proof.
  destruct (get_position_run T X symbol s) as (o & s' & H & _).
  exists o, s'. split; [assumption|].
  assert (Hrun : handle_existing_position T X symbol s =
                 (Returns (match o with None => true | Some _ => false end), s')).
  { unfold handle_existing_position. erewrite bind_returns by exact H.
    destruct o as [pos|]; [|reflexivity].
    apply get_position_found in H as (_ & Hamt & _).
    rewrite (positive_not_zero _ Hamt), Hamt. reflexivity. }
  split; [assumption|].
  intros Hnever. rewrite Hrun. destruct o as [pos|]; [|reflexivity].
  apply get_position_found in H as (_ & _ & _ & _ & k & listing & Hx & _).
  destruct (Hnever k) as [e He]. congruence.
Qed.

(** X12.  [cancel_associated_orders] never raises.  Once the open orders
    of the symbol are listed it drops the symbol's record, whether the
    cancellations that follow succeed or not; while the open orders cannot
    be listed it keeps every record. *)
Theorem cancel_drops_record_once_listed (T : TimeSync.env) (X : exchange)
    (symbol : string) (s : state) :
  (forall orders,
     0 < max_retries s ->
     X _ (calls (proc s)) (futures_get_open_orders symbol) = Returns orders ->
     exists s',
       cancel_associated_orders T X symbol s = (Returns tt, s') /\
       order_relations s' = delete symbol (order_relations s)) /\
  (never_answers X (futures_get_open_orders symbol) ->
   exists s',
     cancel_associated_orders T X symbol s = (Returns tt, s') /\
     order_relations s' = order_relations s).
Proof.
  split.
  - intros orders Hmax Hx.
    destruct (cancel_listed T X symbol s orders Hmax Hx) as (s' & Hrun & Hr & _). eauto.
  - intros Hnever.
    destruct (cancel_unlisted T X symbol s Hnever) as (s' & Hrun & Hr & _). eauto.
Qed.

Lemma cancel_drops_record_once_listed_witness :
  (exists s',
     cancel_associated_orders TimeSync.env_down stuck_stop "BTCUSDT" tracking
       = (Returns tt, s') /\
     order_relations s' = delete "BTCUSDT" (order_relations tracking)) /\
  (exists s',
     cancel_associated_orders TimeSync.env_down (failing internal_error) "BTCUSDT" tracking
       = (Returns tt, s') /\
     order_relations s' = order_relations tracking).
Proof.
  split.
  - apply (proj1 (cancel_drops_record_once_listed TimeSync.env_down stuck_stop
                    "BTCUSDT" tracking) [resting_stop]).
    + cbn. lia.
    + reflexivity.
  - apply (proj2 (cancel_drops_record_once_listed TimeSync.env_down
                    (failing internal_error) "BTCUSDT" tracking)).
    intros k. exists internal_error. reflexivity.
Defined.

(** X13.  The three methods that maintain the stop-loss records touch
    the record of their own symbol only: whatever the exchange does and
    however they end, [cancel_associated_orders], [set_stop_loss] and
    [update_stop_loss] leave the record of every other symbol as it was. *)
Theorem stop_loss_calls_touch_one_symbol (T : TimeSync.env) (X : exchange)
    (symbol : string) (entry_price : float) :
  preserves (elsewhere symbol) (cancel_associated_orders T X symbol) /\
  (forall kline, preserves (elsewhere symbol) (set_stop_loss T X symbol entry_price kline)) /\
  preserves (elsewhere symbol) (update_stop_loss T X symbol entry_price).
Proof.
  pose proof (elsewhere_refl symbol) as Hrefl.
  pose proof (elsewhere_trans symbol) as Htrans.
  pose proof (idle_elsewhere symbol) as Hidle.
  pose proof (cancel_associated_orders_elsewhere T X symbol) as Hcancel.
  split; [assumption|]. split.
  - intros kline. unfold set_stop_loss.
    apply preserves_bind; [assumption | now apply keeps_get_position |].
    intros [position|]; [|apply preserves_ret; assumption].
    destruct (_ =? _)%float; [apply preserves_ret; assumption|].
    apply preserves_bind; [assumption | apply safe_request_elsewhere |].
    intros infos. destruct (lookup_by _ _ _); [|apply preserves_ret; assumption].
    apply preserves_bind; [assumption | apply preserves_of_option; assumption |].
    intros k. apply preserves_bind; [assumption | assumption |].
    intros _. apply preserves_try_catch; [assumption| |intros e; apply preserves_ret; assumption].
    apply preserves_bind; [assumption | apply safe_request_elsewhere |].
    intros order. apply track_elsewhere.
  - unfold update_stop_loss.
    apply preserves_try_catch; [assumption| |intros e; apply preserves_ret; assumption].
    apply preserves_bind; [assumption | now apply keeps_get_position |].
    intros [position|]; [|apply preserves_ret; assumption].
    destruct (_ =? _)%float; [apply preserves_ret; assumption|].
    apply preserves_bind; [assumption | now apply keeps_get_current_hour_klines |].
    intros [hour_kline|]; [|apply preserves_ret; assumption].
    destruct (_ <=? _)%float; [|apply preserves_ret; assumption].
    apply preserves_bind; [assumption | apply safe_request_elsewhere |].
    intros infos. destruct (lookup_by _ _ _); [|apply preserves_ret; assumption].
    apply preserves_bind; [assumption | apply preserves_of_option; assumption |].
    intros price. apply preserves_bind; [assumption | assumption |].
    intros _. apply preserves_try_catch; [assumption| |intros e; apply preserves_ret; assumption].
    apply preserves_bind; [assumption | apply safe_request_elsewhere |].
    intros order. apply preserves_bind; [assumption | apply safe_request_elsewhere |].
    intros verified. destruct (String.eqb _ _); [|apply preserves_ret; assumption].
    apply track_elsewhere.
Qed.

(** X14.  Called without a candle, as its default argument allows,
    [set_stop_loss] never places a stop: it returns None or raises, having
    submitted nothing and changed no record, and it raises a TypeError as
    soon as it has found the position and the symbol's exchange
    information. *)
Theorem set_stop_loss_without_candle (T : TimeSync.env) (X : exchange) (symbol : string)
    (entry_price : float) (s s' : state) (r : outcome (option Order)) :
  set_stop_loss T X symbol entry_price None s = (r, s') ->
  idle s s' /\
  (r = Returns None \/ exists e, r = Raises e) /\
  (forall position infos,
     0 < max_retries s ->
     fst (get_position T X symbol s) = Returns (Some position) ->
     (forall k, X _ k futures_exchange_info = Returns infos) ->
     is_Some (lookup_by info_symbol symbol infos) ->
     r = Raises TypeError).
Proof.
  unfold set_stop_loss. intros H.
  destruct (get_position_run T X symbol s) as (o & s1 & Hpos & Hidle1).
  erewrite bind_returns in H by exact Hpos.
  destruct o as [position|].
  2:{ apply ret_inv in H as [-> ->]. split; [assumption|]. split; [auto|].
      intros position infos _ Hfound. rewrite Hpos in Hfound. discriminate. }
  pose proof Hpos as Hfound.
  apply get_position_found in Hfound as (_ & Hamt & _).
  rewrite (positive_not_zero _ Hamt) in H.
  apply bind_inv in H as [(infos & s2 & Hreq & H) | (e & Hreq & ->)];
    pose proof (safe_request_idle T X futures_exchange_info eq_refl _ _ _ Hreq) as Hidle2.
  - apply safe_request_inv in Hreq as (_ & _ & Hk). destruct (Hk infos eq_refl) as [k Hx].
    destruct (lookup_by info_symbol symbol infos) as [symbol_info|] eqn:Hinfo.
    + cbn in H. apply raise_inv in H as [-> ->].
      split; [eapply idle_trans; eassumption|]. split; [eauto|]. reflexivity.
    + apply ret_inv in H as [-> ->].
      split; [eapply idle_trans; eassumption|]. split; [auto|].
      intros position' infos' _ _ Hall [info' Hlisted].
      rewrite Hall in Hx. injection Hx as <-. congruence.
  - split; [eapply idle_trans; eassumption|]. split; [eauto|].
    intros position' infos' Hmax _ Hall _. exfalso.
    destruct Hidle1 as [(_ & Hm1 & _) _].
    unfold safe_request in Hreq. rewrite bind_get_state in Hreq.
    destruct (Z.to_nat (max_retries s1)) as [|n] eqn:Hn; [lia|].
    rewrite (attempts_success T X n _ None s1 infos' (Hall _)) in Hreq. discriminate.
Qed.

Lemma set_stop_loss_without_candle_witness :
  idle init (snd (set_stop_loss TimeSync.env_down milli_lots "BTCUSDT" 100 None init)) /\
  (fst (set_stop_loss TimeSync.env_down milli_lots "BTCUSDT" 100 None init) = Returns None \/
   exists e,
     fst (set_stop_loss TimeSync.env_down milli_lots "BTCUSDT" 100 None init) = Raises e) /\
  (forall position infos,
     0 < max_retries init ->
     fst (get_position TimeSync.env_down milli_lots "BTCUSDT" init)
       = Returns (Some position) ->
     (forall k, milli_lots _ k futures_exchange_info = Returns infos) ->
     is_Some (lookup_by info_symbol "BTCUSDT" infos) ->
     fst (set_stop_loss TimeSync.env_down milli_lots "BTCUSDT" 100 None init)
       = Raises TypeError).
Proof.
  apply (set_stop_loss_without_candle TimeSync.env_down milli_lots "BTCUSDT" 100 init).
  apply surjective_pairing.
Defined.

(** X15.  [update_stop_loss] never raises, and it acts only for a long
    position whose latest hourly candle gained one percent or more:
    unless the exchange listed such a position for the symbol and answered
    the candle request with a candle of (close - open) / open * 100 >= 1,
    the call returns None, submits no order and changes no record. *)
Theorem update_stop_loss_needs_gain (T : TimeSync.env) (X : exchange) (symbol : string)
    (entry_price : float) (s : state) :
  exists o s',
    update_stop_loss T X symbol entry_price s = (Returns o, s') /\
    ((o = None /\ idle s s') \/
     (exists k listing pos,
        X _ k futures_position_information = Returns listing /\ pos ∈ listing /\
        pos_symbol pos = symbol /\ (0 <? positionAmt pos)%float = true) /\
     (exists k candle rest,
        X _ k (futures_klines symbol "1h" 1) = Returns (candle :: rest) /\
        (1 <=? (raw_close candle - raw_open candle) / raw_open candle * 100)%float = true)).
Proof.
  destruct (update_stop_loss T X symbol entry_price s) as [r s'] eqn:H.
  unfold update_stop_loss in H.
  match type of H with
  | try_catch ?body _ _ = _ =>
      assert (Hwalk : forall r0 s1, body s = (r0, s1) ->
        (idle s s1 /\ forall o, r0 = Returns o -> o = None) \/
        (exists k listing pos,
           X _ k futures_position_information = Returns listing /\ pos ∈ listing /\
           pos_symbol pos = symbol /\ (0 <? positionAmt pos)%float = true) /\
        (exists k candle rest,
           X _ k (futures_klines symbol "1h" 1) = Returns (candle :: rest) /\
           (1 <=? (raw_close candle - raw_open candle) / raw_open candle * 100)%float
           = true))
  end.
  { intros r0 s1 Hb.
    apply bind_inv in Hb as [(position & s2 & Hpos & Hb) | (e & Hpos & _)];
      [|apply get_position_inv in Hpos as ([o Ho] & _); discriminate].
    pose proof (keeps_get_position T X idle idle_refl idle_trans (fun _ _ Hi => Hi)
                  symbol _ _ _ Hpos) as Hi1.
    destruct position as [pos|];
      [|apply ret_inv in Hb as [-> ->]; left; split; [assumption|];
        intros o Ho; injection Ho as <-; reflexivity].
    destruct (positionAmt pos =? 0)%float;
      [apply ret_inv in Hb as [-> ->]; left; split; [assumption|];
       intros o Ho; injection Ho as <-; reflexivity|].
    apply get_position_found in Hpos as (Hsym & Hamt & _ & _ & k1 & listing & Hx1 & Hin).
    assert (Hi2 : forall rr s3, get_current_hour_klines T X symbol s2 = (rr, s3) ->
                                idle s s3).
    { intros rr s3 Hh. eapply idle_trans; [exact Hi1|].
      eapply (keeps_get_current_hour_klines T X idle idle_refl idle_trans
                (fun _ _ Hi => Hi)); eassumption. }
    apply bind_inv in Hb as [(hour_kline & s3 & Hhour & Hb) | (e & Hhour & ->)];
      [|left; split; [eapply Hi2; eassumption | discriminate]].
    pose proof (Hi2 _ _ Hhour) as Hi3.
    destruct hour_kline as [hour_kline|];
      [|apply ret_inv in Hb as [-> ->]; left; split; [assumption|];
        intros o Ho; injection Ho as <-; reflexivity].
    destruct (1 <=? price_change_pct hour_kline)%float eqn:Hgain;
      [|apply ret_inv in Hb as [-> ->]; left; split; [assumption|];
        intros o Ho; injection Ho as <-; reflexivity].
    right. split; [eauto 8|].
    apply get_current_hour_klines_found in Hhour as (k2 & candle & rest & Hx2 & Hpct & _).
    rewrite Hpct in Hgain. eauto. }
  apply try_catch_inv in H as [(o & H & ->) | (e & s1 & H & Hh)].
  - exists o, s'. split; [reflexivity|].
    apply Hwalk in H as [[Hi Ho] | Hright]; [left | right; assumption].
    split; [apply Ho; reflexivity | assumption].
  - apply ret_inv in Hh as [-> ->]. exists None, s1. split; [reflexivity|].
    apply Hwalk in H as [[Hi _] | Hright]; [left; auto | right; assumption].
Qed.

(** X16.  A division by zero inside [calculate_quantity] is swallowed: when
    the price the exchange quotes is zero, or when the step size of the
    LOT_SIZE filter is zero, the result is None. *)
Theorem calculate_quantity_zero_division (T : TimeSync.env) (X : exchange)
    (symbol : string) (usdt_amount leverage : float) (s : state) :
  ((forall k price, X float k (futures_symbol_ticker symbol) = Returns price ->
                    (price =? 0)%float = true) ->
   fst (calculate_quantity T X symbol usdt_amount leverage s) = Returns None) /\
  ((forall k infos symbol_info lot,
      X _ k futures_exchange_info = Returns infos ->
      lookup_by info_symbol symbol infos = Some symbol_info ->
      lookup_by filterType "LOT_SIZE" (filters symbol_info) = Some lot ->
      (stepSize lot =? 0)%float = true) ->
   fst (calculate_quantity T X symbol usdt_amount leverage s) = Returns None).
Proof.
  split; intros Hzero;
    destruct (calculate_quantity T X symbol usdt_amount leverage s) as [r s'] eqn:H;
    unfold calculate_quantity in H;
    (apply try_catch_inv in H as [(o & H & ->) | (e & s1 & _ & Hh)];
      [|apply ret_inv in Hh as [-> _]; reflexivity]);
    cbn;
    apply bind_returns_inv in H as (price & s1 & Hprice & H);
    apply safe_request_inv in Hprice as (_ & _ & Hk1);
    destruct (Hk1 price eq_refl) as [k1 Hx1];
    apply bind_returns_inv in H as (raw & s2 & Hraw & H).
  - unfold py_div in Hraw. rewrite (Hzero _ _ Hx1) in Hraw.
    apply raise_inv in Hraw as [Hraw _]. discriminate.
  - apply bind_returns_inv in H as (infos & s3 & Hinfos & H).
    apply safe_request_inv in Hinfos as (_ & _ & Hk2).
    destruct (Hk2 infos eq_refl) as [k2 Hx2].
    destruct (lookup_by info_symbol symbol infos) as [symbol_info|] eqn:Hinfo;
      [|apply ret_inv in H as [H _]; exact H].
    destruct (lookup_by filterType "LOT_SIZE" (filters symbol_info)) as [lot|] eqn:Hlot;
      [|apply ret_inv in H as [H _]; exact H].
    apply bind_returns_inv in H as (ratio & s4 & Hratio & H).
    unfold py_div in Hratio. rewrite (Hzero _ _ _ _ Hx2 Hinfo Hlot) in Hratio.
    apply raise_inv in Hratio as [Hratio _]. discriminate.
Qed.

Lemma calculate_quantity_zero_division_witness :
  fst (calculate_quantity TimeSync.env_down zero_price "BTCUSDT" 20 10 init) = Returns None /\
  fst (calculate_quantity TimeSync.env_down
         (btc_exchange (btc_info 0 0.001 3) 64000 rising_candle accept_order)
         "BTCUSDT" 20 10 init) = Returns None.
Proof.
  split.
  - apply (proj1 (calculate_quantity_zero_division TimeSync.env_down zero_price
                    "BTCUSDT" 20 10 init)).
    intros k price Hx. injection Hx as <-. reflexivity.
  - apply (proj2 (calculate_quantity_zero_division TimeSync.env_down
                    (btc_exchange (btc_info 0 0.001 3) 64000 rising_candle accept_order)
                    "BTCUSDT" 20 10 init)).
    intros k infos symbol_info lot Hx Hinfo Hlot.
    injection Hx as <-. vm_compute in Hinfo. injection Hinfo as <-.
    vm_compute in Hlot. injection Hlot as <-. reflexivity.
Defined.

(** X17.  [check_order_execution] never raises, submits no order, and only
    ever drops records: every record left was there before, unchanged.  The
    record of a symbol is kept whenever the positions it works from, the
    long positions of an answer of the exchange, hold one of that
    symbol. *)
Theorem check_order_execution_keeps_open_positions (T : TimeSync.env) (X : exchange)
    (keys : gmap string (gmap string Z) -> list string) (s : state) :
  exists s' positions,
    check_order_execution T X keys s = (Returns tt, s') /\
    order_relations s' ⊆ order_relations s /\ placed_nothing s s' /\
    (positions = [] \/
     exists k listing,
       X _ k futures_position_information = Returns listing /\ positions = longs listing) /\
    (forall pos, pos ∈ positions ->
       order_relations s' !! pos_symbol pos = order_relations s !! pos_symbol pos).
Proof.
  destruct (get_positions_run T X s) as (positions & s1 & Hpos & [(Hr1 & _) Hp1] & Hfrom).
  unfold check_order_execution, try_catch.
  erewrite bind_returns by exact Hpos. rewrite bind_get_state.
  destruct (settle_each T X (List.map pos_symbol positions) (keys (order_relations s1)) s1)
    as [r s'] eqn:Hloop.
  apply settle_each_inv in Hloop as (-> & Hsub & Hp & Hkeep).
  exists s', positions. split; [reflexivity|].
  rewrite Hr1 in Hsub. split; [assumption|].
  split; [unfold placed_nothing in *; congruence|]. split; [assumption|].
  intros pos Hin. rewrite Hkeep, Hr1; [reflexivity|].
  apply list_elem_of_fmap. exists pos. auto.
Qed.

Lemma sorted_keys_lists_keys : lists_keys sorted_keys.
Proof.
  intros relations symbol [record Hrecord]. unfold sorted_keys.
  apply list_elem_of_fmap. exists (symbol, record). split; [reflexivity|].
  apply elem_of_map_to_list. assumption.
Qed.

(** X18.  A failed position listing reads as "no position anywhere".  When
    the positions cannot be listed while the open orders can,
    [check_order_execution] treats every tracked symbol as closed: it
    cancels for each of them and is left with no record at all. *)
Theorem check_order_execution_listing_failure (T : TimeSync.env) (X : exchange)
    (keys : gmap string (gmap string Z) -> list string) (s : state) :
  never_answers X futures_position_information ->
  (forall k symbol, exists orders,
     X _ k (futures_get_open_orders symbol) = Returns orders) ->
  0 < max_retries s -> lists_keys keys ->
  exists s',
    check_order_execution T X keys s = (Returns tt, s') /\ order_relations s' = ∅.
Proof.
  intros Hnever Hlisted Hmax Hkeys.
  destruct (safe_request_never_answered T X futures_position_information s Hnever)
    as (e & s1 & Hreq).
  pose proof Hreq as Hattrs. apply safe_request_inv in Hattrs as ((Hr1 & Hm1 & _) & _).
  assert (Hpos : get_positions T X s = (Returns [], s1)).
  { unfold get_positions, try_catch. erewrite bind_raises by exact Hreq. reflexivity. }
  unfold check_order_execution, try_catch.
  erewrite bind_returns by exact Hpos. rewrite bind_get_state.
  destruct (settle_all T X (keys (order_relations s1)) s1) as (s' & Hloop & Hsub & Hgone);
    [lia | assumption |].
  cbn [List.map]. rewrite Hloop. exists s'. split; [reflexivity|].
  apply map_eq. intros symbol. rewrite lookup_empty.
  destruct (order_relations s1 !! symbol) as [record|] eqn:Hrecord.
  - apply Hgone, Hkeys. eauto.
  - eapply lookup_weaken_None; eassumption.
Qed.

Lemma check_order_execution_listing_failure_witness :
  exists s',
    check_order_execution TimeSync.env_down stuck_stop sorted_keys tracking
      = (Returns tt, s') /\
    order_relations s' = ∅.
Proof.
  apply (check_order_execution_listing_failure TimeSync.env_down stuck_stop
           sorted_keys tracking).
  - intros k. exists internal_error. reflexivity.
  - intros k symbol. exists [resting_stop]. reflexivity.
  - cbn. lia.
  - apply sorted_keys_lists_keys.
Defined.

(** X19.  [validate_symbol] never raises and changes nothing.  It returns
    True only for a symbol that an answer of the exchange lists with the
    status TRADING, and False when the exchange information never gets
    through. *)
Theorem validate_symbol_sound (T : TimeSync.env) (X : exchange) (symbol : string)
    (s : state) :
  exists b s',
    validate_symbol T X symbol s = (Returns b, s') /\ idle s s' /\
    (b = true ->
     exists k infos info,
       X _ k futures_exchange_info = Returns infos /\ info ∈ infos /\
       info_symbol info = symbol /\ info_status info = "TRADING"%string) /\
    (never_answers X futures_exchange_info -> b = false).
Proof. apply validate_symbol_run. Qed.

End TraderMoreFacts.

(** * More facts about binance_take_profit.py *)

Module MonitorMoreFacts.
Import PyNum PyStr Binance Monitor MonitorMore MonitorFacts.

Local Open Scope Z_scope.

Lemma still_refl s : still s s.
Proof. split; [apply quiet_refl | reflexivity]. Qed.

Lemma still_trans s1 s2 s3 : still s1 s2 -> still s2 s3 -> still s1 s3.
Proof.
  intros [Hq1 Hc1] [Hq2 Hc2]. split; [eapply quiet_trans; eauto | congruence].
Qed.

Lemma still_called params s s' : still s s' -> called params 0 s s'.
Proof.
  intros [[Hm Hs] Hc]. split; [assumption|]. split; [lia|].
  cbn. rewrite app_nil_r. assumption.
Qed.

Lemma called_trans params j k s1 s2 s3 :
  called params j s1 s2 -> called params k s2 s3 -> called params (j + k) s1 s3.
Proof.
  intros (Hm1 & Hc1 & Hs1) (Hm2 & Hc2 & Hs2).
  split; [eapply same_monitor_trans; eauto|]. split; [lia|].
  rewrite Hs2, Hs1, <- app_assoc, replicate_add, concat_app. reflexivity.
Qed.

Lemma called_still params k s1 s2 s3 :
  called params k s1 s2 -> still s2 s3 -> called params k s1 s3.
Proof.
  intros H1 H2. apply (still_called params) in H2.
  replace k with (k + 0)%nat by lia. eapply called_trans; eassumption.
Qed.

Lemma only_refl P s : only P s s.
Proof. exists []. rewrite app_nil_r. auto. Qed.

Lemma only_trans P s1 s2 s3 : only P s1 s2 -> only P s2 s3 -> only P s1 s3.
Proof.
  intros (n1 & Hs1 & Hf1) (n2 & Hs2 & Hf2). exists (n1 ++ n2).
  split; [rewrite Hs2, Hs1, app_assoc; reflexivity | apply Forall_app; auto].
Qed.

Lemma quiet_only P s s' : quiet s s' -> only P s s'.
Proof. intros [_ Hs]. exists []. rewrite app_nil_r. auto. Qed.

(** A method of the time manager changes the clock and nothing else. *)
Lemma on_clock_inv {A} (m : M TimeSync.state A) s r s' :
  on_process (on_clock m) s = (r, s') ->
  m (clock (proc s)) = (r, clock (proc s')) /\ still s s'.
Proof.
  intros H. pose proof (on_clock_quiet m _ _ _ H) as Hq.
  apply monitor_process_inv in H as [H _]. unfold on_clock in H.
  destruct (m (clock (proc s))) as [r0 c]. injection H as -> Hp. unfold still.
  rewrite <- Hp. cbn. split; [reflexivity|]. split; [assumption | reflexivity].
Qed.

Lemma sleep_run seconds s :
  exists s1, on_process (sleep seconds) s = (Returns tt, s1) /\ still s s1.
Proof.
  unfold on_process, sleep, modify. cbn. eexists. split; [reflexivity|].
  repeat split.
Qed.

Section WithWorld.
Variable T : TimeSync.env.
Variable X : exchange.

Lemma resync_still s :
  exists o s1,
    on_process (on_clock (TimeSync.sync_time T false)) s = (Returns o, s1) /\ still s s1.
Proof.
  destruct (on_process (on_clock (TimeSync.sync_time T false)) s) as [r s1] eqn:H.
  pose proof H as Hinv. apply on_clock_inv in Hinv as [Hsync Hstill].
  apply TimeSyncFacts.sync_time_inv in Hsync as [(-> & _) | [(-> & _) | (-> & _)]]; eauto.
Qed.

Lemma monitor_call_run {A} (request_func : request A) s :
  exists s1,
    on_process (call X request_func) s = (X A (calls (proc s)) request_func, s1) /\
    called (order_params request_func) 1 s s1.
Proof.
  unfold on_process, call. cbn. eexists. split; [reflexivity|].
  split; [repeat split|]. cbn. split; [lia|]. rewrite app_nil_r. reflexivity.
Qed.

(** The [try] block makes its call unless the clock fails it first. *)
Lemma try_request_inv {A} (request_func : request A) s r s' :
  try_request T X request_func s = (r, s') ->
  (r = X A (calls (proc s)) request_func /\ called (order_params request_func) 1 s s') \/
  ((exists e, r = Raises e) /\ still s s' /\ exists k, TimeSync.reading T k = None).
Proof.
  unfold try_request. intros H.
  apply bind_inv in H as [(timestamp & s1 & H1 & H) | (e & H1 & ->)];
    apply on_clock_inv in H1 as [H1 Hs1].
  2:{ right. split; [eauto|]. split; [assumption|].
      eapply TimeSyncMoreFacts.get_synced_timestamp_raises; eassumption. }
  apply bind_inv in H as [(now & s2 & H2 & H) | (e & H2 & ->)];
    apply on_clock_inv in H2 as [H2 Hs2].
  2:{ right. split; [eauto|]. split; [eapply still_trans; eassumption|].
      apply TimeSyncFacts.now_ms_inv in H2
        as (_ & _ & _ & _ & _ & [(z & _ & Hz) | [Hnone _]]); [discriminate | eauto]. }
  assert (Hs12 : still s s2) by (eapply still_trans; eassumption).
  apply bind_inv in H as [(t' & s3 & H3 & H) | (e & H3 & ->)].
  - assert (Hs3 : still s2 s3).
    { destruct (_ <? _).
      - apply bind_inv in H3 as [(o & s4 & H4 & H3) | (e & H4 & _)];
          apply on_clock_inv in H4 as [_ Hs4]; [|assumption].
        apply on_clock_inv in H3 as [_ Hs3]. eapply still_trans; eassumption.
      - apply ret_inv in H3 as [_ ->]. apply still_refl. }
    assert (Hs13 : still s s3) by (eapply still_trans; eassumption).
    destruct (monitor_call_run request_func s3) as (s4 & Hrun & Hcalled).
    rewrite Hrun in H. injection H as <- <-. left.
    destruct Hs13 as [Hq Hc]. rewrite Hc. split; [reflexivity|].
    replace 1%nat with (0 + 1)%nat by lia.
    eapply called_trans; [apply still_called; split; eassumption | exact Hcalled].
  - right. split; [eauto|].
    destruct (_ <? _); [|apply ret_inv in H3 as [H3 _]; discriminate].
    apply bind_inv in H3 as [(o & s4 & H4 & H3) | (e' & H4 & He)].
    + apply on_clock_inv in H4 as [_ Hs4]. apply on_clock_inv in H3 as [H3 Hs3].
      split; [eapply still_trans; [exact Hs12|]; eapply still_trans; eassumption|].
      eapply TimeSyncMoreFacts.get_synced_timestamp_raises; eassumption.
    + destruct (resync_still s2) as (o & s4 & Hre & _). rewrite Hre in H4. discriminate.
Qed.

(** The calls of the retry loop: at most one per attempt, each of them
    submitting the request once more. *)
Lemma attempts_called {A} (request_func : request A) n : forall last s r s',
  attempts T X n request_func last s = (r, s') ->
  exists k, (k <= n)%nat /\ called (order_params request_func) k s s' /\
    (forall a, r = Returns a ->
       (1 <= k)%nat /\ X A (pred (calls (proc s'))) request_func = Returns a).
Proof.
  induction n as [|n IH]; intros last s r s' H; cbn [attempts] in H.
  - apply raise_inv in H as [-> ->]. exists 0%nat. split; [lia|].
    split; [apply still_called, still_refl | discriminate].
  - apply try_catch_inv in H as [(a & H & ->) | (e & s1 & Htry & H)].
    + apply try_request_inv in H as [[Hx Hcalled] | [[e He] _]]; [|discriminate].
      exists 1%nat. split; [lia|]. split; [assumption|].
      intros a' Ha'. injection Ha' as <-. split; [lia|].
      destruct Hcalled as (_ & Hc & _). rewrite Hc.
      replace (pred (calls (proc s) + 1)) with (calls (proc s)) by lia. auto.
    + assert (Hfirst : exists k0, (k0 <= 1)%nat /\
                called (order_params request_func) k0 s s1).
      { apply try_request_inv in Htry as [[_ Hc] | (_ & Hs & _)];
          [exists 1%nat | exists 0%nat]; (split; [lia|]); auto using still_called. }
      destruct Hfirst as (k0 & Hk0 & Hcalled0).
      assert (Hrest : (exists last' s2, still s1 s2 /\
                         attempts T X n request_func last' s2 = (r, s')) \/
                      (still s1 s' /\ exists e', r = Raises e')).
      { destruct (has_code e 1021).
        - apply bind_inv in H as [(u & s2 & H1 & H) | (e' & H1 & ->)].
          + assert (Hq : still s1 s2).
            { destruct (contains _ _); [apply ret_inv in H1 as [_ ->]; apply still_refl|].
              destruct (contains _ _); [|apply ret_inv in H1 as [_ ->]; apply still_refl].
              apply bind_returns_inv in H1 as (o & s3 & H1 & H2).
              apply ret_inv in H2 as [_ ->]. apply on_clock_inv in H1 as [_ H1].
              assumption. }
            destruct (sleep_run 1 s2) as (s3 & Hsleep & Hs3).
            erewrite bind_returns in H by exact Hsleep.
            left. exists last, s3. split; [eapply still_trans; eassumption | assumption].
          + right. split; [|eauto].
            destruct (contains _ _); [apply ret_inv in H1 as [H1 _]; discriminate|].
            destruct (contains _ _); [|apply ret_inv in H1 as [H1 _]; discriminate].
            apply bind_inv in H1 as [(o & s3 & _ & H2) | (e'' & H1 & _)].
            * apply ret_inv in H2 as [H2 _]. discriminate.
            * apply on_clock_inv in H1 as [_ H1]. assumption.
        - destruct (_ || _).
          + destruct (resync_still s1) as (o & s2 & Hre & Hs2).
            erewrite bind_returns in H by exact Hre.
            destruct (sleep_run 1 s2) as (s3 & Hsleep & Hs3).
            erewrite bind_returns in H by exact Hsleep.
            left. exists last, s3. split; [eapply still_trans; eassumption | assumption].
          + destruct (sleep_run 1 s1) as (s2 & Hsleep & Hs2).
            erewrite bind_returns in H by exact Hsleep.
            left. exists (Some e), s2. split; assumption. }
      destruct Hrest as [(last' & s2 & Hs2 & Hrest) | (Hs' & e' & ->)].
      * apply IH in Hrest as (k & Hk & Hcalled & Hret).
        exists (k0 + k)%nat. split; [lia|]. split.
        -- eapply called_trans; [eapply called_still; eassumption | assumption].
        -- intros a Ha. destruct (Hret a Ha) as [Hge Hans]. split; [lia | assumption].
      * exists k0. split; [lia|]. split; [eapply called_still; eassumption | discriminate].
Qed.

(** When every failure is taken for clock trouble, nothing is ever
    recorded and the loop ends in [raise None]. *)
Lemma attempts_all_timing {A} (request_func : request A) n :
  finite_clock T ->
  (forall k, exists e, X A k request_func = Raises e /\ timing e) ->
  forall s, exists s',
    attempts T X n request_func None s = (Raises TypeError, s') /\
    called (order_params request_func) n s s'.
Proof.
  intros Hclock Hfail. induction n as [|n IH]; intros s; cbn [attempts].
  - eexists. split; [reflexivity|]. apply still_called, still_refl.
  - destruct (try_request T X request_func s) as [r s1] eqn:Htry.
    pose proof Htry as Hinv.
    apply try_request_inv in Hinv as [[Hr Hcalled] | (_ & _ & k & Hnone)].
    2:{ destruct (Hclock k) as [z Hz]. congruence. }
    destruct (Hfail (calls (proc s))) as (e & Hx & Htiming).
    rewrite Hx in Hr. subst r. unfold try_catch. rewrite Htry.
    assert (Hgo : forall s2, still s1 s2 ->
              exists s', attempts T X n request_func None s2 = (Raises TypeError, s') /\
                         called (order_params request_func) (S n) s s').
    { intros s2 Hs2. destruct (IH s2) as (s' & Hrun & Hc). exists s'.
      split; [assumption|]. replace (S n) with (1 + n)%nat by lia.
      eapply called_trans; [eapply called_still; eassumption | assumption]. }
    destruct (has_code e 1021) eqn:Hcode.
    + assert (Hhead : exists s2,
                (if contains "ahead" (lower (exc_msg e)) then ret tt
                 else if contains "behind" (lower (exc_msg e))
                      then bind (on_process (on_clock (TimeSync.sync_time T false)))
                                (fun _ => ret tt)
                      else ret tt) s1 = (Returns tt, s2) /\ still s1 s2).
      { destruct (contains _ _); [eexists; split; [reflexivity | apply still_refl]|].
        destruct (contains _ _); [|eexists; split; [reflexivity | apply still_refl]].
        destruct (resync_still s1) as (o & s2 & Hre & Hs2).
        exists s2. split; [|assumption]. erewrite bind_returns by exact Hre. reflexivity. }
      destruct Hhead as (s2 & Hhead & Hs2).
      erewrite bind_returns by exact Hhead.
      destruct (sleep_run 1 s2) as (s3 & Hsleep & Hs3).
      erewrite bind_returns by exact Hsleep.
      apply Hgo. eapply still_trans; eassumption.
    + destruct Htiming as [Hc | Hmsg]; [congruence|]. rewrite Hmsg.
      destruct (resync_still s1) as (o & s2 & Hre & Hs2).
      erewrite bind_returns by exact Hre.
      destruct (sleep_run 1 s2) as (s3 & Hsleep & Hs3).
      erewrite bind_returns by exact Hsleep.
      apply Hgo. eapply still_trans; eassumption.
Qed.

Lemma get_positions_returns s :
  exists positions s1, get_positions T X s = (Returns positions, s1) /\ quiet s s1.
Proof.
  destruct (get_positions T X s) as [r s1] eqn:H.
  pose proof (get_positions_quiet T X _ _ _ H) as Hq.
  unfold get_positions in H.
  apply try_catch_inv in H as [(a & _ & ->) | (e & s2 & _ & Hh)]; [eauto|].
  apply ret_inv in Hh as [-> _]. eauto.
Qed.

(** The half-close of a listed position only submits orders that close
    part of it. *)
Lemma take_profit_half_position_only positions position :
  position ∈ positions ->
  preserves (only (closes positions))
            (take_profit_half_position T X (pos_symbol position) position).
Proof.
  intros Hin s r s' H.
  apply take_profit_half_position_inv in H as (b & _ & [[_ Hq] | (j & Hord & _)]).
  - apply quiet_only. assumption.
  - destruct Hord as (infos & symbol_info & q & k & _ & _ & _ & Hsub).
    eexists. split; [exact Hsub|]. apply Forall_replicate. exists position, q. auto.
Qed.

Lemma check_each_only all positions :
  (forall position, position ∈ positions -> position ∈ all) ->
  preserves (only (closes all)) (check_each T X positions).
Proof.
  pose proof (only_refl (closes all)) as Hrefl.
  pose proof (only_trans (closes all)) as Htrans.
  induction positions as [|position rest IH]; intros Hall; cbn [check_each].
  - apply preserves_ret; assumption.
  - apply preserves_bind; [assumption | apply preserves_of_option; assumption |].
    intros entry_price. intros s r s' H. rewrite bind_get_state in H. revert H.
    apply preserves_bind; [assumption| |].
    + destruct (bool_decide _); [apply preserves_ret; assumption|].
      apply preserves_bind; [assumption| |].
      * intros s2 r2 s3 Hp. apply quiet_only.
        eapply get_current_price_quiet; eassumption.
      * intros [current_price|]; [|apply preserves_ret; assumption].
        apply preserves_bind; [assumption| |].
        -- destruct (_ <? _)%float; apply preserves_py_div; assumption.
        -- intros ratio. destruct (_ <=? _)%float; [|apply preserves_ret; assumption].
           apply preserves_bind; [assumption| |intros _; apply preserves_ret; assumption].
           apply take_profit_half_position_only. apply Hall, list_elem_of_here.
    + intros _. apply IH. intros p Hp. apply Hall, list_elem_of_further. assumption.
Qed.

(** A check never raises. *)
Lemma check_run s :
  exists positions s1 s',
    get_positions T X s = (Returns positions, s1) /\
    check_and_execute_take_profit T X s = (Returns tt, s') /\
    only (closes positions) s s' /\
    (positions = [] -> s' = s1).
Proof.
  destruct (get_positions_returns s) as (positions & s1 & Hget & Hq1).
  exists positions, s1.
  unfold check_and_execute_take_profit, try_catch. erewrite bind_returns by exact Hget.
  destruct positions as [|position rest].
  { exists s1. split; [exact Hget|]. split; [reflexivity|].
    split; [apply quiet_only; assumption | reflexivity]. }
  unfold bind at 1, modify.
  match goal with |- context [check_each T X ?ps ?s2] =>
    destruct (check_each T X ps s2) as [r3 s3] eqn:Hloop
  end.
  exists s3. split; [exact Hget|].
  split; [destruct r3 as [[]|e]; reflexivity|]. split; [|discriminate].
  apply check_each_only with (all := position :: rest) in Hloop; [|auto].
  destruct Hloop as (new & Hnew & Hforall). exists new. split; [|assumption].
  rewrite Hnew. cbn. destruct Hq1 as [_ ->]. reflexivity.
Qed.

Lemma sleeps_run k : forall s,
  exists s', sleeps k s = (Returns tt, s') /\ quiet s s'.
Proof.
  induction k as [|k IH]; intros s; cbn [sleeps].
  - eexists. split; [reflexivity | apply quiet_refl].
  - destruct (sleep_run 1 s) as (s1 & Hsleep & [Hq1 _]).
    erewrite bind_returns by exact Hsleep.
    destruct (IH s1) as (s' & Hrun & Hq). exists s'.
    split; [assumption | eapply quiet_trans; eassumption].
Qed.

(** One round of the monitoring loop, and the rounds after it. *)
Lemma rounds_step n s :
  exists s1 s2,
    check_and_execute_take_profit T X s = (Returns tt, s1) /\ quiet s1 s2 /\
    snd (rounds T X 1 s) = s2 /\
    rounds T X (S n) s = rounds T X n s2.
Proof.
  destruct (check_run s) as (positions & s0 & s1 & _ & Hcheck & _).
  destruct (sleeps_run (Z.to_nat (check_interval s1)) s1) as (s2 & Hsleeps & Hq).
  exists s1, s2. split; [assumption|]. split; [assumption|].
  cbn [rounds]. split.
  - erewrite bind_returns by exact Hcheck. rewrite bind_get_state.
    erewrite bind_returns by exact Hsleeps. reflexivity.
  - erewrite bind_returns by exact Hcheck. rewrite bind_get_state.
    erewrite bind_returns by exact Hsleeps. reflexivity.
Qed.

End WithWorld.

(** X20.  The monitor's [safe_request] loses the error when every
    failure looks like clock trouble.  With a clock that reads finite
    numbers, when each call fails with code 1021 or with a message that
    contains "Timestamp" or, in lower case, "time", no failure is ever
    recorded: after three calls the final [raise last_exception] raises
    None, which Python turns into a TypeError. *)
Theorem safe_request_raises_type_error
    (T : TimeSync.env) (X : exchange) (A : Type) (request_func : request A) (s : state) :
  finite_clock T ->
  (forall k, exists e, X A k request_func = Raises e /\ timing e) ->
  exists s',
    safe_request T X request_func s = (Raises TypeError, s') /\
    called (order_params request_func) 3 s s'.
Proof.
  intros Hclock Hfail. unfold safe_request.
  apply attempts_all_timing; assumption.
Qed.

Lemma safe_request_raises_type_error_witness :
  exists s',
    safe_request TimeSyncMore.env_still timing_out futures_position_information init
      = (Raises TypeError, s') /\
    called (order_params futures_position_information) 3 init s'.
Proof.
  apply (safe_request_raises_type_error TimeSyncMore.env_still timing_out _
           futures_position_information init).
  - intros k. vm_compute. eauto.
  - intros k. exists timeout_error. split; [reflexivity|]. right. vm_compute. reflexivity.
Defined.

(** X21.  The monitor's [safe_request] makes at most three calls, and every
    call submits the request anew: an order passed to it is submitted as
    many times as calls were made, up to three times.  A value it returns
    is the answer to the last call it made. *)
Theorem monitor_safe_request_bound
    (T : TimeSync.env) (X : exchange) (A : Type) (request_func : request A)
    (s s' : state) (r : outcome A) :
  safe_request T X request_func s = (r, s') ->
  exists k, (k <= 3)%nat /\ called (order_params request_func) k s s' /\
    (forall a, r = Returns a ->
       (1 <= k)%nat /\ X A (pred (calls (proc s'))) request_func = Returns a).
Proof. unfold safe_request. apply attempts_called. Qed.

Lemma monitor_safe_request_bound_witness :
  exists k, (k <= 3)%nat /\
    called (order_params (futures_create_order (close_order "BTCUSDT" SIDE_SELL 2))) k init
      (snd (safe_request TimeSyncMore.env_still timing_out
              (futures_create_order (close_order "BTCUSDT" SIDE_SELL 2)) init)) /\
    (forall a,
       fst (safe_request TimeSyncMore.env_still timing_out
              (futures_create_order (close_order "BTCUSDT" SIDE_SELL 2)) init) = Returns a ->
       (1 <= k)%nat /\
       timing_out _
         (pred (calls (proc (snd (safe_request TimeSyncMore.env_still timing_out
                                    (futures_create_order (close_order "BTCUSDT" SIDE_SELL 2))
                                    init)))))
         (futures_create_order (close_order "BTCUSDT" SIDE_SELL 2)) = Returns a).
Proof.
  apply (monitor_safe_request_bound TimeSyncMore.env_still timing_out _
           (futures_create_order (close_order "BTCUSDT" SIDE_SELL 2)) init).
  apply surjective_pairing.
Defined.

(** X22.  A check never raises, and it only ever reduces: every order
    [check_and_execute_take_profit] submits is a reduce-only market order
    for one of the positions its listing showed, on the side that closes
    that position. *)
Theorem check_only_closes (T : TimeSync.env) (X : exchange) (s : state) :
  exists positions s',
    fst (get_positions T X s) = Returns positions /\
    check_and_execute_take_profit T X s = (Returns tt, s') /\
    only (closes positions) s s' /\
    (forall params, closes positions params ->
       param_reduceOnly params = true /\ param_type params = FUTURE_ORDER_TYPE_MARKET).
Proof.
  destruct (check_run T X s) as (positions & s1 & s' & Hget & Hcheck & Honly & _).
  exists positions, s'. rewrite Hget. split; [reflexivity|]. split; [assumption|].
  split; [assumption|].
  intros params (position & q & _ & ->). split; reflexivity.
Qed.

(** X23.  The memo holds for as long as the position stays listed: from a
    state in which the symbol is in [take_profit_executed], over any
    number of rounds of the monitoring loop in each of which the listing
    shows a position in the symbol, no order is submitted for the symbol
    and the symbol stays in the memo, whatever the price does. *)
Theorem no_repeat_while_listed (T : TimeSync.env) (X : exchange) (symbol : string)
    (n : nat) (s : state) :
  symbol ∈ take_profit_executed s ->
  listed_throughout T X symbol n s ->
  exists s', rounds T X n s = (Returns tt, s') /\ no_order_for symbol s s'.
Proof.
  revert s. induction n as [|n IH]; intros s Hmemo Hlisted.
  - exists s. split; [reflexivity | apply no_order_for_refl].
  - destruct Hlisted as [(positions & Hpos & Hin) Hrest].
    destruct (rounds_step T X n s) as (s1 & s2 & Hcheck & Hq & Hsnd & ->).
    rewrite Hsnd in Hrest.
    destruct (check_suppressed T X symbol positions s _ s1 Hcheck Hmemo Hpos)
      as [Hnew Hstay].
    assert (H1 : no_order_for symbol s s1) by (split; auto).
    assert (H2 : no_order_for symbol s s2).
    { eapply no_order_for_trans; [exact H1 | apply quiet_no_order_for; assumption]. }
    destruct (IH s2) as (s' & Hrun & H3); [apply H2; assumption | assumption |].
    exists s'. split; [assumption | eapply no_order_for_trans; eassumption].
Qed.

Lemma no_repeat_while_listed_witness :
  exists s',
    rounds steady whole_lots 2 after_take_profit = (Returns tt, s') /\
    no_order_for "BTCUSDT" after_take_profit s'.
Proof.
  apply (no_repeat_while_listed steady whole_lots "BTCUSDT" 2 after_take_profit).
  - change ("BTCUSDT"%string ∈ ({["BTCUSDT"%string]} : gset string)).
    apply elem_of_singleton. reflexivity.
  - cbn [listed_throughout]. split; [|split; [|exact I]].
    + eexists. split; [vm_compute; reflexivity|]. apply list_elem_of_here.
    + eexists. split; [vm_compute; reflexivity|]. apply list_elem_of_here.
Defined.

(** X24.  With nothing listed, a check does nothing at all: it returns
    before the memo is cleaned, submits nothing and leaves every attribute
    as it was.  That is also what happens when the positions cannot be
    listed, for [get_positions] then returns the empty list. *)
Theorem check_with_nothing_listed (T : TimeSync.env) (X : exchange) (s : state) :
  (fst (get_positions T X s) = Returns [] ->
   exists s', check_and_execute_take_profit T X s = (Returns tt, s') /\ quiet s s') /\
  (TraderMore.never_answers X futures_position_information ->
   fst (get_positions T X s) = Returns []).
Proof.
  split.
  - intros Hnone.
    destruct (check_run T X s) as (positions & s1 & s' & Hget & Hcheck & _ & Hempty).
    rewrite Hget in Hnone. cbn in Hnone. injection Hnone as ->.
    rewrite (Hempty eq_refl) in Hcheck. exists s1. split; [assumption|].
    eapply get_positions_quiet; eassumption.
  - intros Hnever. unfold get_positions, try_catch, bind.
    destruct (safe_request T X futures_position_information s) as [[a|e] s1] eqn:Hreq;
      [|reflexivity].
    apply safe_request_returns in Hreq as [[k Hk] _].
    destruct (Hnever k) as [e He]. congruence.
Qed.

Lemma check_with_nothing_listed_witness :
  (exists s', check_and_execute_take_profit steady reopened after_take_profit
                = (Returns tt, s') /\
              quiet after_take_profit s') /\
  fst (get_positions steady timing_out after_take_profit) = Returns [].
Proof.
  split.
  - apply (proj1 (check_with_nothing_listed steady reopened after_take_profit)).
    vm_compute. reflexivity.
  - apply (proj2 (check_with_nothing_listed steady timing_out after_take_profit)).
    intros k. exists timeout_error. reflexivity.
Defined.

(** *** The half-close when every request is answered *)

Section HalfClose.
Variable T : TimeSync.env.
Variable X : exchange.
Hypothesis Hclock : finite_clock T.

(** With a clock that reads, a request the exchange answers is made
    once. *)
Lemma safe_request_answered {A} (request_func : request A) s a :
  X A (calls (proc s)) request_func = Returns a ->
  exists s', safe_request T X request_func s = (Returns a, s') /\
             called (order_params request_func) 1 s s'.
Proof.
  intros Hx. unfold safe_request. cbn [attempts]. unfold try_catch.
  destruct (try_request T X request_func s) as [r s'] eqn:H.
  pose proof H as Hinv.
  apply try_request_inv in Hinv as [[-> Hcalled] | (_ & _ & k & Hk)].
  - rewrite Hx. eauto.
  - destruct (Hclock k) as [x Hx']. congruence.
Qed.

(** The run of [take_profit_half_position] on an instrument with a
    LOT_SIZE filter, the price, the exchange information and the order
    being answered. *)
Lemma take_profit_half_position_answered symbol position s
    entry price infos symbol_info f n :
  entryPrice position = Some entry -> (entry =? 0)%float = false ->
  (forall k, X _ k (futures_symbol_ticker symbol) = Returns price) ->
  (forall k, X _ k futures_exchange_info = Returns infos) ->
  lookup_by info_symbol symbol infos = Some symbol_info ->
  lookup_by filterType "LOT_SIZE" (filters symbol_info) = Some f ->
  (stepSize f =? 0)%float = false ->
  py_round (abs (positionAmt position) / 2 / stepSize f)%float = Some n ->
  ((float_of_Z n * stepSize f <? minQty f)%float = true ->
   exists s',
     take_profit_half_position T X symbol position s = (Returns false, s') /\
     submitted (proc s') = submitted (proc s) /\
     take_profit_executed s' = take_profit_executed s) /\
  ((float_of_Z n * stepSize f <? minQty f)%float = false ->
   forall order,
     (forall k, X _ k (futures_create_order
                         (close_order symbol (closing_side position)
                            (float_of_Z n * stepSize f)%float)) = Returns order) ->
     exists s',
       take_profit_half_position T X symbol position s = (Returns true, s') /\
       submitted (proc s') =
         (submitted (proc s) ++
          [close_order symbol (closing_side position) (float_of_Z n * stepSize f)%float])%list /\
       take_profit_executed s' = take_profit_executed s ∪ {[symbol]}).
Proof.
  intros Hentry Hnz Hprice Hinfos Hinfo Hlot Hstep Hn.
  destruct (safe_request_answered (futures_symbol_ticker symbol) s price (Hprice _))
    as (s1 & Hreq1 & Hc1).
  destruct (safe_request_answered futures_exchange_info s1 infos (Hinfos _))
    as (s2 & Hreq2 & Hc2).
  assert (Hget : get_current_price T X symbol s = (Returns (Some price), s1)).
  { unfold get_current_price, try_catch. erewrite bind_returns by exact Hreq1.
    reflexivity. }
  unfold take_profit_half_position, try_catch. cbv zeta.
  rewrite Hentry. cbn [of_option].
  erewrite (bind_returns (ret entry)) by reflexivity.
  erewrite bind_returns by exact Hget. cbv beta iota.
  erewrite bind_returns by exact Hreq2.
  rewrite Hinfo, Hlot.
  set (q := (float_of_Z n * stepSize f)%float).
  assert (Hchk : (ratio <- py_div (abs (positionAmt position) / 2) (stepSize f);;
                  n0 <- of_option (py_round ratio) ValueError;;
                  (if (float_of_Z n0 * stepSize f <? minQty f)%float then ret None
                   else ret (Some (float_of_Z n0 * stepSize f)%float)))%py s2
                 = (Returns (if (q <? minQty f)%float then None else Some q), s2)).
  { unfold py_div. rewrite Hstep. erewrite (bind_returns (ret _)) by reflexivity.
    rewrite Hn. cbn [of_option]. erewrite (bind_returns (ret _)) by reflexivity.
    subst q. destruct (_ <? _)%float; reflexivity. }
  erewrite bind_returns by exact Hchk.
  destruct Hc1 as (Hm1 & _ & Hsub1). destruct Hc2 as (Hm2 & _ & Hsub2).
  cbn in Hsub1, Hsub2. rewrite app_nil_r in Hsub1, Hsub2.
  split; intros Hmin; rewrite Hmin.
  - exists s2. split; [reflexivity|]. split; [congruence|].
    destruct Hm1 as [Hm1 _], Hm2 as [Hm2 _]. congruence.
  - intros order Horder. fold (closing_side position).
    destruct (safe_request_answered
                (futures_create_order (close_order symbol (closing_side position) q))
                s2 order (Horder _)) as (s3 & Hreq3 & Hm3 & _ & Hsub3).
    erewrite bind_returns by exact Hreq3.
    cbn in Hsub3.
    unfold py_div. rewrite Hnz.
    eexists. split.
    + destruct (0 <? positionAmt position)%float; reflexivity.
    + cbn. split.
      * rewrite Hsub3, Hsub2, Hsub1. reflexivity.
      * destruct Hm1 as [Hm1 _], Hm2 as [Hm2 _], Hm3 as [Hm3 _].
        rewrite Hm3, Hm2, Hm1. reflexivity.
Qed.

End HalfClose.

(** C7.  The half-close submits, as a reduce-only market order on the
    closing side, half the absolute position amount rounded to the
    NEAREST multiple of the lot step size (ties to the even multiple), not
    rounded down.  In every run, whatever is submitted is that order.
    And when the clock reads, the position has a non-zero entry price and
    the price and the exchange information are answered, with [n] the
    integer nearest to half the amount over the step size: if [n] steps
    are below the minimum quantity the operation returns False, submits
    nothing and leaves the memo alone; otherwise, the order being
    answered, it returns True, having submitted exactly one order, for
    [n] steps, and put the symbol into the memo. *)
Theorem half_close_rounds_to_nearest
    (T : TimeSync.env) (X : exchange) (symbol : string) (position : Position) (s : state) :
  (forall r s',
     take_profit_half_position T X symbol position s = (r, s') ->
     half_close_report X symbol position s r s') /\
  (forall entry price infos symbol_info f n,
     finite_clock T ->
     entryPrice position = Some entry -> (entry =? 0)%float = false ->
     (forall k, X _ k (futures_symbol_ticker symbol) = Returns price) ->
     (forall k, X _ k futures_exchange_info = Returns infos) ->
     lookup_by info_symbol symbol infos = Some symbol_info ->
     lookup_by filterType "LOT_SIZE" (filters symbol_info) = Some f ->
     (stepSize f =? 0)%float = false ->
     py_round (abs (positionAmt position) / 2 / stepSize f)%float = Some n ->
     ((float_of_Z n * stepSize f <? minQty f)%float = true ->
      exists s',
        take_profit_half_position T X symbol position s = (Returns false, s') /\
        submitted (proc s') = submitted (proc s) /\
        take_profit_executed s' = take_profit_executed s) /\
     ((float_of_Z n * stepSize f <? minQty f)%float = false ->
      forall order,
        (forall k, X _ k (futures_create_order
                            (close_order symbol (closing_side position)
                               (float_of_Z n * stepSize f)%float)) = Returns order) ->
        exists s',
          take_profit_half_position T X symbol position s = (Returns true, s') /\
          submitted (proc s') =
            (submitted (proc s) ++
             [close_order symbol (closing_side position)
                (float_of_Z n * stepSize f)%float])%list /\
          take_profit_executed s' = take_profit_executed s ∪ {[symbol]})).
Proof.
  split.
  - intros r s'. apply take_profit_half_position_report.
  - intros entry price infos symbol_info f n Hclock.
    apply take_profit_half_position_answered. assumption.
Qed.

(** A position of 3.5 in whole lots: half is 1.75, and one order for 2
    lots is submitted.  A position of 0.0004 in lots of a thousandth:
    half is a fifth of a step, which rounds to no step at all, and nothing
    is submitted. *)
Lemma half_close_rounds_to_nearest_witness :
  (exists s',
     take_profit_half_position TimeSyncMore.env_still whole_lots "BTCUSDT"
       (long_position 3.5) init = (Returns true, s') /\
     submitted (proc s') = [close_order "BTCUSDT" SIDE_SELL 2] /\
     take_profit_executed s' = ∅ ∪ {["BTCUSDT"]}) /\
  (exists s',
     take_profit_half_position TimeSyncMore.env_still dust "BTCUSDT"
       (long_position 0.0004) init = (Returns false, s') /\
     submitted (proc s') = [] /\
     take_profit_executed s' = ∅).
Proof.
  split.
  - apply (proj2 (proj2 (half_close_rounds_to_nearest TimeSyncMore.env_still whole_lots
                           "BTCUSDT" (long_position 3.5) init)
                   100%float 200%float [lot_info 1 1] (lot_info 1 1)
                   {| filterType := "LOT_SIZE"; stepSize := 1; minQty := 1 |} 2
                   ltac:(intros k; vm_compute; eauto) eq_refl eq_refl
                   (fun _ => eq_refl) (fun _ => eq_refl) eq_refl eq_refl eq_refl eq_refl)
             eq_refl
             (filled (close_order "BTCUSDT" SIDE_SELL 2)) (fun _ => eq_refl)).
  - apply (proj1 (proj2 (half_close_rounds_to_nearest TimeSyncMore.env_still dust
                           "BTCUSDT" (long_position 0.0004) init)
                   100%float 200%float [lot_info 0.001 0.001] (lot_info 0.001 0.001)
                   {| filterType := "LOT_SIZE"; stepSize := 0.001; minQty := 0.001 |} 0
                   ltac:(intros k; vm_compute; eauto) eq_refl eq_refl
                   (fun _ => eq_refl) (fun _ => eq_refl) eq_refl eq_refl eq_refl eq_refl)
             eq_refl).
Defined.

End MonitorMoreFacts.

(** * Facts about symbol selection, account set-up and entry orders *)

Module TraderApiFacts.
Import PyNum PyStr Binance Trader TraderMore TraderApi TraderFacts TraderMoreFacts.

Local Open Scope Z_scope.

(** [<] on floats is asymmetric. *)
Lemma ltb_asym (x y : float) : (x <? y)%float = true -> (y <? x)%float = false.
Proof.
  rewrite !FloatAxioms.ltb_spec. unfold SFltb.
  destruct (Prim2SF x) as [s1|s1| |s1 m1 e1], (Prim2SF y) as [s2|s2| |s2 m2 e2];
    cbn; try discriminate; try (destruct s1, s2; cbn; congruence);
    try (destruct s1; cbn; congruence); try (destruct s2; cbn; congruence).
  destruct s1, s2; cbn; try discriminate; try congruence;
    rewrite (Z.compare_antisym e1 e2); destruct (e1 ?= e2) eqn:He; cbn;
    try discriminate; try congruence;
    change (Pos.compare_cont Eq m2 m1) with (m2 ?= m1)%positive;
    change (Pos.compare_cont Eq m1 m2) with (m1 ?= m2)%positive;
    rewrite (Pos.compare_antisym m1 m2); destruct (m1 ?= m2)%positive; cbn;
    try discriminate; congruence.
Qed.

(** Inserting keeps the items, and keeps a list in which no item is
    directly followed by one of a larger change that way. *)
Lemma insert_desc_perm x sorted : insert_desc x sorted ≡ₚ x :: sorted.
Proof.
  induction sorted as [|y rest IH]; cbn; [reflexivity|].
  destruct (_ <? _)%float; [|reflexivity].
  rewrite IH. apply Permutation_swap.
Qed.

Lemma sort_desc_perm items : sort_desc items ≡ₚ items.
Proof.
  induction items as [|x rest IH]; cbn; [reflexivity|].
  rewrite insert_desc_perm, IH. reflexivity.
Qed.

Lemma insert_desc_sorted x sorted :
  descending sorted -> descending (insert_desc x sorted).
Proof.
  induction sorted as [|y rest IH]; intros Hs; cbn [insert_desc].
  - cbn. auto.
  - destruct (q_change x <? q_change y)%float eqn:Hxy.
    + destruct Hs as [Hhd Hrest]. specialize (IH Hrest).
      split; [|exact IH].
      destruct rest as [|z rest']; cbn [insert_desc].
      * apply ltb_asym. assumption.
      * destruct (q_change x <? q_change z)%float; [assumption|].
        apply ltb_asym. assumption.
    + split; [assumption | exact Hs].
Qed.

Lemma sort_desc_sorted items : descending (sort_desc items).
Proof.
  induction items as [|x rest IH]; cbn [sort_desc fold_right]; [exact I|].
  apply insert_desc_sorted. assumption.
Qed.

Lemma sent_refl params s : sent params s s.
Proof.
  split; [apply same_attrs_refl|]. exists 0%nat. cbn. rewrite app_nil_r. reflexivity.
Qed.

Lemma sent_trans params s1 s2 s3 :
  sent params s1 s2 -> sent params s2 s3 -> sent params s1 s3.
Proof.
  intros [Ha [k Hk]] [Hb [j Hj]]. split; [eapply same_attrs_trans; eauto|].
  exists (k + j)%nat. rewrite Hj, Hk, <- app_assoc, replicate_add, concat_app. reflexivity.
Qed.

Lemma sent_nil_idle s s' : sent [] s s' -> idle s s'.
Proof.
  intros [Ha [k Hk]]. split; [assumption|]. unfold placed_nothing.
  rewrite Hk, concat_replicate_nil, app_nil_r. reflexivity.
Qed.

Lemma bind_ext {S A B} (m : M S A) (f g : A -> M S B) s :
  (forall a s1, f a s1 = g a s1) -> bind m f s = bind m g s.
Proof. intros H. unfold bind. destruct (m s) as [[a|e] s1]; auto. Qed.

Lemma on_core_inv {A} (m : M state A) t r t' :
  on_core m t = (r, t') -> m (core t) = (r, core t') /\ same_list t t'.
Proof.
  unfold on_core. destruct (m (core t)) as [r0 s0]. intros H. injection H as <- <-.
  cbn. repeat split.
Qed.

Section WithClient.
Variable T : TimeSync.env.
Variable C : client.

(** On the methods of [request] the loop is that of [Trader.attempts]. *)
Lemma attempts_of_legacy {A} (request_func : request A) n : forall last s,
  attempts_of T n (on_process (call_client C (legacy request_func))) last s =
  attempts T (exchange_of C) n request_func last s.
Proof.
  induction n as [|n IH]; intros last s; cbn [attempts_of attempts]; [reflexivity|].
  unfold try_catch.
  change (on_process (call_client C (legacy request_func)) s)
    with (on_process (call (exchange_of C) request_func) s).
  destruct (on_process (call (exchange_of C) request_func) s) as [[a|e] s1];
    [reflexivity|].
  destruct (has_code e (-4059)); [reflexivity|].
  destruct (has_code e 1021).
  - apply bind_ext. intros o s2. rewrite !bind_get_state.
    apply bind_ext. intros u s3. apply IH.
  - rewrite !bind_get_state. apply bind_ext. intros u s2. apply IH.
Qed.

Lemma safe_request_of_legacy {A} (request_func : request A) s :
  safe_request_of T C (legacy request_func) s =
  safe_request T (exchange_of C) request_func s.
Proof.
  unfold safe_request_of, safe_request. rewrite !bind_get_state.
  apply attempts_of_legacy.
Qed.

Lemma call_client_inv {A} (request_func : request2 A) s r s' :
  on_process (call_client C request_func) s = (r, s') ->
  r = C A (calls (proc s)) request_func /\ sent (order_params2 request_func) s s' /\
  calls (proc s') = S (calls (proc s)).
Proof.
  intros H. apply on_process_inv in H as [H Hattrs].
  injection H as Hr Hp. rewrite <- Hp. cbn. split; [auto|]. split; [|reflexivity].
  split; [assumption|]. exists 1%nat. rewrite <- Hp. cbn. rewrite app_nil_r. reflexivity.
Qed.

(** The retry loop around a call of the client: it only ever submits the
    order it was asked to submit, and a value it returns is one the client
    gave. *)
Lemma attempts_of_inv {A} (request_func : request2 A) n : forall last s r s',
  attempts_of T n (on_process (call_client C request_func)) last s = (r, s') ->
  sent (order_params2 request_func) s s' /\
  (forall a, r = Returns a -> exists k, C A k request_func = Returns a).
Proof.
  induction n as [|n IH]; intros last s r s' H; cbn [attempts_of] in H.
  - apply raise_inv in H as [-> ->]. split; [apply sent_refl | discriminate].
  - apply try_catch_inv in H as [(a & H & ->) | (e & s1 & Hcall & H)].
    + apply call_client_inv in H as (Hr & Hsent & _). split; [assumption|].
      intros a' Ha'. injection Ha' as <-. eauto.
    + apply call_client_inv in Hcall as (_ & Hsent1 & _).
      assert (Hidle : forall s2 s3 (u : outcome unit),
                on_process (sleep (retry_delay s2)) s2 = (u, s3) ->
                sent (order_params2 request_func) s2 s3).
      { intros s2 s3 u Hs. apply sleep_inv in Hs as (_ & Ha & _ & Hsub).
        split; [assumption|]. exists 0%nat. cbn. rewrite app_nil_r. assumption. }
      destruct (has_code e (-4059)).
      { apply raise_inv in H as [-> ->]. split; [assumption | discriminate]. }
      destruct (has_code e 1021).
      * apply bind_inv in H as [(o & s2 & Hre & H) | (e' & Hre & ->)];
          apply resync_inv in Hre as (_ & Ha2 & _ & Hsub2).
        2:{ split; [|discriminate]. eapply sent_trans; [eassumption|].
            split; [assumption|]. exists 0%nat. cbn. rewrite app_nil_r. assumption. }
        assert (Hs2 : sent (order_params2 request_func) s1 s2).
        { split; [assumption|]. exists 0%nat. cbn. rewrite app_nil_r. assumption. }
        rewrite bind_get_state in H.
        apply bind_inv in H as [(u & s3 & Hsleep & H) | (e' & Hsleep & ->)];
          apply Hidle in Hsleep.
        -- apply IH in H as (Hsent & Hret). split; [|assumption].
           eapply sent_trans; [eassumption|]. eapply sent_trans; [eassumption|].
           eapply sent_trans; eassumption.
        -- split; [|discriminate].
           eapply sent_trans; [eassumption|]. eapply sent_trans; eassumption.
      * rewrite bind_get_state in H.
        apply bind_inv in H as [(u & s3 & Hsleep & H) | (e' & Hsleep & ->)];
          apply Hidle in Hsleep.
        -- apply IH in H as (Hsent & Hret). split; [|assumption].
           eapply sent_trans; [eassumption|]. eapply sent_trans; eassumption.
        -- split; [|discriminate]. eapply sent_trans; eassumption.
Qed.

Lemma safe_request_of_inv {A} (request_func : request2 A) s r s' :
  safe_request_of T C request_func s = (r, s') ->
  sent (order_params2 request_func) s s' /\
  (forall a, r = Returns a -> exists k, C A k request_func = Returns a).
Proof. unfold safe_request_of. rewrite bind_get_state. apply attempts_of_inv. Qed.

Lemma safe_request_of_idle {A} (request_func : request2 A) :
  order_params2 request_func = [] -> preserves idle (safe_request_of T C request_func).
Proof.
  intros Hnil s r s' H. apply safe_request_of_inv in H as [Hsent _].
  rewrite Hnil in Hsent. apply sent_nil_idle. assumption.
Qed.

Lemma safe_request_of_unanswered {A} (request_func : request2 A) s :
  unanswered C request_func ->
  exists e s', safe_request_of T C request_func s = (Raises e, s').
Proof.
  intros Hnever. destruct (safe_request_of T C request_func s) as [[a|e] s'] eqn:H; eauto.
  apply safe_request_of_inv in H as (_ & Hret).
  destruct (Hret a eq_refl) as [k Hk]. destruct (Hnever k) as [e He]. congruence.
Qed.

(** An answer at the first attempt costs one call. *)
Lemma safe_request_of_first {A} (request_func : request2 A) s a :
  0 < max_retries s -> C A (calls (proc s)) request_func = Returns a ->
  exists s',
    safe_request_of T C request_func s = (Returns a, s') /\
    calls (proc s') = S (calls (proc s)).
Proof.
  intros Hmax Hx. unfold safe_request_of. rewrite bind_get_state.
  destruct (Z.to_nat (max_retries s)) as [|n] eqn:Hn; [lia|].
  cbn [attempts_of]. unfold try_catch, on_process, call_client. cbn. rewrite Hx.
  eexists. split; reflexivity.
Qed.

(** The loop over the tickers never raises, and appends only items of
    tickers that pass the filter and whose symbol was listed as trading. *)
Lemma collect_inv tickers : forall qualified s r s',
  collect T C tickers qualified s = (r, s') ->
  idle s s' /\
  exists added,
    r = Returns (qualified ++ added) /\
    Forall (fun q => exists ticker price_change_percent quote_volume,
              ticker ∈ tickers /\ qualifies ticker /\ trading C (ticker_symbol ticker) /\
              q = {| q_symbol := ticker_symbol ticker; q_change := price_change_percent;
                     q_volume := quote_volume |} /\
              priceChangePercent ticker = Some price_change_percent) added.
Proof.
  induction tickers as [|ticker rest IH]; intros qualified s r s' H; cbn [collect] in H.
  - apply ret_inv in H as [-> ->]. split; [apply idle_refl|].
    exists []. rewrite app_nil_r. auto.
  - assert (Hskip : forall s0, collect T C rest qualified s0 = (r, s') ->
              idle s0 s' /\
              exists added,
                r = Returns (qualified ++ added) /\
                Forall (fun q => exists t price_change_percent quote_volume,
                          t ∈ ticker :: rest /\ qualifies t /\
                          trading C (ticker_symbol t) /\
                          q = {| q_symbol := ticker_symbol t;
                                 q_change := price_change_percent;
                                 q_volume := quote_volume |} /\
                          priceChangePercent t = Some price_change_percent) added).
    { intros s0 H0. apply IH in H0 as (Hidle & added & Hr & Hall).
      split; [assumption|]. exists added. split; [assumption|].
      eapply Forall_impl; [exact Hall|].
      intros q (t & p & v & Hin & Hq). exists t, p, v.
      split; [apply list_elem_of_further; assumption | assumption]. }
    destruct (endswith "USDT" (ticker_symbol ticker)) eqn:Hends; cbn [negb] in H;
      [|apply Hskip; assumption].
    destruct (priceChangePercent ticker) as [pcp|] eqn:Hpcp; [|apply Hskip; assumption].
    destruct (quoteVolume ticker) as [qv|] eqn:Hqv; [|apply Hskip; assumption].
    destruct ((10 <=? pcp)%float && (100000000 <? qv)%float) eqn:Hpass;
      [|apply Hskip; assumption].
    apply andb_true_iff in Hpass as [Hchange Hvolume].
    destruct (validate_symbol_run T (exchange_of C) (ticker_symbol ticker) s)
      as (valid & s1 & Hvalid & Hidle1 & Htrading & _).
    erewrite bind_returns in H by exact Hvalid.
    destruct valid.
    + apply IH in H as (Hidle & added & Hr & Hall).
      split; [eapply idle_trans; eassumption|].
      eexists (_ :: added). split; [rewrite <- app_assoc in Hr; exact Hr|].
      constructor.
      * exists ticker, pcp, qv. split; [apply list_elem_of_here|].
        split; [split; [assumption | eauto 6]|].
        split; [|auto]. destruct (Htrading eq_refl) as (k & infos & info & Hx & Hrest).
        exists k, infos, info. auto.
      * eapply Forall_impl; [exact Hall|].
        intros q (t & p & v & Hin & Hq). exists t, p, v.
        split; [apply list_elem_of_further; assumption | assumption].
    + destruct (Hskip s1 H) as (Hidle & Hrest).
      split; [eapply idle_trans; eassumption | assumption].
Qed.

(** [get_qualified_symbols] never raises and changes nothing; what it
    returns are the symbols of items in descending order of change, each
    from a ticker of an answer of the client. *)
Lemma get_qualified_symbols_run s :
  exists items s',
    get_qualified_symbols T C s = (Returns (List.map q_symbol items), s') /\
    idle s s' /\
    descending items /\
    (items = [] \/
     exists k tickers,
       C _ k futures_ticker_24hr = Returns tickers /\
       Forall (fun q => exists ticker,
                 ticker ∈ tickers /\ qualifies ticker /\
                 trading C (ticker_symbol ticker) /\
                 q_symbol q = ticker_symbol ticker /\
                 priceChangePercent ticker = Some (q_change q)) items).
Proof.
  unfold get_qualified_symbols, try_catch.
  destruct (safe_request_of T C futures_ticker_24hr s) as [[tickers|e] s1] eqn:Hreq.
  2:{ erewrite bind_raises by exact Hreq. exists [], s1. split; [reflexivity|].
      split; [exact (safe_request_of_idle futures_ticker_24hr eq_refl _ _ _ Hreq)|].
      split; [exact I | auto]. }
  erewrite bind_returns by exact Hreq.
  pose proof (safe_request_of_idle futures_ticker_24hr eq_refl _ _ _ Hreq) as Hidle1.
  apply safe_request_of_inv in Hreq as (_ & Hk). destruct (Hk tickers eq_refl) as [k Hx].
  destruct (collect T C tickers [] s1) as [r s2] eqn:Hcollect.
  pose proof Hcollect as Hinv.
  apply collect_inv in Hinv as (Hidle2 & added & Hr & Hall). cbn [app] in Hr. subst r.
  erewrite bind_returns by exact Hcollect.
  assert (Hidle : idle s s2) by (eapply idle_trans; eassumption).
  destruct added as [|q0 added'].
  { exists [], s2. split; [reflexivity|]. split; [assumption|].
    split; [exact I | auto]. }
  exists (sort_desc (q0 :: added')), s2. split; [reflexivity|]. split; [assumption|].
  split; [apply sort_desc_sorted|]. right. exists k, tickers. split; [assumption|].
  apply Forall_forall. intros q Hq.
  rewrite sort_desc_perm in Hq.
  rewrite Forall_forall in Hall. destruct (Hall q Hq) as (t & p & v & Hin & Hqual & Htr & -> & Hp).
  exists t. cbn. auto.
Qed.

Lemma idle_sent params s s' : idle s s' -> sent params s s'.
Proof.
  intros [Ha Hp]. split; [assumption|]. exists 0%nat. cbn. rewrite app_nil_r. exact Hp.
Qed.

(** [adjust_leverage] never raises; True means the client accepted the
    change. *)
Lemma adjust_leverage_run symbol t :
  exists b t1,
    adjust_leverage T C symbol t = (Returns b, t1) /\ same_list t t1 /\
    idle (core t) (core t1) /\
    (b = true ->
     exists k, C _ k (futures_change_leverage symbol (long_leverage t)) = Returns tt).
Proof.
  unfold adjust_leverage. rewrite bind_get_state. unfold try_catch.
  destruct (on_core (safe_request_of T C (futures_change_leverage symbol (long_leverage t))) t)
    as [[u|e] t1] eqn:H; pose proof H as Hinv;
    apply on_core_inv in Hinv as [Hreq Hlist];
    pose proof (safe_request_of_idle (futures_change_leverage symbol (long_leverage t))
                  eq_refl _ _ _ Hreq) as Hidle.
  - erewrite bind_returns by exact H. exists true, t1. split; [reflexivity|].
    split; [assumption|]. split; [assumption|]. intros _.
    apply safe_request_of_inv in Hreq as (_ & Hk). destruct u. apply Hk. reflexivity.
  - erewrite bind_raises by exact H. exists false, t1. split; [reflexivity|].
    split; [assumption|]. split; [assumption | discriminate].
Qed.

Lemma first_usdt_lookup assets (s : state) :
  first_usdt assets s =
  match lookup_by asset "USDT" assets with
  | Some a => of_option (balance a) ValueError s
  | None => ret 0%float s
  end.
Proof.
  unfold lookup_by. induction assets as [|a rest IH]; cbn; [reflexivity|].
  destruct (String.eqb (asset a) "USDT"); [reflexivity | exact IH].
Qed.

End WithClient.

(** X25.  [get_qualified_symbols] never raises, submits nothing and
    leaves the trader's attributes alone.  Every symbol it returns comes
    from a ticker of an answer of the client that ends in USDT, gained
    ten percent or more on a quote volume above a hundred million, and
    was listed as TRADING by the exchange information; no symbol in the
    result is directly followed by one of a larger gain.  When the ticker
    request never gets through the result is the empty list. *)
Theorem get_qualified_symbols_sound (T : TimeSync.env) (C : client) (s : state) :
  exists items s',
    get_qualified_symbols T C s = (Returns (List.map q_symbol items), s') /\
    idle s s' /\
    descending items /\
    (items = [] \/
     exists k tickers,
       C _ k futures_ticker_24hr = Returns tickers /\
       Forall (fun q => exists ticker,
                 ticker ∈ tickers /\ qualifies ticker /\
                 trading C (ticker_symbol ticker) /\
                 q_symbol q = ticker_symbol ticker /\
                 priceChangePercent ticker = Some (q_change q)) items) /\
    (unanswered C futures_ticker_24hr -> items = []).
Proof.
  destruct (get_qualified_symbols_run T C s) as (items & s' & Hrun & Hidle & Hsorted & Hfrom).
  exists items, s'. repeat (split; [assumption|]).
  intros Hnever. destruct Hfrom as [-> | (k & tickers & Hx & _)]; [reflexivity|].
  destruct (Hnever k) as [e He]. congruence.
Qed.

(** X26.  [update_symbols] never raises and never empties the monitored
    list: it replaces the list only by a non-empty result of
    [get_qualified_symbols], and keeps it as it is otherwise, in
    particular when the ticker request never gets through.
    [refresh_symbol_list] in the same situation leaves the list empty. *)
Theorem update_symbols_keeps_list (T : TimeSync.env) (C : client) (t : trader) :
  exists new_symbols t',
    fst (get_qualified_symbols T C (core t)) = Returns new_symbols /\
    update_symbols T C t = (Returns tt, t') /\
    symbols t' = (match new_symbols with [] => symbols t | _ => new_symbols end) /\
    (symbols t <> [] -> symbols t' <> []) /\
    (unanswered C futures_ticker_24hr ->
     symbols t' = symbols t /\
     symbols (snd (refresh_symbol_list T C t)) = []).
Proof.
  destruct (get_qualified_symbols_run T C (core t)) as (items & s' & Hrun & _ & _ & Hfrom).
  assert (Hnever : unanswered C futures_ticker_24hr -> items = []).
  { intros Hun. destruct Hfrom as [-> | (k & tickers & Hx & _)]; [reflexivity|].
    destruct (Hun k) as [e He]. congruence. }
  exists (List.map q_symbol items).
  assert (Hcore : on_core (get_qualified_symbols T C) t =
                  (Returns (List.map q_symbol items),
                   {| core := s'; symbols := symbols t; long_leverage := long_leverage t |})).
  { unfold on_core. rewrite Hrun. reflexivity. }
  unfold update_symbols, try_catch. erewrite bind_returns by exact Hcore.
  rewrite Hrun. cbn [fst].
  destruct (List.map q_symbol items) as [|sym rest] eqn:Hmap.
  - eexists. split; [reflexivity|]. split; [reflexivity|]. cbn.
    split; [reflexivity|]. split; [auto|]. intros _. split; [reflexivity|].
    unfold refresh_symbol_list. erewrite bind_returns by exact Hcore. reflexivity.
  - eexists. split; [reflexivity|]. split; [reflexivity|]. cbn.
    split; [reflexivity|]. split; [discriminate|].
    intros Hun. rewrite (Hnever Hun) in Hmap. discriminate.
Qed.

(** X27.  [place_order] never raises and changes the leverage first: an
    order it returns was answered by the client after the client accepted
    the leverage change, and when the leverage change never gets through
    it returns None without submitting anything.  Whatever happens, the
    only order it ever submits is the market order it was asked for. *)
Theorem place_order_needs_leverage (T : TimeSync.env) (C : client)
    (symbol side : string) (quantity : float) (t : trader) :
  exists o t',
    place_order T C symbol side quantity t = (Returns o, t') /\
    same_list t t' /\
    sent [market_order symbol side quantity] (core t) (core t') /\
    (forall order, o = Some order ->
       (exists k, C _ k (futures_change_leverage symbol (long_leverage t)) = Returns tt) /\
       exists k, C _ k (legacy (futures_create_order (market_order symbol side quantity)))
                 = Returns order) /\
    (unanswered C (futures_change_leverage symbol (long_leverage t)) ->
     o = None /\ placed_nothing (core t) (core t')).
Proof.
  destruct (adjust_leverage_run T C symbol t) as (b & t1 & Hadj & Hlist1 & Hidle1 & Hok).
  unfold place_order. erewrite bind_returns by exact Hadj.
  destruct b; cbn [negb].
  - destruct (Hok eq_refl) as [k Hk]. unfold try_catch.
    destruct (on_core (safe_request_of T C
                (legacy (futures_create_order (market_order symbol side quantity)))) t1)
      as [[order|e] t2] eqn:H; pose proof H as Hinv;
      apply on_core_inv in Hinv as [Hreq [Hsym2 Hlev2]];
      apply safe_request_of_inv in Hreq as (Hsent & Hret);
      assert (Hlist : same_list t t2)
        by (destruct Hlist1 as [Hs1 Hl1]; split; congruence);
      assert (Hall : sent [market_order symbol side quantity] (core t) (core t2))
        by (eapply sent_trans; [apply idle_sent; eassumption | exact Hsent]).
    + erewrite bind_returns by exact H. exists (Some order), t2.
      split; [reflexivity|]. split; [assumption|]. split; [assumption|]. split.
      * intros order' Ho. injection Ho as <-. split; [eauto | apply Hret; reflexivity].
      * intros Hun. destruct (Hun k) as [e He]. congruence.
    + erewrite bind_raises by exact H. exists None, t2.
      split; [reflexivity|]. split; [assumption|]. split; [assumption|]. split.
      * discriminate.
      * intros Hun. destruct (Hun k) as [e' He]. congruence.
  - exists None, t1. split; [reflexivity|]. split; [assumption|].
    split; [apply idle_sent; assumption|]. split; [discriminate|].
    intros _. split; [reflexivity | apply Hidle1].
Qed.

(** X28.  [get_account_balance] never raises and changes nothing.  When
    the client answers the first attempt, the result is the balance of
    the first USDT entry of that answer, and 0.0 when the answer has no
    USDT entry or the balance of its first one cannot be read.  When the
    request never gets through, the result is 0.0. *)
Theorem get_account_balance_first_usdt (T : TimeSync.env) (C : client) (s : state) :
  (exists b s', get_account_balance T C s = (Returns b, s') /\ idle s s') /\
  (forall assets,
     0 < max_retries s ->
     C _ (calls (proc s)) futures_account_balance = Returns assets ->
     fst (get_account_balance T C s) =
     Returns match lookup_by asset "USDT" assets with
             | Some a => default 0%float (balance a)
             | None => 0%float
             end) /\
  (unanswered C futures_account_balance ->
   fst (get_account_balance T C s) = Returns 0%float).
Proof.
  split; [|split].
  - unfold get_account_balance, try_catch.
    destruct (safe_request_of T C futures_account_balance s) as [[assets|e] s1] eqn:Hreq;
      pose proof (safe_request_of_idle T C futures_account_balance eq_refl _ _ _ Hreq)
        as Hidle.
    2:{ erewrite bind_raises by exact Hreq. eauto. }
    erewrite bind_returns by exact Hreq. rewrite first_usdt_lookup.
    destruct (lookup_by asset "USDT" assets) as [a|]; [|cbn; eauto].
    destruct (balance a) as [b|]; cbn; eauto.
  - intros assets Hmax Hx.
    destruct (safe_request_of_first T C futures_account_balance s assets Hmax Hx)
      as (s1 & Hreq & _).
    unfold get_account_balance, try_catch.
    erewrite bind_returns by exact Hreq. rewrite first_usdt_lookup.
    destruct (lookup_by asset "USDT" assets) as [a|]; [|reflexivity].
    destruct (balance a) as [b|]; reflexivity.
  - intros Hun.
    destruct (safe_request_of_unanswered T C futures_account_balance s Hun)
      as (e & s1 & Hreq).
    unfold get_account_balance, try_catch.
    erewrite bind_raises by exact Hreq. reflexivity.
Qed.

(** On [teller] the first USDT entry, of 250.5, is returned, not the
    second. *)
Lemma get_account_balance_first_usdt_witness :
  fst (get_account_balance TimeSync.env_down teller init) = Returns 250.5%float.
Proof.
  apply (proj1 (proj2 (get_account_balance_first_usdt TimeSync.env_down teller init))
           teller_assets).
  - reflexivity.
  - reflexivity.
Defined.

(** X29.  [setup_account] never raises and submits nothing; when the
    first answer says the account is already in one-way mode it makes
    that one call and requests no change. *)
Theorem setup_account_one_way (T : TimeSync.env) (C : client) (s : state) :
  exists s',
    setup_account T C s = (Returns tt, s') /\ idle s s' /\
    (0 < max_retries s ->
     C _ (calls (proc s)) futures_get_position_mode = Returns false ->
     calls (proc s') = S (calls (proc s))).
Proof.
  destruct (setup_account T C s) as [r s'] eqn:H.
  assert (Hidle : idle s s').
  { revert H. unfold setup_account.
    apply preserves_try_catch; [apply idle_trans| |intros e; apply preserves_ret, idle_refl].
    apply preserves_bind; [apply idle_trans | now apply safe_request_of_idle |].
    intros dual. destruct (negb dual); [apply preserves_ret, idle_refl|].
    apply preserves_try_catch;
      [apply idle_trans | now apply safe_request_of_idle
      | intros e; apply preserves_ret, idle_refl]. }
  assert (Hr : r = Returns tt).
  { unfold setup_account in H.
    apply try_catch_inv in H as [([] & _ & ->) | (e & s1 & _ & Hh)]; [reflexivity|].
    apply ret_inv in Hh as [-> _]. reflexivity. }
  subst r. exists s'. split; [reflexivity|]. split; [assumption|].
  intros Hmax Hx.
  destruct (safe_request_of_first T C futures_get_position_mode s false Hmax Hx)
    as (s1 & Hreq & Hcalls).
  unfold setup_account, try_catch in H. erewrite bind_returns in H by exact Hreq.
  cbn in H. injection H as <-. assumption.
Qed.

End TraderApiFacts.
